(** * Knowledge retrieval and tool orchestration engine: a shallow embedding

    The development follows the TypeScript sources [utils.ts] (the module
    that [index.ts] imports as [./utils]: chunker, lexical search, embedding
    cache), [types.ts] (messages) and [index.ts] (semantic search,
    dispatcher, knowledge-base loading, conversation turn, calendar
    handlers, routes).

    Conventions of the embedding.
    - A JavaScript string is a [string]: a sequence of code units, here
      restricted to the code units below 256.
    - A JavaScript number that counts or bounds something is a [Z]; a
      relevance score or an embedding coordinate is a [Q] (exact arithmetic,
      no rounding, no NaN).
    - A computation that may throw returns a [Result].
    - External collaborators (embedding service, completion service,
      calendar handlers, clock, file writes) are oracles; every call is
      recorded in an event log, and an oracle may depend on the log. *)

Set Warnings "-register-all".
From Stdlib Require Import String Ascii List ZArith Lia Bool QArith Lqa Sorted.
From Stdlib Require Import DecimalString.
From stdpp Require Import gmap strings.
Import ListNotations.
Open Scope string_scope.
Open Scope list_scope.

(** ** Part I. The embedding *)

(** *** JavaScript strings *)

Definition LF : ascii := ascii_of_nat 10.

(** The separator ["\n\n"] that [chunkContent] puts between paragraphs. *)
Definition nn : string := String LF (String LF EmptyString).

Definition code (c : ascii) : nat := nat_of_ascii c.

Definition isLF (c : ascii) : bool := Nat.eqb (code c) 10.

(** The class [\s] of ECMAScript regular expressions, on code units below
    256: TAB, LF, VT, FF, CR, SPACE and NO-BREAK SPACE. *)
Definition isWhiteSpace (c : ascii) : bool :=
  (Nat.leb 9 (code c) && Nat.leb (code c) 13)
  || Nat.eqb (code c) 32 || Nat.eqb (code c) 160.

(** Truthiness of a string: the empty string is falsy. *)
Definition truthy (s : string) : bool :=
  match s with EmptyString => false | String _ _ => true end.

(** [s.length] as a JavaScript number. *)
Definition len (s : string) : Z := Z.of_nat (String.length s).

(** [dropChars n s] is [s.substring(n)]. *)
Fixpoint dropChars (n : nat) (s : string) : string :=
  match n, s with
  | O, _ => s
  | S k, String _ s' => dropChars k s'
  | S _, EmptyString => EmptyString
  end.

(** *** [content.split(/\n\s*\n/)]

    [spaceThenLF s] matches [\s*\n] at the start of [s], greedily: the
    quantifier takes the whole run of white space and gives characters back
    until a line feed ends the match, so the match ends at the last line feed
    of the run.  It returns the matched text and the rest of [s]. *)
Fixpoint spaceThenLF (s : string) : option (string * string) :=
  match s with
  | EmptyString => None
  | String c s' =>
      if isWhiteSpace c then
        match spaceThenLF s' with
        | Some (w, r) => Some (String c w, r)
        | None => if isLF c then Some (String c EmptyString, s') else None
        end
      else None
  end.

(** [blankLine s] matches [/\n\s*\n/] at the start of [s]. *)
Definition blankLine (s : string) : option (string * string) :=
  match s with
  | EmptyString => None
  | String c s' =>
      if isLF c then
        match spaceThenLF s' with
        | Some (w, r) => Some (String c w, r)
        | None => None
        end
      else None
  end.

(** [splitBlankLines s skip] scans [s] from left to right.  [skip] counts the
    characters of [s] that still belong to the separator matched just before.
    The result is the first piece together with the following
    (separator, piece) pairs, in order. *)
Fixpoint splitBlankLines (s : string) (skip : nat)
  : string * list (string * string) :=
  match s with
  | EmptyString => (EmptyString, [])
  | String c s' =>
      match skip with
      | S k => splitBlankLines s' k
      | O =>
          match blankLine s with
          | Some (w, _) =>
              let '(p, rest) := splitBlankLines s' (String.length w - 1) in
              (EmptyString, (w, p) :: rest)
          | None =>
              let '(p, rest) := splitBlankLines s' 0 in
              (String c p, rest)
          end
      end
  end.

(** The separators matched in [s], in order. *)
Definition separators (s : string) : list string :=
  map fst (snd (splitBlankLines s 0)).

(** [s.split(/\n\s*\n/)]: the paragraphs of [s]. *)
Definition paragraphs (s : string) : list string :=
  fst (splitBlankLines s 0) :: map snd (snd (splitBlankLines s 0)).

(** *** utils.ts: [chunkContent] *)

(** One iteration of [for (const paragraph of paragraphs)], on the pair
    ([chunks], [currentChunk]). *)
Definition chunkStep (maxChunkLength : Z) (st : list string * string)
  (paragraph : string) : list string * string :=
  let '(chunks, currentChunk) := st in
  if (len (currentChunk +:+ paragraph) >? maxChunkLength)%Z
     && (len currentChunk >? 0)%Z
  then (chunks ++ [currentChunk], paragraph)
  else (chunks,
        currentChunk +:+ (if truthy currentChunk then nn else "") +:+ paragraph).

Definition chunkLoop (maxChunkLength : Z) (ps : list string)
  (st : list string * string) : list string * string :=
  fold_left (chunkStep maxChunkLength) ps st.

Definition chunkContent (content : string) (maxChunkLength : Z) : list string :=
  if (len content <=? maxChunkLength)%Z then [content]
  else
    let '(chunks, currentChunk) :=
      chunkLoop maxChunkLength (paragraphs content) ([], "") in
    if truthy currentChunk then chunks ++ [currentChunk] else chunks.

(** The default [maxChunkLength = 2000]. *)
Definition chunkContent_default (content : string) : list string :=
  chunkContent content 2000.

(** *** Errors and results *)

(** A thrown JavaScript error: its [name] and its [message]. *)
Record JSError := { errName : string; errMessage : string }.

Inductive Result (A : Type) : Type :=
| Ok (a : A)
| Throw (e : JSError).

Arguments Ok {A} a.
Arguments Throw {A} e.

Definition bindR {A B} (r : Result A) (k : A -> Result B) : Result B :=
  match r with
  | Ok a => k a
  | Throw e => Throw e
  end.

(** *** More string operations *)

(** [s.toLowerCase()] on code units below 256: A-Z, and the capital letters
    U+00C0 to U+00DE except the multiplication sign U+00D7. *)
Definition lowerChar (c : ascii) : ascii :=
  let n := code c in
  if (Nat.leb 65 n && Nat.leb n 90)
     || (Nat.leb 192 n && Nat.leb n 222 && negb (Nat.eqb n 215))
  then ascii_of_nat (n + 32) else c.

Fixpoint toLowerCase (s : string) : string :=
  match s with
  | EmptyString => EmptyString
  | String c s' => String (lowerChar c) (toLowerCase s')
  end.

(** [s.includes(sub)]. *)
Fixpoint includes (s sub : string) : bool :=
  String.prefix sub s
  || match s with
     | EmptyString => false
     | String _ s' => includes s' sub
     end.

(** [s.substring(0, n)]; a negative [n] counts as 0. *)
Definition substring0 (n : Z) (s : string) : string :=
  String.substring 0 (Z.to_nat n) s.

(** [s.split(/\s+/)]: [inSep] tells that the previous character was white
    space.  The result is the first piece and the pieces after it. *)
Fixpoint splitSpaces (s : string) (inSep : bool) : string * list string :=
  match s with
  | EmptyString => (EmptyString, [])
  | String c s' =>
      if isWhiteSpace c then
        if inSep then splitSpaces s' true
        else let '(p, rest) := splitSpaces s' true in (EmptyString, p :: rest)
      else
        let '(p, rest) := splitSpaces s' false in (String c p, rest)
  end.

Definition words (s : string) : list string :=
  let '(p, rest) := splitSpaces s false in p :: rest.

(** *** Arrays *)

(** [l.slice(0, e)]: a negative [e] counts from the end of the array. *)
Definition slice0 {A} (l : list A) (e : Z) : list A :=
  firstn (Z.to_nat (if (e <? 0)%Z then Z.of_nat (length l) + e else e)) l.

Definition Qgtb (x y : Q) : bool := negb (Qle_bool x y).

(** [Array.prototype.sort(cmp)].  ECMAScript requires the sort to be stable;
    elements are inserted from the right, an element going after those the
    comparator puts strictly before it ([cmp x y > 0]). *)
Fixpoint insertSorted {A} (cmp : A -> A -> Q) (x : A) (l : list A) : list A :=
  match l with
  | [] => [x]
  | y :: l' => if Qgtb (cmp x y) 0 then y :: insertSorted cmp x l' else x :: l
  end.

Definition sortBy {A} (cmp : A -> A -> Q) (l : list A) : list A :=
  fold_right (insertSorted cmp) [] l.

(** A [Set] of strings in insertion order. *)
Definition setAdd (x : string) (set : list string) : list string :=
  if existsb (String.eqb x) set then set else set ++ [x].

(** *** Regular expressions built from a keyword: [new RegExp(keyword, 'g')]

    The pattern language is modelled for patterns made of pattern characters,
    [.], and the quantifiers [*], [+], [?] with their lazy forms.  Patterns
    that use another syntax character are left to the parameter
    [otherPatterns] of the search. *)

Inductive atom : Type :=
| AChar (c : ascii)
| AAny.

Inductive quantifier : Type :=
| QOne
| QStar (greedy : bool)
| QPlus (greedy : bool)
| QOpt (greedy : bool).

Definition term : Type := atom * quantifier.

Definition isChar (n : nat) (c : ascii) : bool := Nat.eqb (code c) n.

(** [*], [+], [?]. *)
Definition isQuantifierChar (c : ascii) : bool :=
  isChar 42 c || isChar 43 c || isChar 63 c.

(** The syntax characters outside the modelled fragment:
    [^ $ \ ( ) [ ] { } |]. *)
Definition isOtherSyntaxChar (c : ascii) : bool :=
  isChar 94 c || isChar 36 c || isChar 92 c || isChar 40 c || isChar 41 c
  || isChar 91 c || isChar 93 c || isChar 123 c || isChar 125 c || isChar 124 c.

Fixpoint inFragment (p : string) : bool :=
  match p with
  | EmptyString => true
  | String c p' => negb (isOtherSyntaxChar c) && inFragment p'
  end.

Definition atomOf (c : ascii) : atom :=
  if isChar 46 c then AAny else AChar c.

Definition quantifierOf (c : ascii) (greedy : bool) : quantifier :=
  if isChar 42 c then QStar greedy
  else if isChar 43 c then QPlus greedy
  else QOpt greedy.

(** Parsing [Term :: Atom | Atom Quantifier]: a quantifier where an atom is
    expected has nothing to repeat, and the pattern is rejected ([None]). *)
Fixpoint parsePattern (p : string) : option (list term) :=
  match p with
  | EmptyString => Some []
  | String c p1 =>
      if isQuantifierChar c then None
      else
        match p1 with
        | String q p2 =>
            if isQuantifierChar q then
              match p2 with
              | String l p3 =>
                  if isChar 63 l
                  then option_map (cons (atomOf c, quantifierOf q false))
                         (parsePattern p3)
                  else option_map (cons (atomOf c, quantifierOf q true))
                         (parsePattern p2)
              | EmptyString => Some [(atomOf c, quantifierOf q true)]
              end
            else option_map (cons (atomOf c, QOne)) (parsePattern p1)
        | EmptyString => Some [(atomOf c, QOne)]
        end
  end.

(** [.] matches any character except a line terminator. *)
Definition atomMatches (a : atom) (c : ascii) : bool :=
  match a with
  | AChar c' => Ascii.eqb c' c
  | AAny => negb (isChar 10 c || isChar 13 c)
  end.

(** Matching is by backtracking; [k] matches the rest of the pattern and
    returns what is left of the text. *)
Definition matchOne (a : atom) (k : string -> option string) (s : string)
  : option string :=
  match s with
  | String c s' => if atomMatches a c then k s' else None
  | EmptyString => None
  end.

Definition orElse {A} (x y : option A) : option A :=
  match x with Some _ => x | None => y end.

Fixpoint starGreedy (a : atom) (k : string -> option string) (s : string)
  : option string :=
  match s with
  | String c s' =>
      if atomMatches a c then orElse (starGreedy a k s') (k s) else k s
  | EmptyString => k s
  end.

Fixpoint starLazy (a : atom) (k : string -> option string) (s : string)
  : option string :=
  orElse (k s)
    match s with
    | String c s' => if atomMatches a c then starLazy a k s' else None
    | EmptyString => None
    end.

Definition matchTerm (t : term) (k : string -> option string)
  : string -> option string :=
  let '(a, q) := t in
  match q with
  | QOne => matchOne a k
  | QStar true => starGreedy a k
  | QStar false => starLazy a k
  | QPlus true => matchOne a (starGreedy a k)
  | QPlus false => matchOne a (starLazy a k)
  | QOpt true => fun s => orElse (matchOne a k s) (k s)
  | QOpt false => fun s => orElse (k s) (matchOne a k s)
  end.

(** [matchAt ts s]: the text left after the match of [ts] at the start of
    [s], if there is one. *)
Fixpoint matchAt (ts : list term) : string -> option string :=
  match ts with
  | [] => fun s => Some s
  | t :: ts' => matchTerm t (matchAt ts')
  end.

(** The number of matches that [s.match(re)] collects with the [g] flag:
    the search resumes where the last match ended, one character further
    after an empty match; [skip] counts the characters still covered by the
    last match. *)
Fixpoint countMatches (ts : list term) (s : string) (skip : nat) : nat :=
  match s with
  | EmptyString =>
      match matchAt ts EmptyString with Some _ => 1%nat | None => 0%nat end
  | String c s' =>
      match skip with
      | S k => countMatches ts s' k
      | O =>
          match matchAt ts s with
          | Some rest =>
              S (countMatches ts s'
                   (String.length s - String.length rest - 1))
          | None => countMatches ts s' 0
          end
      end
  end.

Definition nothingToRepeat (pattern : string) : JSError :=
  {| errName := "SyntaxError";
     errMessage :=
       "Invalid regular expression: /" +:+ pattern +:+ "/: Nothing to repeat" |}.

(** *** types.ts: documents and search results *)

(** A JSON value; an object keeps its members in insertion order. *)
Inductive json : Type :=
| JNull
| JBool (b : bool)
| JNumber (q : Q)
| JString (s : string)
| JArray (items : list json)
| JObject (members : list (string * json)).

(** [metadata?: Record<string, any>]: absent, or the members of an object. *)
Record KnowledgeDocument := {
  id : string;
  title : string;
  content : string;
  metadata : option (list (string * json))
}.

Record SearchResult := {
  documentId : string;
  resultTitle : string;
  excerpt : string;
  relevanceScore : Q
}.

(** *** utils.ts: [getSynonymMap] *)

Definition getSynonymMap : list (string * list string) :=
  [ ("cancel", ["cancelation"; "cancelling"; "reschedule"; "abort"; "terminate"]);
    ("appointment", ["meeting"; "session"; "consultation"; "booking"; "reservation"]);
    ("reschedule", ["change"; "move"; "adjust"; "shift"; "postpone"]);
    ("virtual", ["online"; "remote"; "digital"; "video"; "teleconference"]);
    ("policy", ["rule"; "guideline"; "regulation"; "procedure"; "protocol"]);
    ("fee", ["charge"; "cost"; "payment"; "price"; "expense"]);
    ("late", ["tardy"; "delayed"; "behind schedule"; "not on time"]);
    ("available", ["free"; "open"; "vacant"; "accessible"; "obtainable"]);
    ("unavailable", ["busy"; "occupied"; "booked"; "reserved"; "taken"]);
    ("doctor", ["physician"; "specialist"; "practitioner"; "clinician"]);
    ("location", ["place"; "venue"; "site"; "facility"; "address"]);
    ("time", ["schedule"; "slot"; "hour"; "period"; "duration"]) ].

(** The body of [keywords.forEach(keyword => ...)]: the keyword, then for
    every entry of the synonym map that holds it as term or as synonym, the
    term and all its synonyms. *)
Definition addSynonyms (keyword : string) (set : list string)
  (entry : string * list string) : list string :=
  let '(word, synonyms) := entry in
  if String.eqb keyword word || existsb (String.eqb keyword) synonyms
  then fold_left (fun acc syn => setAdd syn acc) synonyms (setAdd word set)
  else set.

Definition expandKeyword (set : list string) (keyword : string) : list string :=
  fold_left (addSynonyms keyword) getSynonymMap (setAdd keyword set).

Definition expandKeywords (keywords : list string) : list string :=
  fold_left expandKeyword keywords [].

(** *** utils.ts: [extractRelevantExcerpt] *)

(** [. ! ?] *)
Definition isTerminal (c : ascii) : bool :=
  isChar 46 c || isChar 33 c || isChar 63 c.

Definition snoc (s : string) (c : ascii) : string := s +:+ String c EmptyString.

(** [content.match(/[^.!?]+[.!?]+/g) || []]: [acc] is the sentence being
    read, [closing] tells that its terminal punctuation has begun. *)
Fixpoint scanSentences (s acc : string) (closing : bool) : list string :=
  match s with
  | EmptyString => if closing then [acc] else []
  | String c s' =>
      if isTerminal c then
        if closing || truthy acc then scanSentences s' (snoc acc c) true
        else scanSentences s' EmptyString false
      else
        if closing then acc :: scanSentences s' (String c EmptyString) false
        else scanSentences s' (snoc acc c) false
  end.

Definition sentencesOf (content : string) : list string :=
  scanSentences content EmptyString false.

(** The score of a sentence: how many expanded query words it includes. *)
Definition sentenceScore (expandedQueryWords : list string) (sentence : string)
  : Z :=
  let sentenceLower := toLowerCase sentence in
  fold_left (fun score word => if includes sentenceLower word
                               then (score + 1)%Z else score)
    expandedQueryWords 0%Z.

(** [scores.indexOf(Math.max(...scores))]: the first index of the maximum. *)
Fixpoint firstIndexOf (x : Z) (l : list Z) : nat :=
  match l with
  | [] => 0%nat
  | y :: l' => if (y =? x)%Z then 0%nat else S (firstIndexOf x l')
  end.

Definition maximum (l : list Z) : Z :=
  match l with
  | [] => 0%Z
  | x :: l' => fold_left Z.max l' x
  end.

(** [l.slice(start, end)] for [0 <= start]. *)
Definition sliceRange {A} (l : list A) (startIdx endIdx : nat) : list A :=
  firstn (endIdx - startIdx) (skipn startIdx l).

Definition extractRelevantExcerpt (content query : string) (maxLength : Z)
  : string :=
  let sentences := sentencesOf content in
  match sentences with
  | [] =>
      substring0 maxLength content
      +:+ (if (len content >? maxLength)%Z then "..." else "")
  | _ =>
      let queryWords := words (toLowerCase query) in
      let expandedQueryWords := expandKeywords queryWords in
      let sentenceScores := map (sentenceScore expandedQueryWords) sentences in
      let bestSentenceIndex :=
        firstIndexOf (maximum sentenceScores) sentenceScores in
      let contextSize := 2%nat in
      let startIdx := (bestSentenceIndex - contextSize)%nat in
      let endIdx :=
        Nat.min (length sentences) (bestSentenceIndex + contextSize + 1) in
      let excerpt := String.concat " " (sliceRange sentences startIdx endIdx) in
      if (len excerpt >? maxLength)%Z
      then substring0 (maxLength - 3) excerpt +:+ "..."
      else excerpt
  end.

(** *** utils.ts: [basicKeywordSearch] *)

Section LexicalSearch.

(** The outcome of [(subject.match(new RegExp(pattern, 'g')) || []).length]
    for the patterns outside the modelled fragment: the number of matches,
    or the error thrown by the constructor. *)
Variable otherPatterns : string -> string -> Result Z.

Definition matchCount (pattern subject : string) : Result Z :=
  if inFragment pattern then
    match parsePattern pattern with
    | Some ts => Ok (Z.of_nat (countMatches ts subject 0))
    | None => Throw (nothingToRepeat pattern)
    end
  else otherPatterns pattern subject.

(** The body of [expandedKeywords.forEach(keyword => ...)] on a document. *)
Definition scoreKeyword (lowerTitle lowerContent : string) (score : Z)
  (keyword : string) : Result Z :=
  let score1 := if includes lowerTitle keyword then (score + 10)%Z else score in
  bindR (matchCount keyword lowerContent)
        (fun contentMatches => Ok (score1 + contentMatches)%Z).

Fixpoint scoreKeywords (lowerTitle lowerContent : string) (score : Z)
  (keywords : list string) : Result Z :=
  match keywords with
  | [] => Ok score
  | keyword :: rest =>
      bindR (scoreKeyword lowerTitle lowerContent score keyword)
            (fun score' => scoreKeywords lowerTitle lowerContent score' rest)
  end.

(** The callback of [documents.map(doc => ...)]. *)
Definition scoreDocument (query : string) (expandedKeywords : list string)
  (doc : KnowledgeDocument) : Result SearchResult :=
  let lowerContent := toLowerCase (content doc) in
  let lowerTitle := toLowerCase (title doc) in
  bindR (scoreKeywords lowerTitle lowerContent 0 expandedKeywords)
        (fun score =>
           Ok {| documentId := id doc;
                 resultTitle := title doc;
                 excerpt := extractRelevantExcerpt (content doc) query 300;
                 relevanceScore := inject_Z score |}).

Fixpoint mapR {A B} (f : A -> Result B) (l : list A) : Result (list B) :=
  match l with
  | [] => Ok []
  | x :: l' =>
      bindR (f x) (fun y => bindR (mapR f l') (fun ys => Ok (y :: ys)))
  end.

(** [(a, b) => b.relevanceScore - a.relevanceScore] *)
Definition byScoreDescending (a b : SearchResult) : Q :=
  relevanceScore b - relevanceScore a.

Definition basicKeywordSearch (query : string)
  (documents : list KnowledgeDocument) (maxResults : Z)
  : Result (list SearchResult) :=
  let lowerQuery := toLowerCase query in
  let keywords :=
    List.filter (fun k => (len k >? 2)%Z) (words lowerQuery) in
  let expandedKeywords := expandKeywords keywords in
  bindR (mapR (scoreDocument query expandedKeywords) documents)
        (fun results =>
           Ok (slice0
                 (sortBy byScoreDescending
                    (List.filter (fun result => Qgtb (relevanceScore result) 0)
                       results))
                 maxResults)).

End LexicalSearch.

(** *** types.ts: messages, and the completion service's data *)

Inductive Role : Type := system | user | assistant | tool.

(** A tool call of a completion: [id], [function.name] and
    [function.arguments] (a serialized JSON text). *)
Record ToolCall := {
  callId : string;
  functionName : string;
  functionArguments : string
}.

(** [Message], with the [tool_calls] member that [chatWithBot] adds to the
    second copy of the assistant's reply. *)
Record Message := {
  role : Role;
  messageContent : string;
  tool_call_id : option string;
  name : option string;
  tool_calls : option (list ToolCall)
}.

Definition plainMessage (r : Role) (c : string) : Message :=
  {| role := r; messageContent := c; tool_call_id := None; name := None;
     tool_calls := None |}.

Record ChatResponse := {
  response : string;
  updatedHistory : list Message
}.

(** [ChatCompletionMessageParam]: what is sent to the completion service. *)
Record OpenAIMessage := {
  paramRole : Role;
  paramContent : string;
  paramToolCallId : option string;
  paramToolCalls : option (list ToolCall)
}.

(** The request of [chat.completions.create]: the messages, the names of
    the tools offered and the tool choice. *)
Record ChatRequest := {
  requestMessages : list OpenAIMessage;
  requestTools : option (list string);
  requestToolChoice : option string
}.

(** [choices[i].message] of a completion. *)
Record ChatCompletionMessage := {
  completionContent : option string;
  completionToolCalls : option (list ToolCall)
}.

Record ChatCompletion := { choices : list ChatCompletionMessage }.

Record VectorStoreEntry := {
  entryDocumentId : string;
  embedding : list Q
}.

Record PersistedData := {
  persistedKnowledgeBase : list KnowledgeDocument;
  persistedVectorStore : list VectorStoreEntry;
  timestamp : string
}.

(** *** The world outside the engine *)

(** The calls made to external collaborators, oldest first. *)
Inductive Event : Type :=
| EvEmbedding (input : string)
| EvChat (request : ChatRequest)
| EvCalendar (functionName : string) (args : json)
| EvIllTypedCall (functionName : string) (args : json)
| EvReaddir (directoryPath : string)
| EvWriteFile (path text : string).

(** The runtime and the external services.  Every service sees the log of
    the calls made so far, so that its answers may depend on the past. *)
Record Runtime := {
  JSON_stringify : json -> string;
  JSON_parse : string -> Result json;
  Math_sqrt : Q -> Q;
  path_join : string -> string -> string;
  Date_toISOString : list Event -> string;
  (** [(subject.match(new RegExp(pattern, 'g')) || []).length] for the
      patterns outside the modelled fragment *)
  otherPatterns : string -> string -> Result Z;
  (** [process.env.KNOWLEDGE_BASE_PATH || './knowledge'] *)
  knowledgeBasePath : string;
  systemPrompt : string;
  (** [embeddings.create(...)], giving [data[0].embedding] *)
  embeddings_create : list Event -> string -> Result (list Q);
  chat_completions_create : list Event -> ChatRequest -> Result ChatCompletion;
  (** the [try] block of a handler that wraps the calendar service: the
      value it returns, or the error thrown inside it *)
  calendarHandler : list Event -> string -> json -> Result json;
  (** a handler called with arguments that do not have its declared type *)
  illTypedCall : list Event -> string -> json -> Result json;
  (** a snapshot, a source file or an embedding whose JSON does not have
      the declared type *)
  illTypedSnapshot : json -> list KnowledgeDocument * list VectorStoreEntry;
  illTypedSource : string -> string -> json -> KnowledgeDocument;
  illTypedEmbedding : json -> list Q;
  fs_readdir : list Event -> string -> Result (list string);
  (** the error of a failing [fs.writeFile], if it fails *)
  fs_writeFile_error : list Event -> string -> option JSError
}.

(** The module-level variables [knowledgeBase] and [vectorStore], the files
    on disk, and the log. *)
Record State := {
  knowledgeBase : list KnowledgeDocument;
  vectorStore : list VectorStoreEntry;
  files : gmap string string;
  log : list Event
}.

(** Computations: state passing with exceptions.  The state reached when an
    error is thrown is kept. *)
Definition M (A : Type) : Type := State -> Result A * State.

Definition ret {A} (a : A) : M A := fun st => (Ok a, st).

Definition throw {A} (e : JSError) : M A := fun st => (Throw e, st).

Definition bind {A B} (m : M A) (k : A -> M B) : M B :=
  fun st =>
    match m st with
    | (Ok a, st') => k a st'
    | (Throw e, st') => (Throw e, st')
    end.

(** [try { m } catch (error) { handler error }] *)
Definition tryCatch {A} (m : M A) (handler : JSError -> M A) : M A :=
  fun st =>
    match m st with
    | (Ok a, st') => (Ok a, st')
    | (Throw e, st') => handler e st'
    end.

Definition liftR {A} (r : Result A) : M A := fun st => (r, st).

Definition getState : M State := fun st => (Ok st, st).

Definition record (ev : Event) : M unit :=
  fun st =>
    (Ok tt, {| knowledgeBase := knowledgeBase st;
               vectorStore := vectorStore st;
               files := files st;
               log := log st ++ [ev] |}).

Declare Scope m_scope.
Delimit Scope m_scope with M.
Notation "x <- m ;; k" := (bind m (fun x => k))
  (at level 100, m at next level, right associativity) : m_scope.
Notation "m ;;; k" := (bind m (fun _ => k))
  (at level 100, right associativity) : m_scope.

(** A call to a service: the answer is the oracle's, for the log so far. *)
Definition call {A} (ev : Event) (oracle : list Event -> Result A) : M A :=
  fun st => (oracle (log st), snd (record ev st)).

(** *** utils.ts: [calculateCosineSimilarity] *)

Section Engine.

Variable rt : Runtime.

(** The body of the [for] loop, on ([dotProduct], [normA], [normB]). *)
Definition accumulate (acc : Q * Q * Q) (ab : Q * Q) : Q * Q * Q :=
  let '(dotProduct, normA, normB) := acc in
  let '(a, b) := ab in
  (dotProduct + a * b, normA + a * a, normB + b * b)%Q.

Definition calculateCosineSimilarity (vecA vecB : list Q) : Q :=
  if negb (Nat.eqb (length vecA) (length vecB)) then 0%Q
  else
    let '(dotProduct, normA, normB) :=
      fold_left accumulate (combine vecA vecB) (0, 0, 0)%Q in
    let normA := Math_sqrt rt normA in
    let normB := Math_sqrt rt normB in
    if Qeq_bool normA 0 || Qeq_bool normB 0 then 0%Q
    else (dotProduct / (normA * normB))%Q.

(** *** index.ts: [semanticSearch] *)

(** The callback of [vectorStore.map(entry => ...)]: [None] is [null]. *)
Definition scoreEntry (kb : list KnowledgeDocument) (query : string)
  (queryEmbedding : list Q) (entry : VectorStoreEntry) : option SearchResult :=
  match find (fun d => String.eqb (id d) (entryDocumentId entry)) kb with
  | None => None
  | Some doc =>
      let similarity :=
        calculateCosineSimilarity queryEmbedding (embedding entry) in
      Some {| documentId := entryDocumentId entry;
              resultTitle := title doc;
              excerpt := extractRelevantExcerpt (content doc) query 300;
              relevanceScore := (similarity * 100)%Q |}
  end.

(** [a.flatMap]-like removal of the [null]s: [.filter(r => r !== null)]. *)
Fixpoint nonNull {A} (l : list (option A)) : list A :=
  match l with
  | [] => []
  | Some x :: l' => x :: nonNull l'
  | None :: l' => nonNull l'
  end.

Definition rankEntries (kb : list KnowledgeDocument)
  (vs : list VectorStoreEntry) (query : string) (queryEmbedding : list Q)
  (maxResults : Z) : list SearchResult :=
  let scoredResults := nonNull (map (scoreEntry kb query queryEmbedding) vs) in
  slice0
    (sortBy byScoreDescending
       (List.filter (fun result => Qgtb (relevanceScore result) 20) scoredResults))
    maxResults.

Definition semanticSearch (query : string) (maxResults : Z)
  : M (list SearchResult) :=
  (queryEmbedding <-
     call (EvEmbedding query) (fun l => embeddings_create rt l query) ;;
   st <- getState ;;
   ret (rankEntries (knowledgeBase st) (vectorStore st) query queryEmbedding
          maxResults))%M.

End Engine.

(** *** JavaScript values read from JSON *)

Definition dquote : string := String (ascii_of_nat 34) EmptyString.

(** Truthiness of a JSON value. *)
Definition truthyJson (j : json) : bool :=
  match j with
  | JNull => false
  | JBool b => b
  | JNumber q => negb (Qeq_bool q 0)
  | JString s => truthy s
  | JArray _ => true
  | JObject _ => true
  end.

(** [obj[key]]: [None] is [undefined]. *)
Definition member (key : string) (members : list (string * json))
  : option json :=
  option_map snd (find (fun kv => String.eqb (fst kv) key) members).

(** [doc.metadata?.key] *)
Definition metadataMember (doc : KnowledgeDocument) (key : string)
  : option json :=
  match metadata doc with
  | Some members => member key members
  | None => None
  end.

Definition truthyMember (o : option json) : bool :=
  match o with
  | Some j => truthyJson j
  | None => false
  end.

(** [ToIntegerOrInfinity]: truncation towards zero. *)
Definition truncate (q : Q) : Z := Z.quot (Qnum q) (Zpos (Qden q)).

(** The JSON form of the values that the handlers return. *)
Definition searchResultJson (r : SearchResult) : json :=
  JObject [ ("documentId", JString (documentId r));
            ("title", JString (resultTitle r));
            ("excerpt", JString (excerpt r));
            ("relevanceScore", JNumber (relevanceScore r)) ].

Definition documentJson (doc : KnowledgeDocument) : json :=
  JObject ([ ("id", JString (id doc));
             ("title", JString (title doc));
             ("content", JString (content doc)) ]
           ++ match metadata doc with
              | Some members => [("metadata", JObject members)]
              | None => []
              end).

Section Orchestrator.

Variable rt : Runtime.

(** *** index.ts: the knowledge-base handlers and [callFunction] *)

Definition searchKB (query : string) (maxResults : Z) : M (list SearchResult) :=
  tryCatch (semanticSearch rt query maxResults)
    (fun _ =>
       (st <- getState ;;
        liftR (basicKeywordSearch (otherPatterns rt) query (knowledgeBase st)
                 maxResults))%M).

Definition documentNotFound (documentId : string) : string :=
  "Document with ID " +:+ documentId +:+ " not found".

Definition getDocument (documentId : string) : M json :=
  (st <- getState ;;
   match find (fun doc => String.eqb (id doc) documentId) (knowledgeBase st) with
   | None => ret (JObject [("error", JString (documentNotFound documentId))])
   | Some document => ret (JObject [("document", documentJson document)])
   end)%M.

Definition notImplemented (functionName : string) : JSError :=
  {| errName := "Error";
     errMessage := "Function " +:+ functionName +:+ " not implemented" |}.

Definition illTyped (functionName : string) (args : json) : M json :=
  call (EvIllTypedCall functionName args)
       (fun l => illTypedCall rt l functionName args).

(** [const { query, maxResults = 3 } = args] followed by the search, for
    arguments of the declared type [{ query: string, maxResults?: number }]. *)
Definition searchKnowledgeBase (args : json) : M json :=
  match args with
  | JObject members =>
      match member "query" members, member "maxResults" members with
      | Some (JString query), None =>
          (results <- searchKB query 3 ;;
           ret (JObject [("results", JArray (map searchResultJson results))]))%M
      | Some (JString query), Some (JNumber maxResults) =>
          (results <- searchKB query (truncate maxResults) ;;
           ret (JObject [("results", JArray (map searchResultJson results))]))%M
      | _, _ => illTyped "searchKnowledgeBase" args
      end
  | _ => illTyped "searchKnowledgeBase" args
  end.

Definition getDocumentContent (args : json) : M json :=
  match args with
  | JObject members =>
      match member "documentId" members with
      | Some (JString documentId) => getDocument documentId
      | _ => illTyped "getDocumentContent" args
      end
  | _ => illTyped "getDocumentContent" args
  end.

Definition isCalendarFunction (functionName : string) : bool :=
  existsb (String.eqb functionName)
    ["checkAvailability"; "createAppointment"; "cancelAppointment";
     "listUpcomingAppointments"].

(** [throw new Error("Failed to ...")] in the [catch] of a calendar handler. *)
Definition failedTo (functionName : string) : JSError :=
  {| errName := "Error";
     errMessage :=
       if String.eqb functionName "checkAvailability"
       then "Failed to check availability"
       else if String.eqb functionName "createAppointment"
       then "Failed to create appointment"
       else if String.eqb functionName "cancelAppointment"
       then "Failed to cancel appointment"
       else "Failed to list appointments" |}.

(** Destructuring [args] when it is [null], before the [try] block. *)
Definition cannotDestructure : JSError :=
  {| errName := "TypeError";
     errMessage := "Cannot destructure property of 'args' as it is null." |}.

(** [checkAvailability], [createAppointment], [cancelAppointment] and
    [listUpcomingAppointments]: the arguments are destructured, then the
    calendar service is used inside a [try] block whose [catch] throws the
    handler's own error. *)
Definition calendarFunction (functionName : string) (args : json) : M json :=
  match args with
  | JNull => throw cannotDestructure
  | _ =>
      tryCatch
        (call (EvCalendar functionName args)
              (fun l => calendarHandler rt l functionName args))
        (fun _ => throw (failedTo functionName))
  end.

(** The dispatcher. *)
Definition callFunction (functionName : string) (args : json) : M json :=
  if String.eqb functionName "searchKnowledgeBase" then searchKnowledgeBase args
  else if String.eqb functionName "getDocumentContent" then getDocumentContent args
  else if isCalendarFunction functionName then calendarFunction functionName args
  else throw (notImplemented functionName).

(** *** types.ts: [convertToOpenAIMessage] *)

Definition toolMessagesMustHaveId : JSError :=
  {| errName := "Error"; errMessage := "Tool messages must have tool_call_id" |}.

Definition simpleParam (r : Role) (c : string) : OpenAIMessage :=
  {| paramRole := r; paramContent := c; paramToolCallId := None;
     paramToolCalls := None |}.

Definition convertToOpenAIMessage (message : Message) : Result OpenAIMessage :=
  match role message with
  | system => Ok (simpleParam system (messageContent message))
  | user => Ok (simpleParam user (messageContent message))
  | assistant => Ok (simpleParam assistant (messageContent message))
  | tool =>
      match tool_call_id message with
      | Some i =>
          if truthy i then
            Ok {| paramRole := tool;
                  paramContent := messageContent message;
                  paramToolCallId := Some i;
                  paramToolCalls := None |}
          else Throw toolMessagesMustHaveId
      | None => Throw toolMessagesMustHaveId
      end
  end.

(** *** index.ts: [chatWithBot] *)

(** The names of the tools declared in [functions]. *)
Definition functions : list string :=
  [ "searchKnowledgeBase"; "getDocumentContent"; "checkAvailability";
    "createAppointment"; "cancelAppointment"; "listUpcomingAppointments" ].

(** [userMessage.includes("?") || /what|how|...|schedule/i.test(userMessage)] *)
Definition looksInformational (userMessage : string) : bool :=
  includes userMessage "?"
  || existsb (includes (toLowerCase userMessage))
       [ "what"; "how"; "when"; "where"; "why"; "can"; "do"; "is"; "are";
         "policy"; "policies"; "appointment"; "schedule" ].

(** [d.id === doc.metadata?.parentId] *)
Definition idIs (parentId : json) (d : KnowledgeDocument) : bool :=
  match parentId with
  | JString s => String.eqb (id d) s
  | _ => false
  end.

Definition lf : string := String LF EmptyString.

Definition fromDocument (heading body : string) : string :=
  "From " +:+ dquote +:+ heading +:+ dquote +:+ ":" +:+ lf +:+ body +:+ nn.

(** The text added to [relevantInfo] for one search result. *)
Definition describeResult (kb : list KnowledgeDocument) (result : SearchResult)
  : string :=
  match find (fun d => String.eqb (id d) (documentId result)) kb with
  | None => ""
  | Some doc =>
      match metadataMember doc "parentId" with
      | Some parentId =>
          if truthyJson parentId then
            match find (idIs parentId) kb with
            | Some parentDoc => fromDocument (title parentDoc) (content doc)
            | None => fromDocument (title doc) (content doc)
            end
          else fromDocument (title doc) (content doc)
      | None => fromDocument (title doc) (content doc)
      end
  end.

Definition relevantInfoOf (kb : list KnowledgeDocument)
  (searchResults : list SearchResult) : string :=
  match searchResults with
  | [] => ""
  | _ =>
      fold_left (fun info result => info +:+ describeResult kb result)
        searchResults
        ("Based on our knowledge base, here is some relevant information:"
         +:+ nn)
  end.

(** The proactive retrieval, with its own [try]/[catch]. *)
Definition retrieveRelevantInfo (userMessage : string) : M string :=
  if looksInformational userMessage then
    tryCatch
      (searchResults <- semanticSearch rt userMessage 3 ;;
       st <- getState ;;
       ret (relevantInfoOf (knowledgeBase st) searchResults))%M
      (fun _ => ret "")
  else ret "".

Definition enhancedSystemPrompt (relevantInfo : string) : string :=
  if truthy relevantInfo
  then systemPrompt rt +:+ nn +:+ "RELEVANT KNOWLEDGE:" +:+ lf +:+ relevantInfo
  else systemPrompt rt.

(** [l.slice(-n)] *)
Definition lastN {A} (n : nat) (l : list A) : list A :=
  skipn (length l - n) l.

(** [content || ""] *)
Definition orEmpty (c : option string) : string :=
  match c with
  | Some s => s
  | None => ""
  end.

Definition noChoice : JSError :=
  {| errName := "TypeError";
     errMessage := "Cannot read properties of undefined (reading 'message')" |}.

(** [response.choices[0].message] *)
Definition firstMessage (completion : ChatCompletion)
  : Result ChatCompletionMessage :=
  match choices completion with
  | m :: _ => Ok m
  | [] => Throw noChoice
  end.

(** [chatOpenAI.chat.completions.create(...)] on [messages.map(convertToOpenAIMessage)] *)
Definition complete (messages : list Message) (tools : option (list string))
  (toolChoice : option string) : M ChatCompletionMessage :=
  (openAIMessages <- liftR (mapR convertToOpenAIMessage messages) ;;
   let request := {| requestMessages := openAIMessages;
                     requestTools := tools;
                     requestToolChoice := toolChoice |} in
   completion <- call (EvChat request)
                   (fun l => chat_completions_create rt l request) ;;
   liftR (firstMessage completion))%M.

Definition toolMessage (toolCallId text : string) : Message :=
  {| role := tool; messageContent := text; tool_call_id := Some toolCallId;
     name := None; tool_calls := None |}.

Definition errorPayload (error : JSError) : json :=
  JObject [("error", JString (errMessage error))].

(** The body of [for (const toolCall of toolCalls)]. *)
Definition runToolCall (messages : list Message) (toolCall : ToolCall)
  : M (list Message) :=
  (functionArgs <- liftR (JSON_parse rt (functionArguments toolCall)) ;;
   tryCatch
     (functionResponse <- callFunction (functionName toolCall) functionArgs ;;
      ret (messages
           ++ [toolMessage (callId toolCall)
                 (JSON_stringify rt functionResponse)]))
     (fun error =>
        ret (messages
             ++ [toolMessage (callId toolCall)
                   (JSON_stringify rt (errorPayload error))])))%M.

Fixpoint runToolCalls (messages : list Message) (toolCalls : list ToolCall)
  : M (list Message) :=
  match toolCalls with
  | [] => ret messages
  | toolCall :: rest =>
      (messages' <- runToolCall messages toolCall ;;
       runToolCalls messages' rest)%M
  end.

Definition answered (conversationHistory : list Message)
  (userMessage answer : string) : ChatResponse :=
  {| response := answer;
     updatedHistory :=
       conversationHistory
       ++ [plainMessage user userMessage; plainMessage assistant answer] |}.

(** The [try] block of [chatWithBot]. *)
Definition turn (userMessage : string) (conversationHistory : list Message)
  : M ChatResponse :=
  (let recentMessages := lastN 10 conversationHistory in
   relevantInfo <- retrieveRelevantInfo userMessage ;;
   let messages :=
     [plainMessage system (enhancedSystemPrompt relevantInfo)]
     ++ recentMessages ++ [plainMessage user userMessage] in
   responseMessage <- complete messages (Some functions) (Some "auto") ;;
   let messages :=
     messages
     ++ [plainMessage assistant (orEmpty (completionContent responseMessage))] in
   match completionToolCalls responseMessage with
   | Some toolCalls =>
       let messages :=
         messages
         ++ [ {| role := assistant;
                 messageContent := orEmpty (completionContent responseMessage);
                 tool_call_id := None;
                 name := None;
                 tool_calls := Some toolCalls |} ] in
       messages <- runToolCalls messages toolCalls ;;
       secondResponseMessage <- complete messages None None ;;
       ret (answered conversationHistory userMessage
              (orEmpty (completionContent secondResponseMessage)))
   | None =>
       ret (answered conversationHistory userMessage
              (orEmpty (completionContent responseMessage)))
   end)%M.

Definition apology : string :=
  "Sorry, I encountered an error processing your request.".

Definition chatWithBot (userMessage : string)
  (conversationHistory : list Message) : M ChatResponse :=
  tryCatch (turn userMessage conversationHistory)
    (fun _ =>
       ret {| response := apology; updatedHistory := conversationHistory |}).

End Orchestrator.

(** *** The persisted snapshot as JSON *)

Definition entryJson (entry : VectorStoreEntry) : json :=
  JObject [ ("documentId", JString (entryDocumentId entry));
            ("embedding", JArray (map JNumber (embedding entry))) ].

Definition persistedJson (data : PersistedData) : json :=
  JObject [ ("knowledgeBase", JArray (map documentJson (persistedKnowledgeBase data)));
            ("vectorStore", JArray (map entryJson (persistedVectorStore data)));
            ("timestamp", JString (timestamp data)) ].

(** Reading a parsed JSON value at the declared types. *)
Fixpoint mapO {A B} (f : A -> option B) (l : list A) : option (list B) :=
  match l with
  | [] => Some []
  | x :: l' =>
      match f x, mapO f l' with
      | Some y, Some ys => Some (y :: ys)
      | _, _ => None
      end
  end.

Definition numberOf (j : json) : option Q :=
  match j with
  | JNumber q => Some q
  | _ => None
  end.

Definition entryOf (j : json) : option VectorStoreEntry :=
  match j with
  | JObject [(k1, JString d); (k2, JArray v)] =>
      if String.eqb k1 "documentId" && String.eqb k2 "embedding"
      then option_map (Build_VectorStoreEntry d) (mapO numberOf v)
      else None
  | _ => None
  end.

Definition documentOf (j : json) : option KnowledgeDocument :=
  match j with
  | JObject [(k1, JString i); (k2, JString t); (k3, JString c)] =>
      if String.eqb k1 "id" && String.eqb k2 "title" && String.eqb k3 "content"
      then Some {| id := i; title := t; content := c; metadata := None |}
      else None
  | JObject [(k1, JString i); (k2, JString t); (k3, JString c);
             (k4, JObject m)] =>
      if String.eqb k1 "id" && String.eqb k2 "title" && String.eqb k3 "content"
         && String.eqb k4 "metadata"
      then Some {| id := i; title := t; content := c; metadata := Some m |}
      else None
  | _ => None
  end.

Definition documentsOf (j : json) : option (list KnowledgeDocument) :=
  match j with
  | JArray items => mapO documentOf items
  | _ => None
  end.

Definition entriesOf (j : json) : option (list VectorStoreEntry) :=
  match j with
  | JArray items => mapO entryOf items
  | _ => None
  end.

(** [obj[key] = value] on the members of an object: an existing member keeps
    its place. *)
Fixpoint setMember (key : string) (value : json) (members : list (string * json))
  : list (string * json) :=
  match members with
  | [] => [(key, value)]
  | (k, v) :: rest =>
      if String.eqb k key then (k, value) :: rest
      else (k, v) :: setMember key value rest
  end.

(** [`${n}`] for a natural number. *)
Definition natToString (n : nat) : string :=
  NilZero.string_of_uint (Nat.to_uint n).

(** [s.endsWith(suffix)] *)
Definition endsWith (s suffix : string) : bool :=
  String.eqb
    (String.substring (String.length s - String.length suffix)
       (String.length suffix) s)
    suffix
  && Nat.leb (String.length suffix) (String.length s).

Section VectorCache.

Variable rt : Runtime.

(** *** Files *)

Definition enoent (path : string) : JSError :=
  {| errName := "Error";
     errMessage := "ENOENT: no such file or directory, open '" +:+ path +:+ "'" |}.

Definition readFile (path : string) : M string :=
  fun st =>
    match files st !! path with
    | Some text => (Ok text, st)
    | None => (Throw (enoent path), st)
    end.

Definition writeFile (path text : string) : M unit :=
  fun st =>
    match fs_writeFile_error rt (log st) path with
    | Some e => (Throw e, snd (record (EvWriteFile path text) st))
    | None =>
        (Ok tt, {| knowledgeBase := knowledgeBase st;
                   vectorStore := vectorStore st;
                   files := <[path := text]> (files st);
                   log := log st ++ [EvWriteFile path text] |})
    end.

Definition setKnowledgeBase (kb : list KnowledgeDocument) : M unit :=
  fun st =>
    (Ok tt, {| knowledgeBase := kb; vectorStore := vectorStore st;
               files := files st; log := log st |}).

Definition setVectorStore (vs : list VectorStoreEntry) : M unit :=
  fun st =>
    (Ok tt, {| knowledgeBase := knowledgeBase st; vectorStore := vs;
               files := files st; log := log st |}).

(** [new Date().toISOString()] *)
Definition now : M string := fun st => (Ok (Date_toISOString rt (log st)), st).

(** *** utils.ts: [persistKnowledgeBase] *)

Definition persistKnowledgeBase (knowledgeBasePath : string)
  (documents : list KnowledgeDocument) (vectorStore : list VectorStoreEntry)
  : M unit :=
  tryCatch
    (let vectorStorePath := path_join rt knowledgeBasePath "vector-store.json" in
     timestamp <- now ;;
     let persistData :=
       {| persistedKnowledgeBase := documents;
          persistedVectorStore := vectorStore;
          timestamp := timestamp |} in
     writeFile vectorStorePath (JSON_stringify rt (persistedJson persistData)))%M
    (fun _ => ret tt).

(** *** utils.ts: [generateEmbeddingsForDocuments] *)

Definition needsEmbedding (doc : KnowledgeDocument) : bool :=
  negb (truthyMember (metadataMember doc "embedding")).

(** The positions of the documents without embedding. *)
Fixpoint positionsNeeding (documents : list KnowledgeDocument) (i : nat)
  : list nat :=
  match documents with
  | [] => []
  | doc :: rest =>
      (if needsEmbedding doc then [i] else []) ++ positionsNeeding rest (S i)
  end.

(** [documents.findIndex(d => d.id === doc.id)] *)
Fixpoint findIndex (documentId : string) (documents : list KnowledgeDocument)
  : option nat :=
  match documents with
  | [] => None
  | d :: rest =>
      if String.eqb (id d) documentId then Some 0%nat
      else option_map S (findIndex documentId rest)
  end.

Definition withMetadata (doc : KnowledgeDocument)
  (members : list (string * json)) : KnowledgeDocument :=
  {| id := id doc; title := title doc; content := content doc;
     metadata := Some members |}.

(** The request for one document.  A failure is logged and the document is
    left as it is.  On success the embedding is stored in the document's
    metadata, and that metadata becomes the metadata of the first document
    with the same [id]. *)
Definition embedDocument (documents : list KnowledgeDocument) (i : nat)
  : M (list KnowledgeDocument) :=
  match documents !! i with
  | None => ret documents
  | Some doc =>
      tryCatch
        (let input := title doc +:+ nn +:+ substring0 8000 (content doc) in
         v <- call (EvEmbedding input) (fun l => embeddings_create rt l input) ;;
         let members :=
           setMember "embedding" (JArray (map JNumber v))
             (match metadata doc with Some m => m | None => [] end) in
         let documents := <[i := withMetadata doc members]> documents in
         match findIndex (id doc) documents with
         | Some docIndex =>
             ret (alter (fun d => withMetadata d members) docIndex documents)
         | None => ret documents
         end)%M
        (fun _ => ret documents)
  end.

Fixpoint embedDocuments (documents : list KnowledgeDocument)
  (positions : list nat) : M (list KnowledgeDocument) :=
  match positions with
  | [] => ret documents
  | i :: rest =>
      (documents' <- embedDocument documents i ;;
       embedDocuments documents' rest)%M
  end.

(** The documents are requested in order; the batches of 20 and the pause
    between them only pace the requests. *)
Definition generateEmbeddingsForDocuments (documents : list KnowledgeDocument)
  : M (list KnowledgeDocument) :=
  embedDocuments documents (positionsNeeding documents 0).

(** *** index.ts: [loadKnowledgeBase] *)

Definition vectorStorePath : string :=
  path_join rt (knowledgeBasePath rt) "vector-store.json".

Definition nullProperty : JSError :=
  {| errName := "TypeError";
     errMessage := "Cannot read properties of null" |}.

(** The first [try] block: restoring the persisted snapshot.  The result is
    [hasPersistedVectors]. *)
Definition restoreSnapshot : M bool :=
  tryCatch
    (vectorStoreContent <- readFile vectorStorePath ;;
     persistedData <- liftR (JSON_parse rt vectorStoreContent) ;;
     match persistedData with
     | JNull => throw nullProperty
     | JObject members =>
         if truthyMember (member "vectorStore" members)
            && truthyMember (member "knowledgeBase" members)
         then
           match
             match member "vectorStore" members with
             | Some j => entriesOf j | None => None end,
             match member "knowledgeBase" members with
             | Some j => documentsOf j | None => None end
           with
           | Some vs, Some kb =>
               setVectorStore vs ;;; setKnowledgeBase kb ;;; ret true
           | _, _ =>
               setVectorStore (snd (illTypedSnapshot rt persistedData)) ;;;
               setKnowledgeBase (fst (illTypedSnapshot rt persistedData)) ;;;
               ret true
           end
         else ret false
     | _ => ret false
     end)%M
    (fun _ => ret false).

Definition isContentFile (file : string) : bool :=
  (endsWith file ".md" || endsWith file ".txt" || endsWith file ".json")
  && negb (String.eqb file "vector-store.json").

(** [file.replace(/\.(md|txt|json)$/, '')] *)
Definition withoutExtension (file : string) : string :=
  let cut suffix :=
    String.substring 0 (String.length file - String.length suffix) file in
  if endsWith file ".md" then cut ".md"
  else if endsWith file ".txt" then cut ".txt"
  else if endsWith file ".json" then cut ".json"
  else file.

(** [jsonContent.key || fallback] at type string. *)
Definition stringOr (o : option json) (fallback : string) : option string :=
  match o with
  | None => Some fallback
  | Some j =>
      if truthyJson j then
        match j with JString s => Some s | _ => None end
      else Some fallback
  end.

(** [jsonContent.metadata || {}] *)
Definition objectOrEmpty (o : option json) : option (list (string * json)) :=
  match o with
  | None => Some []
  | Some j =>
      if truthyJson j then
        match j with JObject m => Some m | _ => None end
      else Some []
  end.

(** The document made from a source file. *)
Definition sourceDocument (file text : string) : KnowledgeDocument :=
  let document :=
    {| id := file; title := withoutExtension file; content := text;
       metadata := Some [] |} in
  if endsWith file ".json" then
    match JSON_parse rt text with
    | Throw _ => document
    | Ok JNull => document
    | Ok (JObject members) =>
        match stringOr (member "content" members) text,
              objectOrEmpty (member "metadata" members),
              stringOr (member "title" members) (title document) with
        | Some c, Some m, Some t =>
            {| id := file; title := t; content := c; metadata := Some m |}
        | _, _, _ => illTypedSource rt file text (JObject members)
        end
    | Ok _ => document
    end
  else document.

(** The chunk documents of an oversized document. *)
Fixpoint chunkDocuments (document : KnowledgeDocument) (chunks : list string)
  (index : nat) : list KnowledgeDocument :=
  match chunks with
  | [] => []
  | chunk :: rest =>
      {| id := id document +:+ "-chunk-" +:+ natToString index;
         title := title document +:+ " - Part " +:+ natToString (index + 1);
         content := chunk;
         metadata :=
           Some (setMember "chunkIndex" (JNumber (inject_Z (Z.of_nat index)))
                   (setMember "parentId" (JString (id document))
                      (match metadata document with
                       | Some m => m
                       | None => []
                       end))) |}
      :: chunkDocuments document rest (S index)
  end.

(** The body of [for (const file of contentFiles)]. *)
Definition loadFile (directoryPath file : string) : M unit :=
  (text <- readFile (path_join rt directoryPath file) ;;
   let document := sourceDocument file text in
   st <- getState ;;
   if (len (content document) >? 10000)%Z
   then setKnowledgeBase
          (knowledgeBase st
           ++ chunkDocuments document (chunkContent_default (content document)) 0)
   else setKnowledgeBase (knowledgeBase st ++ [document]))%M.

Fixpoint loadFiles (directoryPath : string) (contentFiles : list string)
  : M unit :=
  match contentFiles with
  | [] => ret tt
  | file :: rest => (loadFile directoryPath file ;;; loadFiles directoryPath rest)%M
  end.

(** [embedding: doc.metadata?.embedding] at type [number[]]. *)
Definition embeddingOf (doc : KnowledgeDocument) : list Q :=
  match metadataMember doc "embedding" with
  | Some (JArray items) =>
      match mapO numberOf items with
      | Some v => v
      | None => illTypedEmbedding rt (JArray items)
      end
  | Some j => illTypedEmbedding rt j
  | None => []
  end.

Definition vectorStoreOf (kb : list KnowledgeDocument) : list VectorStoreEntry :=
  map (fun doc => {| entryDocumentId := id doc; embedding := embeddingOf doc |})
    (List.filter (fun doc => truthyMember (metadataMember doc "embedding")) kb).

(** The branch [if (!hasPersistedVectors)]. *)
Definition rebuildFromFiles (directoryPath : string) : M unit :=
  (setKnowledgeBase [] ;;;
   setVectorStore [] ;;;
   files <- call (EvReaddir directoryPath)
              (fun l => fs_readdir rt l directoryPath) ;;
   let contentFiles := List.filter isContentFile files in
   loadFiles directoryPath contentFiles ;;;
   st <- getState ;;
   kb <- generateEmbeddingsForDocuments (knowledgeBase st) ;;
   setKnowledgeBase kb ;;;
   setVectorStore (vectorStoreOf kb) ;;;
   persistKnowledgeBase (knowledgeBasePath rt) kb (vectorStoreOf kb))%M.

Definition loadKnowledgeBase (directoryPath : string) : M unit :=
  tryCatch
    (hasPersistedVectors <- restoreSnapshot ;;
     if hasPersistedVectors then ret tt else rebuildFromFiles directoryPath)%M
    (fun _ => ret tt).

End VectorCache.

(** *** index.ts: the calendar handlers, call by call

    [calendarFunction] takes the [try] block of a calendar handler as one
    service.  Here the four blocks are written out over the calls that they
    make to the calendar client ([calendar.freebusy.query],
    [calendar.events.insert], [calendar.events.delete],
    [calendar.events.list]).  The arguments of a handler are the JSON value
    parsed from the tool call; the answers of the client have the types of
    the client's declarations. *)

(** The [requestBody] of [freebusy.query]; [freeBusyItem] is the [id] of the
    one entry of [items]. *)
Record FreeBusyRequest := {
  timeMin : string;
  timeMax : string;
  freeBusyItem : json
}.

(** [calendars[key]] of the answer: its [busy] periods, if the member is
    there. *)
Record FreeBusyCalendar := { busy : option (list json) }.

(** [response.data] of [freebusy.query]. *)
Record FreeBusyResponse := {
  calendars : option (list (string * FreeBusyCalendar))
}.

(** [start] and [end] of the event to insert. *)
Record EventTime := { dateTime : option json; timeZone : string }.

(** The [requestBody] of [events.insert]; an attendee is given by the value
    of its [email]. *)
Record EventBody := {
  eventSummary : option json;
  eventDescription : option json;
  eventStart : EventTime;
  eventEnd : EventTime;
  eventLocation : option json;
  eventAttendees : list json;
  sendUpdates : string
}.

(** [response.data] of [events.insert]. *)
Record InsertedEvent := {
  insertedId : option string;
  insertedHtmlLink : option string
}.

(** The request of [events.list]. *)
Record ListRequest := {
  listCalendarId : json;
  listTimeMin : string;
  listMaxResults : json;
  singleEvents : bool;
  orderBy : string
}.

(** [start] or [end] of a listed event. *)
Record EventDate := { onDateTime : option string; onDate : option string }.

(** An item of [response.data.items]; an attendee is given by its [email]. *)
Record ListedEvent := {
  listedId : option string;
  listedSummary : option string;
  listedDescription : option string;
  listedStart : option EventDate;
  listedEnd : option EventDate;
  listedLocation : option string;
  listedAttendees : option (list (option string))
}.

(** [response.data] of [events.list]. *)
Record EventList := { items : option (list ListedEvent) }.

(** types.ts: the results of the handlers. *)
Record AvailabilityResult := {
  isAvailable : bool;
  busySlots : list json;
  availabilityStart : string;
  availabilityEnd : string
}.

Record AppointmentResult := {
  success : bool;
  appointmentMessage : option string;
  appointmentEventId : option string;
  htmlLink : option string;
  appointmentSummary : option json;
  appointmentStart : option json;
  appointmentEnd : option json;
  conflictingEvents : option (list json)
}.

Record CancelAppointmentResult := {
  cancelSuccess : bool;
  cancelMessage : string;
  cancelledEventId : option json
}.

Record AppointmentEvent := {
  appointmentId : string;
  summary : string;
  description : option string;
  startDateTime : string;
  endDateTime : string;
  location : option string;
  attendees : list string
}.

Record ListAppointmentsResult := {
  events : list AppointmentEvent;
  count : Z
}.

(** The calls made to the calendar client, oldest first. *)
Inductive CalendarCall : Type :=
| FreeBusyQuery (request : FreeBusyRequest)
| EventsInsert (calendarId : json) (event : EventBody)
| EventsDelete (calendarId : json) (eventId : option json)
| EventsList (request : ListRequest).

(** Computations over the log of the calendar calls. *)
Definition C (A : Type) : Type :=
  list CalendarCall -> Result A * list CalendarCall.

Definition retC {A} (a : A) : C A := fun l => (Ok a, l).

Definition throwC {A} (e : JSError) : C A := fun l => (Throw e, l).

Definition bindC {A B} (m : C A) (k : A -> C B) : C B :=
  fun l =>
    match m l with
    | (Ok a, l') => k a l'
    | (Throw e, l') => (Throw e, l')
    end.

Definition tryCatchC {A} (m : C A) (handler : JSError -> C A) : C A :=
  fun l =>
    match m l with
    | (Ok a, l') => (Ok a, l')
    | (Throw e, l') => handler e l'
    end.

Definition callC {A} (c : CalendarCall)
  (oracle : list CalendarCall -> Result A) : C A :=
  fun l => (oracle l, l ++ [c]).

(** [args.key] for the parsed arguments: [None] is [undefined]. *)
Definition property (key : string) (args : json) : option json :=
  match args with
  | JObject members => member key members
  | _ => None
  end.

(** A destructuring default: [key = fallback]. *)
Definition orDefault (o : option json) (fallback : json) : json :=
  match o with
  | Some j => j
  | None => fallback
  end.

(** A member of an object literal whose value may be [undefined]. *)
Definition optional (key : string) (o : option json) : list (string * json) :=
  match o with
  | Some j => [(key, j)]
  | None => []
  end.

Definition primary : json := JString "primary".

(** [s.endsWith('Z') ? s : `${s}Z`] *)
Definition withZ (s : string) : string :=
  if endsWith s "Z" then s else s +:+ "Z".

(** The [TypeError] of a method call on a value that has no such method. *)
Definition notAFunction (expression : string) : JSError :=
  {| errName := "TypeError";
     errMessage := expression +:+ " is not a function" |}.

(** [x || ""] and [x || undefined] at type string. *)
Definition orUndefined (o : option string) : option string :=
  match o with
  | Some s => if truthy s then Some s else None
  | None => None
  end.

(** [data.dateTime || data.date || ""] on [event.start || {}]. *)
Definition dateOf (o : option EventDate) : string :=
  match o with
  | Some d =>
      match orUndefined (onDateTime d) with
      | Some s => s
      | None => orEmpty (onDate d)
      end
  | None => ""
  end.

(** The callback of [items.map(event => ...)]. *)
Definition appointmentOf (event : ListedEvent) : AppointmentEvent :=
  {| appointmentId := orEmpty (listedId event);
     summary := orEmpty (listedSummary event);
     description := orUndefined (listedDescription event);
     startDateTime := dateOf (listedStart event);
     endDateTime := dateOf (listedEnd event);
     location := orUndefined (listedLocation event);
     attendees :=
       match listedAttendees event with
       | Some l => map orEmpty l
       | None => []
       end |}.

Section CalendarHandlers.

(** The calendar client and the clock; an answer may depend on the calls
    made before. *)
Variable freebusy_query : list CalendarCall -> FreeBusyRequest -> Result FreeBusyResponse.
Variable events_insert : list CalendarCall -> json -> EventBody -> Result InsertedEvent.
Variable events_delete : list CalendarCall -> json -> option json -> Result unit.
Variable events_list : list CalendarCall -> ListRequest -> Result EventList.
Variable toISOString : list CalendarCall -> string.

(** The property key that a JSON value that is not a string stands for. *)
Variable toPropertyKey : json -> string.

Definition keyOf (calendarId : json) : string :=
  match calendarId with
  | JString s => s
  | _ => toPropertyKey calendarId
  end.

(** [((data.calendars || {})[calendarId] || { busy: [] }).busy || []] *)
Definition busyOf (data : FreeBusyResponse) (calendarId : json) : list json :=
  let calendars := match calendars data with Some c => c | None => [] end in
  match find (fun kv => String.eqb (fst kv) (keyOf calendarId)) calendars with
  | Some (_, calendarData) =>
      match busy calendarData with
      | Some slots => slots
      | None => []
      end
  | None => []
  end.

(** [value.endsWith('Z')] evaluates for a string only. *)
Definition stringArgument (expression : string) (o : option json) : C string :=
  match o with
  | Some (JString s) => retC s
  | _ => throwC (notAFunction expression)
  end.

(** The [try] block of [checkAvailability]. *)
Definition checkAvailabilityBlock (startDateTime endDateTime : option json)
  (calendarId : json) : C AvailabilityResult :=
  bindC (stringArgument "startDateTime.endsWith" startDateTime) (fun startText =>
  bindC (stringArgument "endDateTime.endsWith" endDateTime) (fun endText =>
  let request := {| timeMin := withZ startText;
                    timeMax := withZ endText;
                    freeBusyItem := calendarId |} in
  bindC (callC (FreeBusyQuery request) (fun l => freebusy_query l request))
    (fun data =>
  let slots := busyOf data calendarId in
  retC {| isAvailable := Nat.eqb (length slots) 0;
          busySlots := slots;
          availabilityStart := startText;
          availabilityEnd := endText |}))).

Definition checkAvailability (args : json) : C AvailabilityResult :=
  match args with
  | JNull => throwC cannotDestructure
  | _ =>
      let startDateTime := property "startDateTime" args in
      let endDateTime := property "endDateTime" args in
      let calendarId := orDefault (property "calendarId" args) primary in
      tryCatchC (checkAvailabilityBlock startDateTime endDateTime calendarId)
        (fun _ => throwC (failedTo "checkAvailability"))
  end.

(** [attendees.map(email => ({ email }))] evaluates for an array only. *)
Definition arrayArgument (expression : string) (j : json) : C (list json) :=
  match j with
  | JArray l => retC l
  | _ => throwC (notAFunction expression)
  end.

(** The [try] block of [createAppointment]. *)
Definition createAppointmentBlock
  (summary description startDateTime endDateTime location : option json)
  (attendees calendarId : json) : C AppointmentResult :=
  bindC (checkAvailability
           (JObject (optional "startDateTime" startDateTime
                     ++ optional "endDateTime" endDateTime
                     ++ [("calendarId", calendarId)])))
    (fun availability =>
  if negb (isAvailable availability) then
    retC {| success := false;
            appointmentMessage :=
              Some "The requested time slot is not available";
            appointmentEventId := None;
            htmlLink := None;
            appointmentSummary := None;
            appointmentStart := None;
            appointmentEnd := None;
            conflictingEvents := Some (busySlots availability) |}
  else
    bindC (arrayArgument "attendees.map" attendees) (fun emails =>
    let event :=
      {| eventSummary := summary;
         eventDescription := description;
         eventStart := {| dateTime := startDateTime;
                          timeZone := "America/Los_Angeles" |};
         eventEnd := {| dateTime := endDateTime;
                        timeZone := "America/Los_Angeles" |};
         eventLocation := location;
         eventAttendees := emails;
         sendUpdates := "all" |} in
    bindC (callC (EventsInsert calendarId event)
             (fun l => events_insert l calendarId event))
      (fun data =>
    retC {| success := true;
            appointmentMessage := None;
            appointmentEventId := Some (orEmpty (insertedId data));
            htmlLink := Some (orEmpty (insertedHtmlLink data));
            appointmentSummary := summary;
            appointmentStart := startDateTime;
            appointmentEnd := endDateTime;
            conflictingEvents := None |}))).

Definition createAppointment (args : json) : C AppointmentResult :=
  match args with
  | JNull => throwC cannotDestructure
  | _ =>
      let summary := property "summary" args in
      let description := property "description" args in
      let startDateTime := property "startDateTime" args in
      let endDateTime := property "endDateTime" args in
      let location := property "location" args in
      let attendees := orDefault (property "attendees" args) (JArray []) in
      let calendarId := orDefault (property "calendarId" args) primary in
      tryCatchC
        (createAppointmentBlock summary description startDateTime endDateTime
           location attendees calendarId)
        (fun _ => throwC (failedTo "createAppointment"))
  end.

Definition cancelAppointment (args : json) : C CancelAppointmentResult :=
  match args with
  | JNull => throwC cannotDestructure
  | _ =>
      let eventId := property "eventId" args in
      let calendarId := orDefault (property "calendarId" args) primary in
      tryCatchC
        (bindC (callC (EventsDelete calendarId eventId)
                  (fun l => events_delete l calendarId eventId))
           (fun _ =>
         retC {| cancelSuccess := true;
                 cancelMessage := "Appointment successfully cancelled";
                 cancelledEventId := eventId |}))
        (fun _ => throwC (failedTo "cancelAppointment"))
  end.

Definition listUpcomingAppointments (args : json) : C ListAppointmentsResult :=
  match args with
  | JNull => throwC cannotDestructure
  | _ =>
      let maxResults := orDefault (property "maxResults" args) (JNumber 10) in
      let calendarId := orDefault (property "calendarId" args) primary in
      tryCatchC
        (fun l =>
           let request := {| listCalendarId := calendarId;
                             listTimeMin := toISOString l;
                             listMaxResults := maxResults;
                             singleEvents := true;
                             orderBy := "startTime" |} in
           bindC (callC (EventsList request) (fun l => events_list l request))
             (fun data =>
           let listed := match items data with Some i => i | None => [] end in
           let events := map appointmentOf listed in
           retC {| events := events; count := Z.of_nat (length events) |}) l)
        (fun _ => throwC (failedTo "listUpcomingAppointments"))
  end.

End CalendarHandlers.

(** *** index.ts: the routes [/api/chat] and [/api/list-kb]

    [sessions] is a plain object used as a map from session identifiers to
    histories.  The names that every object inherits from
    [Object.prototype] never hold a history: looked up in [sessions], such a
    name gives the inherited function or object; [chatWithBot] then fails at
    [conversationHistory.slice], inside its [try] block and before any
    service is called, and the value read is written back. *)
Definition inheritedNames : list string :=
  [ "constructor"; "__defineGetter__"; "__defineSetter__"; "hasOwnProperty";
    "__lookupGetter__"; "__lookupSetter__"; "isPrototypeOf";
    "propertyIsEnumerable"; "toString"; "valueOf"; "__proto__";
    "toLocaleString" ].

(** The histories held by [sessions]. *)
Abbreviation SessionStore := (gmap string (list Message)).

(** An entry of the answer of [/api/list-kb]. *)
Record DocumentInfo := {
  infoId : string;
  infoTitle : string;
  contentPreview : string;
  hasEmbedding : bool
}.

Section Routes.

Variable rt : Runtime.

(** [sessions[sessionId] || []] *)
Definition sessionHistoryOf (sessions : SessionStore) (sessionId : string)
  : list Message :=
  match sessions !! sessionId with
  | Some history => history
  | None => []
  end.

(** [app.post('/api/chat', ...)] for a body [{ message, sessionId }] of two
    strings, run to its end: the [response] sent and the store after it. *)
Definition apiChat (message sessionId : string) (sessions : SessionStore)
  : M (string * SessionStore) :=
  if existsb (String.eqb sessionId) inheritedNames then ret (apology, sessions)
  else
    (let sessionHistory := sessionHistoryOf sessions sessionId in
     r <- chatWithBot rt message sessionHistory ;;
     ret (response r, <[sessionId := updatedHistory r]> sessions))%M.

(** Requests served one after the other; a request is a pair
    ([message], [sessionId]). *)
Fixpoint serve (requests : list (string * string)) (sessions : SessionStore)
  : M SessionStore :=
  match requests with
  | [] => ret sessions
  | (message, sessionId) :: rest =>
      (answer <- apiChat message sessionId sessions ;;
       serve rest (snd answer))%M
  end.

(** [app.get('/api/list-kb', ...)] *)
Definition apiListKb : M (list DocumentInfo) :=
  (st <- getState ;;
   ret (map (fun doc =>
               {| infoId := id doc;
                  infoTitle := title doc;
                  contentPreview := substring0 100 (content doc) +:+ "...";
                  hasEmbedding :=
                    truthyMember (metadataMember doc "embedding") |})
          (knowledgeBase st)))%M.

End Routes.

(** *** A runtime for the examples

    A JSON printer and parser that cover the JSON texts of the examples
    (no exponents in numbers, [\u] escapes below 256), an exact square root
    on squares, and scripted services. *)

Definition backslash : string := String (ascii_of_nat 92) EmptyString.

Definition hexDigit (n : nat) : ascii :=
  ascii_of_nat (if Nat.ltb n 10 then 48 + n else 87 + n).

Definition escapeChar (c : ascii) : string :=
  let n := code c in
  if Nat.eqb n 34 then backslash +:+ dquote
  else if Nat.eqb n 92 then backslash +:+ backslash
  else if Nat.eqb n 8 then backslash +:+ "b"
  else if Nat.eqb n 12 then backslash +:+ "f"
  else if Nat.eqb n 10 then backslash +:+ "n"
  else if Nat.eqb n 13 then backslash +:+ "r"
  else if Nat.eqb n 9 then backslash +:+ "t"
  else if Nat.ltb n 32 then
    backslash +:+ "u00"
    +:+ String (hexDigit (n / 16)) (String (hexDigit (n mod 16)) EmptyString)
  else String c EmptyString.

Fixpoint escapeString (s : string) : string :=
  match s with
  | EmptyString => EmptyString
  | String c s' => escapeChar c +:+ escapeString s'
  end.

Definition quoted (s : string) : string := dquote +:+ escapeString s +:+ dquote.

Definition intText (z : Z) : string := NilZero.string_of_int (Z.to_int z).

(** The digits of [r / d] after the point, at most [n] of them. *)
Fixpoint fractionDigits (n : nat) (r d : Z) : string :=
  match n with
  | O => EmptyString
  | S n' =>
      if (r =? 0)%Z then EmptyString
      else intText (r * 10 / d) +:+ fractionDigits n' ((r * 10) mod d) d
  end.

Definition numberText (q : Q) : string :=
  let d := Zpos (Qden q) in
  let a := Z.abs (Qnum q) in
  if (a mod d =? 0)%Z then intText (Qnum q / d)
  else (if (Qnum q <? 0)%Z then "-" else "")
       +:+ intText (a / d) +:+ "." +:+ fractionDigits 17 (a mod d) d.

Fixpoint demoStringify (j : json) : string :=
  match j with
  | JNull => "null"
  | JBool true => "true"
  | JBool false => "false"
  | JNumber q => numberText q
  | JString s => quoted s
  | JArray items => "[" +:+ String.concat "," (map demoStringify items) +:+ "]"
  | JObject members =>
      "{"
      +:+ String.concat ","
            (map (fun kv => quoted (fst kv) +:+ ":" +:+ demoStringify (snd kv))
               members)
      +:+ "}"
  end.

Definition isDigit (c : ascii) : bool :=
  Nat.leb 48 (code c) && Nat.leb (code c) 57.

Fixpoint skipBlanks (s : string) : string :=
  match s with
  | String c s' =>
      if isChar 32 c || isChar 9 c || isChar 10 c || isChar 13 c
      then skipBlanks s' else s
  | EmptyString => s
  end.

(** The digits at the start of [s]: their value after [acc], their number,
    and the rest of [s]. *)
Fixpoint readDigits (s : string) (acc : Z) (count : nat) : Z * nat * string :=
  match s with
  | String c s' =>
      if isDigit c
      then readDigits s' (acc * 10 + Z.of_nat (code c - 48)) (S count)
      else (acc, count, s)
  | EmptyString => (acc, count, s)
  end.

Definition readNumber (s : string) : option (Q * string) :=
  let '(negative, s1) :=
    match s with
    | String c s' => if isChar 45 c then (true, s') else (false, s)
    | EmptyString => (false, s)
    end in
  let '(whole, n, s2) := readDigits s1 0 0 in
  match n with
  | O => None
  | S _ =>
      let '(num, den, rest) :=
        match s2 with
        | String c s3 =>
            if isChar 46 c then
              let '(both, k, s4) := readDigits s3 whole 0 in
              (both, Z.pow 10 (Z.of_nat k), s4)
            else (whole, 1%Z, s2)
        | EmptyString => (whole, 1%Z, s2)
        end in
      Some (Qmake (if negative then - num else num) (Z.to_pos den), rest)
  end.

Definition hexValue (c : ascii) : option nat :=
  let n := code c in
  if isDigit c then Some (n - 48)
  else if Nat.leb 97 n && Nat.leb n 102 then Some (n - 87)
  else if Nat.leb 65 n && Nat.leb n 70 then Some (n - 55)
  else None.

(** The characters of a string literal after its opening quote. *)
Fixpoint readString (fuel : nat) (s : string) : option (string * string) :=
  match fuel with
  | O => None
  | S fuel' =>
      match s with
      | EmptyString => None
      | String c s' =>
          if isChar 34 c then Some (EmptyString, s')
          else if isChar 92 c then
            match s' with
            | String e s'' =>
                let continue (ch : ascii) (rest : string) :=
                  match readString fuel' rest with
                  | Some (t, r) => Some (String ch t, r)
                  | None => None
                  end in
                if isChar 110 e then continue (ascii_of_nat 10) s''
                else if isChar 116 e then continue (ascii_of_nat 9) s''
                else if isChar 114 e then continue (ascii_of_nat 13) s''
                else if isChar 98 e then continue (ascii_of_nat 8) s''
                else if isChar 102 e then continue (ascii_of_nat 12) s''
                else if isChar 117 e then
                  match s'' with
                  | String h1 (String h2 (String h3 (String h4 rest))) =>
                      match hexValue h1, hexValue h2, hexValue h3, hexValue h4 with
                      | Some 0%nat, Some 0%nat, Some a, Some b =>
                          continue (ascii_of_nat (16 * a + b)) rest
                      | _, _, _, _ => None
                      end
                  | _ => None
                  end
                else if isChar 34 e || isChar 92 e || isChar 47 e
                then continue e s''
                else None
            | EmptyString => None
            end
          else if Nat.ltb (code c) 32 then None
          else
            match readString fuel' s' with
            | Some (t, r) => Some (String c t, r)
            | None => None
            end
      end
  end.

Definition readLiteral (word : string) (value : json) (s : string)
  : option (json * string) :=
  if String.prefix word s
  then Some (value, dropChars (String.length word) s)
  else None.

Fixpoint readValue (fuel : nat) (s : string) : option (json * string) :=
  match fuel with
  | O => None
  | S fuel' =>
      match skipBlanks s with
      | EmptyString => None
      | String c rest =>
          if isChar 110 c then readLiteral "null" JNull (String c rest)
          else if isChar 116 c then readLiteral "true" (JBool true) (String c rest)
          else if isChar 102 c then readLiteral "false" (JBool false) (String c rest)
          else if isChar 34 c then
            match readString (S (String.length rest)) rest with
            | Some (t, r) => Some (JString t, r)
            | None => None
            end
          else if isChar 91 c then
            match skipBlanks rest with
            | String c2 rest2 =>
                if isChar 93 c2 then Some (JArray [], rest2)
                else
                  match readElements fuel' rest with
                  | Some (items, r) => Some (JArray items, r)
                  | None => None
                  end
            | EmptyString => None
            end
          else if isChar 123 c then
            match skipBlanks rest with
            | String c2 rest2 =>
                if isChar 125 c2 then Some (JObject [], rest2)
                else
                  match readMembers fuel' rest with
                  | Some (members, r) => Some (JObject members, r)
                  | None => None
                  end
            | EmptyString => None
            end
          else
            match readNumber (String c rest) with
            | Some (q, r) => Some (JNumber q, r)
            | None => None
            end
      end
  end
with readElements (fuel : nat) (s : string) : option (list json * string) :=
  match fuel with
  | O => None
  | S fuel' =>
      match readValue fuel' s with
      | None => None
      | Some (v, rest) =>
          match skipBlanks rest with
          | String c rest' =>
              if isChar 44 c then
                match readElements fuel' rest' with
                | Some (vs, r) => Some (v :: vs, r)
                | None => None
                end
              else if isChar 93 c then Some ([v], rest')
              else None
          | EmptyString => None
          end
      end
  end
with readMembers (fuel : nat) (s : string)
  : option (list (string * json) * string) :=
  match fuel with
  | O => None
  | S fuel' =>
      match skipBlanks s with
      | String q s1 =>
          if isChar 34 q then
            match readString (S (String.length s1)) s1 with
            | None => None
            | Some (key, s2) =>
                match skipBlanks s2 with
                | String colon s3 =>
                    if isChar 58 colon then
                      match readValue fuel' s3 with
                      | None => None
                      | Some (v, rest) =>
                          match skipBlanks rest with
                          | String c rest' =>
                              if isChar 44 c then
                                match readMembers fuel' rest' with
                                | Some (ms, r) => Some ((key, v) :: ms, r)
                                | None => None
                                end
                              else if isChar 125 c then Some ([(key, v)], rest')
                              else None
                          | EmptyString => None
                          end
                      end
                    else None
                | EmptyString => None
                end
            end
          else None
      | EmptyString => None
      end
  end.

Definition notJSON : JSError :=
  {| errName := "SyntaxError"; errMessage := "Unexpected token in JSON" |}.

Definition demoParse (s : string) : Result json :=
  match readValue (2 * String.length s + 2) s with
  | Some (v, rest) =>
      match skipBlanks rest with
      | EmptyString => Ok v
      | String _ _ => Throw notJSON
      end
  | None => Throw notJSON
  end.

(** The square root of a square of integers. *)
Definition demoSqrt (q : Q) : Q := Qmake (Z.sqrt (Qnum q)) (Pos.sqrt (Qden q)).

Definition serviceDown (what : string) : JSError :=
  {| errName := "Error"; errMessage := what |}.

Definition reply (text : option string) (toolCalls : option (list ToolCall))
  : ChatCompletion :=
  {| choices := [ {| completionContent := text;
                     completionToolCalls := toolCalls |} ] |}.

(** The scripted runtime: [embedding] answers every embedding request;
    the completion service answers [first] when tools are offered and
    [second] otherwise; the calendar handlers answer [calendar]. *)
Definition demoRuntime (embedding : Result (list Q))
  (first second : Result ChatCompletion) (calendar : Result json) : Runtime :=
  {| JSON_stringify := demoStringify;
     JSON_parse := demoParse;
     Math_sqrt := demoSqrt;
     path_join := fun directory file => directory +:+ "/" +:+ file;
     Date_toISOString := fun _ => "2025-01-01T00:00:00.000Z";
     otherPatterns := fun _ _ => Ok 0%Z;
     knowledgeBasePath := "./knowledge";
     systemPrompt := "You are a scheduling assistant.";
     embeddings_create := fun _ _ => embedding;
     chat_completions_create :=
       fun _ request =>
         match requestTools request with
         | Some _ => first
         | None => second
         end;
     calendarHandler := fun _ _ _ => calendar;
     illTypedCall := fun _ _ _ => Throw (serviceDown "bad arguments");
     illTypedSnapshot := fun _ => ([], []);
     illTypedSource :=
       fun file text _ =>
         {| id := file; title := file; content := text; metadata := Some [] |};
     illTypedEmbedding := fun _ => [];
     fs_readdir := fun _ _ => Ok [];
     fs_writeFile_error := fun _ _ => None |}.

Definition policyDocument : KnowledgeDocument :=
  {| id := "policies.md";
     title := "Cancellation Policy";
     content := "Appointments must be cancelled at least 24 hours in advance.";
     metadata := Some [("embedding", JArray [JNumber 1; JNumber 0])] |}.

Definition faqDocument : KnowledgeDocument :=
  {| id := "faq.md";
     title := "Frequently Asked Questions";
     content := "Can I request a specific consultant? Yes, you can.";
     metadata := Some [("embedding", JArray [JNumber 3; JNumber 0])] |}.

Definition demoVectorStore : list VectorStoreEntry :=
  [ {| entryDocumentId := "policies.md"; embedding := [1; 0]%Q |};
    {| entryDocumentId := "removed.md"; embedding := [1; 0]%Q |};
    {| entryDocumentId := "faq.md"; embedding := [3; 0]%Q |} ].

Definition demoState : State :=
  {| knowledgeBase := [policyDocument; faqDocument];
     vectorStore := demoVectorStore;
     files := empty;
     log := [] |}.

Definition checkCall : ToolCall :=
  {| callId := "call_1"; functionName := "checkAvailability";
     functionArguments := "{}" |}.

Definition brokenCall : ToolCall :=
  {| callId := "call_2"; functionName := "checkAvailability";
     functionArguments := "{" |}.

(** The calendar is down: the handler throws. *)
Definition calendarDown : Runtime :=
  demoRuntime (Ok [1; 0]%Q)
    (Ok (reply None (Some [checkCall])))
    (Ok (reply (Some "I could not check the calendar.") None))
    (Throw (serviceDown "Failed to check availability")).

(** The completion service sends an argument string that is not JSON. *)
Definition brokenArguments : Runtime :=
  demoRuntime (Ok [1; 0]%Q)
    (Ok (reply None (Some [brokenCall])))
    (Ok (reply (Some "Done.") None))
    (Ok (JObject [("isAvailable", JBool true)])).

(** The embedding service is down; the completion answers at once. *)
Definition embeddingDown : Runtime :=
  demoRuntime (Throw (serviceDown "Embedding service unreachable"))
    (Ok (reply (Some "Hello.") None))
    (Ok (reply (Some "Done.") None))
    (Ok JNull).




(** *** Vocabulary of the properties *)

(** Chunking. *)

(** The text covered by the (separator, piece) pairs. *)
Fixpoint flatten (l : list (string * string)) : string :=
  match l with
  | [] => ""
  | (w, p) :: l' => w +:+ p +:+ flatten l'
  end.

(** [dropsEmpty ps kept]: [kept] is [ps] with some empty strings left out. *)
Inductive dropsEmpty : list string -> list string -> Prop :=
| dropsEmpty_nil : dropsEmpty [] []
| dropsEmpty_keep p l l' : dropsEmpty l l' -> dropsEmpty (p :: l) (p :: l')
| dropsEmpty_drop l l' : dropsEmpty l l' -> dropsEmpty ("" :: l) l'.

(** A block is well formed when an empty running segment stands for no
    paragraph at all. *)
Definition tidy (curb : list string) : Prop :=
  truthy (String.concat nn curb) = false -> curb = [].

(** A block is of bounded size when it is a single paragraph (or none), or
    its join exceeds [m] by the two characters of a separator at most. *)
Definition sized (m : Z) (b : list string) : Prop :=
  (length b <= 1)%nat \/ (len (String.concat nn b) <= m + 2)%Z.

(** Semantic search. *)

(** Descending order of the scores. *)
Definition scoreGe (a b : SearchResult) : Prop :=
  (relevanceScore b <= relevanceScore a)%Q.

(** The entry's [documentId] names a document of the knowledge base. *)
Definition resolves (kb : list KnowledgeDocument) (entry : VectorStoreEntry)
  : bool :=
  existsb (fun d => String.eqb (id d) (entryDocumentId entry)) kb.

(** The conversation turn. *)

(** The messages of the first completion request. *)
Definition firstPrompt rt (userMessage : string) (conversationHistory : list Message)
  (relevantInfo : string) : list Message :=
  [plainMessage system (enhancedSystemPrompt rt relevantInfo)]
  ++ lastN 10 conversationHistory ++ [plainMessage user userMessage].

(** The messages after the first completion asked for tool calls: the
    assistant's reply twice, the second copy with the tool calls. *)
Definition withToolCallRequest (prompt : list Message)
  (first : ChatCompletionMessage) (toolCalls : list ToolCall) : list Message :=
  (prompt ++ [plainMessage assistant (orEmpty (completionContent first))])
  ++ [ {| role := assistant;
          messageContent := orEmpty (completionContent first);
          tool_call_id := None;
          name := None;
          tool_calls := Some toolCalls |} ].

(** The completion requests recorded in a log, oldest first. *)
Definition chatRequests (l : list Event) : list ChatRequest :=
  flat_map (fun ev => match ev with EvChat request => [request] | _ => [] end) l.

(** [quiet m]: running [m] records no completion request. *)
Definition quiet {A} (m : M A) : Prop :=
  forall st, chatRequests (log (snd (m st))) = chatRequests (log st).

(** What a tool message carries: the handler's result, or the error payload
    when the handler threw. *)
Definition payloadOf (outcome : Result json) : json :=
  match outcome with
  | Ok functionResponse => functionResponse
  | Throw error => errorPayload error
  end.



(** The persisted snapshot. *)

Definition withKnowledge (kb : list KnowledgeDocument)
  (vs : list VectorStoreEntry) (st : State) : State :=
  {| knowledgeBase := kb; vectorStore := vs; files := files st; log := log st |}.

(** Lexical search. *)

Definition coursesDocument : KnowledgeDocument :=
  {| id := "courses.md"; title := "Courses";
     content := "We teach C++ and Rust."; metadata := None |}.

Definition feesDocument : KnowledgeDocument :=
  {| id := "fees.md"; title := "Fees";
     content := "The fee is due at booking."; metadata := None |}.

(** A keyword none of whose characters is a syntax character of patterns. *)
Definition plainChar (c : ascii) : bool :=
  negb (isOtherSyntaxChar c) && negb (isQuantifierChar c) && negb (isChar 46 c).

Fixpoint plain (keyword : string) : bool :=
  match keyword with
  | EmptyString => true
  | String c rest => plainChar c && plain rest
  end.

Fixpoint literalTerms (keyword : string) : list term :=
  match keyword with
  | EmptyString => []
  | String c rest => (AChar c, QOne) :: literalTerms rest
  end.

(** The occurrences of [keyword] in [subject], found from left to right
    without overlap; [skip] counts the characters still covered by the last
    occurrence. *)
Fixpoint countOccurrences (keyword subject : string) (skip : nat) : nat :=
  match subject with
  | EmptyString => if String.prefix keyword EmptyString then 1%nat else 0%nat
  | String c rest =>
      match skip with
      | S k => countOccurrences keyword rest k
      | O =>
          if String.prefix keyword subject
          then S (countOccurrences keyword rest (String.length keyword - 1))
          else countOccurrences keyword rest 0
      end
  end.

(** The score as C3 words it: 10 when the keyword is a substring of the
    lower-cased title, plus the number of occurrences of the keyword in the
    lower-cased content. *)
Definition keywordScore (lowerTitle lowerContent keyword : string) : Z :=
  ((if includes lowerTitle keyword then 10 else 0)
   + Z.of_nat (countOccurrences keyword lowerContent 0))%Z.

Definition documentScore (expandedKeywords : list string)
  (doc : KnowledgeDocument) : Z :=
  fold_left
    (fun score keyword =>
       (score + keywordScore (toLowerCase (title doc))
                  (toLowerCase (content doc)) keyword)%Z)
    expandedKeywords 0%Z.

(** The keywords of a query after synonym expansion. *)
Definition expandedKeywordsOf (query : string) : list string :=
  expandKeywords
    (List.filter (fun k => (len k >? 2)%Z) (words (toLowerCase query))).

Definition scoredResult (query : string) (expandedKeywords : list string)
  (doc : KnowledgeDocument) : SearchResult :=
  {| documentId := id doc;
     resultTitle := title doc;
     excerpt := extractRelevantExcerpt (content doc) query 300;
     relevanceScore := inject_Z (documentScore expandedKeywords doc) |}.

(** More runtimes for the examples: [rt] with another directory listing. *)
Definition withReaddir (rt : Runtime)
  (listing : list Event -> string -> Result (list string)) : Runtime :=
  {| JSON_stringify := JSON_stringify rt;
     JSON_parse := JSON_parse rt;
     Math_sqrt := Math_sqrt rt;
     path_join := path_join rt;
     Date_toISOString := Date_toISOString rt;
     otherPatterns := otherPatterns rt;
     knowledgeBasePath := knowledgeBasePath rt;
     systemPrompt := systemPrompt rt;
     embeddings_create := embeddings_create rt;
     chat_completions_create := chat_completions_create rt;
     calendarHandler := calendarHandler rt;
     illTypedCall := illTypedCall rt;
     illTypedSnapshot := illTypedSnapshot rt;
     illTypedSource := illTypedSource rt;
     illTypedEmbedding := illTypedEmbedding rt;
     fs_readdir := listing;
     fs_writeFile_error := fs_writeFile_error rt |}.

(** The knowledge directory cannot be listed. *)
Definition directoryMissing : Runtime :=
  withReaddir calendarDown (fun _ _ => Throw (serviceDown "ENOENT: scandir")).

(** The knowledge directory holds one note, a picture and the snapshot. *)
Definition oneNote : Runtime :=
  withReaddir calendarDown
    (fun _ _ => Ok ["notes.md"; "logo.png"; "vector-store.json"]).

Definition noteOnDisk : State :=
  {| knowledgeBase := [policyDocument];
     vectorStore := demoVectorStore;
     files := {[ "./knowledge/notes.md" := "We open at nine. We close at five." ]};
     log := [] |}.

(** An oversized manual: 300 paragraphs of 49 characters. *)
Definition manualText : string :=
  String.concat nn
    (repeat "Bring the confirmation e-mail to the appointment." 300).

Definition oneManual : Runtime :=
  withReaddir calendarDown (fun _ _ => Ok ["manual.md"]).

Definition manualOnDisk : State :=
  {| knowledgeBase := [];
     vectorStore := [];
     files := {[ "./knowledge/manual.md" := manualText ]};
     log := [] |}.

(** A calendar client for the examples: the primary calendar is busy from
    10 to 11 when [booked], an insertion answers with the identifier "evt1",
    deletions fail, and the list holds one all-day event. *)
Definition bookedSlot : json :=
  JObject [ ("start", JString "2025-03-01T10:00:00Z");
            ("end", JString "2025-03-01T11:00:00Z") ].

Definition demoFreeBusy (booked : bool)
  : list CalendarCall -> FreeBusyRequest -> Result FreeBusyResponse :=
  fun _ _ =>
    Ok {| calendars :=
            Some [("primary",
                   {| busy := Some (if booked then [bookedSlot] else []) |})] |}.

Definition demoInsert
  : list CalendarCall -> json -> EventBody -> Result InsertedEvent :=
  fun _ _ _ => Ok {| insertedId := Some "evt1"; insertedHtmlLink := None |}.

Definition demoDelete
  : list CalendarCall -> json -> option json -> Result unit :=
  fun _ _ _ => Throw (serviceDown "Not Found").

Definition holiday : ListedEvent :=
  {| listedId := Some "evt7"; listedSummary := None; listedDescription := Some "";
     listedStart := Some {| onDateTime := None; onDate := Some "2025-12-25" |};
     listedEnd := None; listedLocation := None; listedAttendees := None |}.

Definition demoList
  : list CalendarCall -> ListRequest -> Result EventList :=
  fun _ _ => Ok {| items := Some [holiday] |}.

Definition demoClock : list CalendarCall -> string :=
  fun _ => "2025-01-01T00:00:00.000Z".

Definition demoKey : json -> string := fun _ => "null".

Definition slotArguments : json :=
  JObject [ ("summary", JString "Consultation");
            ("startDateTime", JString "2025-03-01T10:00:00");
            ("endDateTime", JString "2025-03-01T11:00:00Z") ].

(** Cosine similarity. *)


(** The value of [dotProduct] after the loop of [calculateCosineSimilarity]. *)
Definition dotProduct (vecA vecB : list Q) : Q :=
  fold_left (fun d ab => (d + fst ab * snd ab)%Q) (combine vecA vecB) 0%Q.

(** Synonyms. *)

(** [related keyword k]: some entry of the synonym map holds [keyword] (as
    its term or among its synonyms) and holds [k] too. *)
Definition related (keyword k : string) : Prop :=
  exists entry,
    In entry getSynonymMap
    /\ (keyword = fst entry \/ In keyword (snd entry))
    /\ (k = fst entry \/ In k (snd entry)).

(** The conversation turn and the routes. *)

(** [readOnly m]: running [m] leaves the knowledge base, the vector store
    and the files as they are, and only adds events to the log. *)
Definition readOnly {A} (m : M A) : Prop :=
  forall st,
    knowledgeBase (snd (m st)) = knowledgeBase st
    /\ vectorStore (snd (m st)) = vectorStore st
    /\ files (snd (m st)) = files st
    /\ exists events, log (snd (m st)) = log st ++ events.

(** The outcome of a turn with [older] put back in front of its history. *)
Definition withOlder (older : list Message) (r : Result ChatResponse)
  : Result ChatResponse :=
  match r with
  | Ok r => Ok {| response := response r;
                  updatedHistory := older ++ updatedHistory r |}
  | Throw e => Throw e
  end.

(** A history made of exchanges: a plain user message followed by a plain
    assistant message, any number of times. *)
Definition isPlain (r : Role) (m : Message) : bool :=
  match role m, r with
  | user, user | assistant, assistant => true
  | _, _ => false
  end
  && match tool_call_id m, name m, tool_calls m with
     | None, None, None => true
     | _, _, _ => false
     end.

Fixpoint exchanges (history : list Message) : bool :=
  match history with
  | [] => true
  | question :: answer :: rest =>
      isPlain user question && isPlain assistant answer && exchanges rest
  | _ => false
  end.

(** The stores that the route [/api/chat] reaches: every history is made of
    exchanges, and no inherited name holds one. *)
Definition sound (sessions : SessionStore) : Prop :=
  (forall sessionId history,
      sessions !! sessionId = Some history -> exchanges history = true)
  /\ forall name, In name inheritedNames -> sessions !! name = None.

(** Embeddings. *)

(** The input of the embedding request for a document. *)
Definition embeddingInput (doc : KnowledgeDocument) : string :=
  title doc +:+ nn +:+ substring0 8000 (content doc).

(** What [generateEmbeddingsForDocuments] never changes in a document. *)
Definition identity (doc : KnowledgeDocument) : string * string * string :=
  (id doc, title doc, content doc).

(** ** Part II. Properties *)

(** *** Strings: append, length, join *)

Lemma append_cons (c : ascii) (s1 s2 : string) :
  String c s1 +:+ s2 = String c (s1 +:+ s2).
Proof. reflexivity. Qed.

Lemma append_nil_l (s : string) : "" +:+ s = s.
Proof. reflexivity. Qed.

Lemma append_nil_r (s : string) : s +:+ "" = s.
Proof.
  induction s as [|c s IH]; [reflexivity|].
  now rewrite append_cons, IH.
Qed.

Lemma append_assoc (s1 s2 s3 : string) :
  (s1 +:+ s2) +:+ s3 = s1 +:+ (s2 +:+ s3).
Proof.
  induction s1 as [|c s1 IH]; [reflexivity|].
  now rewrite !append_cons, IH.
Qed.

Lemma length_append (s1 s2 : string) :
  String.length (s1 +:+ s2) = (String.length s1 + String.length s2)%nat.
Proof.
  induction s1 as [|c s1 IH]; [reflexivity|].
  rewrite append_cons. simpl. now rewrite IH.
Qed.

Lemma len_append (s1 s2 : string) : len (s1 +:+ s2) = (len s1 + len s2)%Z.
Proof. unfold len. rewrite length_append. lia. Qed.

Lemma len_nonneg (s : string) : (0 <= len s)%Z.
Proof. unfold len. lia. Qed.

Lemma truthy_false (s : string) : truthy s = false <-> s = "".
Proof. destruct s; simpl; split; congruence. Qed.

Lemma truthy_true (s : string) : truthy s = true <-> s <> "".
Proof. destruct s; simpl; split; congruence. Qed.

Lemma len_pos_truthy (s : string) : (len s >? 0)%Z = truthy s.
Proof. destruct s; reflexivity. Qed.

Lemma append_truthy_l (s1 s2 : string) :
  truthy s1 = true -> truthy (s1 +:+ s2) = true.
Proof. destruct s1; simpl; congruence. Qed.

(** [String.concat sep] is [Array.prototype.join(sep)]. *)
Lemma join_cons (sep x : string) (l : list string) :
  l <> [] -> String.concat sep (x :: l) = x +:+ sep +:+ String.concat sep l.
Proof. destruct l; [congruence | reflexivity]. Qed.

Lemma join_snoc (sep x : string) (l : list string) :
  l <> [] -> String.concat sep (l ++ [x]) = String.concat sep l +:+ sep +:+ x.
Proof.
  induction l as [|y l IH]; intros Hne; [congruence|].
  destruct l as [|z l].
  - reflexivity.
  - change ((y :: z :: l) ++ [x]) with (y :: ((z :: l) ++ [x])).
    rewrite join_cons by (destruct l; discriminate).
    rewrite IH by discriminate.
    rewrite (join_cons sep y (z :: l)) by discriminate.
    now rewrite !append_assoc.
Qed.

Lemma join_app (sep : string) (l1 l2 : list string) :
  l1 <> [] -> l2 <> [] ->
  String.concat sep (l1 ++ l2)
  = String.concat sep l1 +:+ sep +:+ String.concat sep l2.
Proof.
  induction l1 as [|x l1 IH]; intros H1 H2; [congruence|].
  destruct l1 as [|y l1].
  - simpl app. now rewrite join_cons.
  - change ((x :: y :: l1) ++ l2) with (x :: ((y :: l1) ++ l2)).
    rewrite join_cons by discriminate.
    rewrite IH by (discriminate || assumption).
    rewrite (join_cons sep x (y :: l1)) by discriminate.
    now rewrite !append_assoc.
Qed.

(** Joining the joins of non-empty blocks joins their concatenation. *)
Lemma join_blocks (sep : string) (blocks : list (list string)) :
  Forall (fun b => b <> []) blocks ->
  String.concat sep (map (String.concat sep) blocks)
  = String.concat sep (concat blocks).
Proof.
  induction 1 as [|b blocks Hb Hall IH]; [reflexivity|].
  destruct blocks as [|b' blocks].
  - simpl. now rewrite app_nil_r.
  - change (map (String.concat sep) (b :: b' :: blocks))
      with (String.concat sep b :: map (String.concat sep) (b' :: blocks)).
    rewrite join_cons by discriminate.
    rewrite IH. change (concat (b :: b' :: blocks)) with (b ++ concat (b' :: blocks)).
    rewrite join_app; auto.
    inversion Hall; subst. destruct b'; [congruence | discriminate].
Qed.

(** *** Splitting at blank lines *)

Lemma spaceThenLF_prefix (s w r : string) :
  spaceThenLF s = Some (w, r) -> s = w +:+ r /\ w <> "".
Proof.
  revert w r. induction s as [|c s IH]; intros w r H; simpl in H; [discriminate|].
  destruct (isWhiteSpace c); [|discriminate].
  destruct (spaceThenLF s) as [[w' r']|] eqn:E.
  - inversion H; subst. destruct (IH _ _ eq_refl) as [-> _].
    split; [reflexivity | discriminate].
  - destruct (isLF c); [|discriminate]. inversion H; subst.
    split; [reflexivity | discriminate].
Qed.

Lemma blankLine_prefix (s w r : string) :
  blankLine s = Some (w, r) ->
  exists c w', w = String c w' /\ s = w +:+ r.
Proof.
  destruct s as [|c s]; simpl; [discriminate|].
  destruct (isLF c); [|discriminate].
  destruct (spaceThenLF s) as [[w' r']|] eqn:E; [|discriminate].
  intros H; inversion H; subst.
  apply spaceThenLF_prefix in E as [-> _]. eauto.
Qed.

Lemma dropChars_append (w r : string) : dropChars (String.length w) (w +:+ r) = r.
Proof. induction w; simpl; auto. Qed.

(** The pieces and the separators, put back in order, give the text. *)
Lemma splitBlankLines_rebuild (s : string) (skip : nat) :
  dropChars skip s
  = fst (splitBlankLines s skip) +:+ flatten (snd (splitBlankLines s skip)).
Proof.
  revert skip. induction s as [|c s IH]; intros skip.
  - destruct skip; reflexivity.
  - destruct skip as [|k]; [|simpl; apply IH].
    cbn [splitBlankLines dropChars].
    destruct (blankLine (String c s)) as [[w r]|] eqn:E.
    + destruct (blankLine_prefix _ _ _ E) as (c' & w' & -> & Heq).
      rewrite append_cons in Heq. injection Heq as <- Hs.
      specialize (IH (String.length w')).
      replace (String.length (String c w') - 1)%nat with (String.length w')
        by (simpl; lia).
      destruct (splitBlankLines s (String.length w')) as [p rest].
      cbn [fst snd flatten] in *.
      rewrite Hs in IH at 1. rewrite dropChars_append in IH.
      rewrite append_nil_l, append_cons. f_equal.
      rewrite <- IH. exact Hs.
    + specialize (IH 0%nat). simpl dropChars in IH.
      destruct (splitBlankLines s 0) as [p rest]. cbn [fst snd] in *.
      rewrite append_cons. now f_equal.
Qed.

Lemma join_pieces (p : string) (rest : list (string * string)) :
  Forall (fun w => w = nn) (map fst rest) ->
  String.concat nn (p :: map snd rest) = p +:+ flatten rest.
Proof.
  revert p. induction rest as [|[w q] rest IH]; intros p H.
  - simpl. now rewrite append_nil_r.
  - apply Forall_cons_iff in H as [Hw Hrest]. cbn [fst] in Hw. subst w.
    change (map snd ((nn, q) :: rest)) with (q :: map snd rest).
    rewrite join_cons by discriminate.
    rewrite IH by assumption. reflexivity.
Qed.

(** When every blank-line separator of [s] is exactly ["\n\n"], joining the
    paragraphs gives [s] back. *)
Lemma join_paragraphs (s : string) :
  Forall (fun w => w = nn) (separators s) ->
  String.concat nn (paragraphs s) = s.
Proof.
  unfold separators, paragraphs. intros H.
  rewrite join_pieces by assumption.
  symmetry. apply (splitBlankLines_rebuild s 0).
Qed.

(** *** The chunker *)

#[local] Hint Constructors dropsEmpty : core.

Lemma dropsEmpty_nonempty (ps kept : list string) :
  dropsEmpty ps kept -> Forall (fun p => p <> "") ps -> kept = ps.
Proof.
  induction 1 as [|p l l' _ IH|l l' _ IH]; intros Hall.
  - reflexivity.
  - apply Forall_cons_iff in Hall as [_ Hall]. now rewrite IH.
  - apply Forall_cons_iff in Hall as [Hp _]. congruence.
Qed.

Lemma tidy_single (p : string) : tidy (if truthy p then [p] else []).
Proof. unfold tidy. destruct (truthy p) eqn:E; simpl; congruence. Qed.

Lemma join_single_or_none (p : string) :
  String.concat nn (if truthy p then [p] else []) = p.
Proof. destruct p; reflexivity. Qed.

Lemma dropsEmpty_head (p : string) (ps kept : list string) :
  dropsEmpty ps kept ->
  dropsEmpty (p :: ps) ((if truthy p then [p] else []) ++ kept).
Proof. destruct p; simpl; auto. Qed.

Lemma sized_single (m : Z) (p : string) : sized m (if truthy p then [p] else []).
Proof. left. destruct (truthy p); simpl; lia. Qed.

(** The loop groups consecutive paragraphs into blocks; only empty
    paragraphs are left out, and only a block of one paragraph can be longer
    than [m + 2]. *)
Lemma chunkLoop_blocks (m : Z) (ps : list string) :
  forall (blocks : list (list string)) (curb : list string),
    Forall (fun b => b <> [] /\ sized m b) blocks -> tidy curb -> sized m curb ->
    exists blocks' curb' kept,
      chunkLoop m ps (map (String.concat nn) blocks, String.concat nn curb)
      = (map (String.concat nn) blocks', String.concat nn curb')
      /\ Forall (fun b => b <> [] /\ sized m b) blocks'
      /\ tidy curb' /\ sized m curb'
      /\ dropsEmpty ps kept
      /\ concat blocks' ++ curb' = concat blocks ++ curb ++ kept.
Proof.
  induction ps as [|p ps IH]; intros blocks curb Hb Ht Hs.
  - exists blocks, curb, []. simpl. rewrite app_nil_r. auto 6.
  - unfold chunkLoop. cbn [fold_left]. fold (chunkLoop m ps).
    unfold chunkStep. rewrite len_pos_truthy.
    destruct (truthy (String.concat nn curb)) eqn:Ecur.
    + assert (Hne : curb <> []) by (intros ->; discriminate).
      destruct (len (String.concat nn curb +:+ p) >? m)%Z eqn:Elen; cbn [andb].
      * (* the running segment is emitted *)
        destruct (IH (blocks ++ [curb]) (if truthy p then [p] else []))
          as (blocks' & curb' & kept & Heq & Hb' & Ht' & Hs' & Hd & Hc).
        { apply Forall_app; auto. }
        { apply tidy_single. }
        { apply sized_single. }
        exists blocks', curb', ((if truthy p then [p] else []) ++ kept).
        rewrite join_single_or_none, map_app in Heq. simpl map in Heq.
        repeat split; auto using dropsEmpty_head.
        rewrite Hc, concat_app. simpl. now rewrite app_nil_r, <- !app_assoc.
      * (* the paragraph joins the running segment *)
        destruct (IH blocks (curb ++ [p]))
          as (blocks' & curb' & kept & Heq & Hb' & Ht' & Hs' & Hd & Hc); auto.
        { unfold tidy. rewrite join_snoc by assumption.
          rewrite append_truthy_l by assumption. discriminate. }
        { right. rewrite join_snoc by assumption.
          rewrite len_append in Elen. rewrite !len_append.
          change (len nn) with 2%Z. lia. }
        exists blocks', curb', (p :: kept).
        rewrite join_snoc in Heq by assumption.
        repeat split; auto.
        rewrite Hc. now rewrite <- !app_assoc.
    + rewrite andb_false_r.
      rewrite (Ht Ecur) in *. simpl String.concat. rewrite !append_nil_l.
      destruct (IH blocks (if truthy p then [p] else []))
        as (blocks' & curb' & kept & Heq & Hb' & Ht' & Hs' & Hd & Hc); auto.
      { apply tidy_single. }
      { apply sized_single. }
      exists blocks', curb', ((if truthy p then [p] else []) ++ kept).
      rewrite join_single_or_none in Heq.
      repeat split; auto using dropsEmpty_head.
Qed.

(** Above the size threshold, the segments are joins of blocks of
    consecutive paragraphs, and a segment made of several paragraphs is
    longer than [m] by two characters at most. *)
Lemma chunkContent_blocks (c : string) (m : Z) :
  (m < len c)%Z ->
  exists blocks,
    chunkContent c m = map (String.concat nn) blocks
    /\ Forall (fun b => b <> [] /\ sized m b) blocks
    /\ dropsEmpty (paragraphs c) (concat blocks).
Proof.
  intros Hlt. unfold chunkContent.
  destruct (len c <=? m)%Z eqn:E; [lia|].
  destruct (chunkLoop_blocks m (paragraphs c) [] [])
    as (blocks' & curb' & kept & Heq & Hb' & Ht' & Hs' & Hd & Hc);
    [constructor | intros _; reflexivity | left; simpl; lia |].
  simpl map in Heq. simpl String.concat in Heq. rewrite Heq.
  simpl in Hc.
  destruct (truthy (String.concat nn curb')) eqn:Ecur.
  - exists (blocks' ++ [curb']). rewrite map_app. simpl map.
    repeat split; auto.
    + apply Forall_app. split; auto. constructor; auto.
      split; [|assumption]. intros ->. discriminate.
    + rewrite concat_app. simpl. rewrite app_nil_r. now rewrite Hc.
  - exists blocks'. repeat split; auto.
    rewrite (Ht' Ecur), app_nil_r in Hc. now rewrite Hc.
Qed.

Lemma chunkContent_small (c : string) (m : Z) :
  (len c <= m)%Z -> chunkContent c m = [c].
Proof.
  intros Hle. unfold chunkContent.
  destruct (len c <=? m)%Z eqn:E; [reflexivity | lia].
Qed.

Lemma chunkContent_join (c : string) (m : Z) :
  Forall (fun w => w = nn) (separators c) ->
  Forall (fun p => p <> "") (paragraphs c) ->
  String.concat nn (chunkContent c m) = c.
Proof.
  intros Hsep Hpar.
  destruct (Z_le_gt_dec (len c) m) as [Hle|Hgt].
  - now rewrite chunkContent_small.
  - destruct (chunkContent_blocks c m) as (blocks & -> & Hb & Hd); [lia|].
    rewrite join_blocks by (eapply List.Forall_impl; [|exact Hb]; now intros b [H _]).
    rewrite (dropsEmpty_nonempty _ _ Hd Hpar).
    now apply join_paragraphs.
Qed.

Lemma dropsEmpty_In (ps kept : list string) (p : string) :
  dropsEmpty ps kept -> In p kept -> In p ps.
Proof.
  induction 1 as [|q l l' _ IH|l l' _ IH]; simpl; intuition.
Qed.

(** What the code does guarantee on sizes: above the threshold, a segment
    is a paragraph of the text, or is at most [m + 2] characters long. *)
Lemma chunkContent_segment_bound (c : string) (m : Z) :
  (m < len c)%Z ->
  Forall (fun segment => In segment (paragraphs c) \/ (len segment <= m + 2)%Z)
    (chunkContent c m).
Proof.
  intros Hlt.
  destruct (chunkContent_blocks c m Hlt) as (blocks & -> & Hb & Hd).
  apply List.Forall_forall. intros segment Hin.
  apply in_map_iff in Hin as (b & <- & Hin).
  rewrite List.Forall_forall in Hb. destruct (Hb b Hin) as [Hne [Hone|Hlen]].
  - left. destruct b as [|p [|q b]]; [congruence | | simpl in Hone; lia].
    simpl. apply (dropsEmpty_In _ _ _ Hd).
    apply in_concat. exists [p]. split; [assumption | now left].
  - now right.
Qed.

(** C6.  A segment that [chunkContent] forms from more than one paragraph can
    be longer than [maxChunkLength]: the test before appending measures
    [currentChunk + paragraph] without the two characters of the separator
    that the append then inserts.  Here the text has the two paragraphs "ab"
    and "cde"; with [maxChunkLength = 5] the only segment returned is the
    whole text, of length 7. *)
Theorem chunkContent_separator_overflow :
  let c := "ab" +:+ nn +:+ "cde" in
  paragraphs c = ["ab"; "cde"]
  /\ chunkContent c 5 = [String.concat nn ["ab"; "cde"]]
  /\ len (String.concat nn ["ab"; "cde"]) = 7%Z.
Proof. vm_compute. repeat split; reflexivity. Qed.

(** C7, as the claim states it, fails: a blank-line separator that is not
    exactly two line feeds is replaced by ["\n\n"].  The text is "a", three
    line feeds, "bc". *)
Lemma chunkContent_join_counterexample :
  let c := "a" +:+ String LF nn +:+ "bc" in
  String.concat nn (chunkContent c 3) <> c.
Proof. vm_compute. discriminate. Qed.

(** C7 (amended).  [chunkContent c m] is the single segment [c] when
    [c.length <= m].  Otherwise every segment is the ["\n\n"]-join of a
    non-empty block of consecutive paragraphs of [c], the blocks in order
    holding all paragraphs except possibly empty ones, so that no segment
    boundary falls inside a paragraph.  Joining the segments with ["\n\n"]
    gives [c] back when every blank-line separator of [c] is exactly
    ["\n\n"] and no paragraph of [c] is empty. *)
Theorem chunkContent_paragraph_blocks (c : string) (m : Z) :
  (if (len c <=? m)%Z then chunkContent c m = [c]
   else exists blocks,
       chunkContent c m = map (String.concat nn) blocks
       /\ Forall (fun b => b <> []) blocks
       /\ dropsEmpty (paragraphs c) (concat blocks))
  /\ (Forall (fun w => w = nn) (separators c) ->
      Forall (fun p => p <> "") (paragraphs c) ->
      String.concat nn (chunkContent c m) = c).
Proof.
  split.
  - destruct (len c <=? m)%Z eqn:E.
    + apply chunkContent_small. lia.
    + destruct (chunkContent_blocks c m) as (blocks & Heq & Hb & Hd); [lia|].
      exists blocks. repeat split; auto.
      eapply List.Forall_impl; [|exact Hb]. now intros b [H _].
  - apply chunkContent_join.
Qed.

Lemma chunkContent_paragraph_blocks_witness :
  let c := "ab" +:+ nn +:+ "cde" +:+ nn +:+ "fg" in
  String.concat nn (chunkContent c 5) = c.
Proof.
  intros c. apply (proj2 (chunkContent_paragraph_blocks c 5)).
  - vm_compute. repeat constructor.
  - vm_compute. repeat constructor; discriminate.
Defined.

(** *** Sorting by score, and [slice] *)

Lemma Qgtb_true (x y : Q) : Qgtb x y = true <-> (y < x)%Q.
Proof.
  unfold Qgtb. rewrite negb_true_iff. split.
  - intros H. apply Qnot_le_lt. intros Hle.
    apply Qle_bool_iff in Hle. congruence.
  - intros H. destruct (Qle_bool x y) eqn:E; [|reflexivity].
    apply Qle_bool_iff in E. exfalso. now apply (Qlt_not_le y x).
Qed.

Lemma Qgtb_false (x y : Q) : Qgtb x y = false <-> (x <= y)%Q.
Proof.
  unfold Qgtb. rewrite negb_false_iff. apply Qle_bool_iff.
Qed.

Lemma byScoreDescending_pos (a b : SearchResult) :
  Qgtb (byScoreDescending a b) 0 = true
  <-> (relevanceScore a < relevanceScore b)%Q.
Proof.
  rewrite Qgtb_true. unfold byScoreDescending. split; intros H; lra.
Qed.

Lemma insertSorted_In {A} (cmp : A -> A -> Q) (x y : A) (l : list A) :
  In y (insertSorted cmp x l) <-> y = x \/ In y l.
Proof.
  induction l as [|z l IH]; simpl.
  - intuition.
  - destruct (Qgtb (cmp x z) 0); simpl; rewrite ?IH; intuition.
Qed.

Lemma sortBy_In {A} (cmp : A -> A -> Q) (y : A) (l : list A) :
  In y (sortBy cmp l) <-> In y l.
Proof.
  induction l as [|x l IH]; simpl; [tauto|].
  rewrite insertSorted_In, IH. intuition.
Qed.

Lemma sortBy_length {A} (cmp : A -> A -> Q) (l : list A) :
  length (sortBy cmp l) = length l.
Proof.
  assert (Hins : forall x l', length (insertSorted cmp x l') = S (length l')).
  { intros x l'. induction l' as [|z l' IH]; simpl; [reflexivity|].
    destruct (Qgtb (cmp x z) 0); simpl; now rewrite ?IH. }
  induction l as [|x l IH]; simpl; [reflexivity|].
  now rewrite Hins, IH.
Qed.

Lemma insertSorted_sorted (x : SearchResult) (l : list SearchResult) :
  StronglySorted scoreGe l ->
  StronglySorted scoreGe (insertSorted byScoreDescending x l).
Proof.
  induction 1 as [|z l Hs IH Hz]; simpl.
  - repeat constructor.
  - destruct (Qgtb (byScoreDescending x z) 0) eqn:E.
    + apply byScoreDescending_pos in E.
      constructor; [assumption|].
      apply List.Forall_forall. intros y Hy.
      apply insertSorted_In in Hy as [->|Hy].
      * unfold scoreGe. now apply Qlt_le_weak.
      * rewrite List.Forall_forall in Hz. now apply Hz.
    + apply Qgtb_false in E. unfold byScoreDescending in E.
      assert (Hxz : scoreGe x z).
      { unfold scoreGe. lra. }
      constructor; [now constructor|].
      constructor; [assumption|].
      apply List.Forall_forall. intros y Hy.
      rewrite List.Forall_forall in Hz. unfold scoreGe in *.
      eapply Qle_trans; [apply (Hz y Hy) | exact Hxz].
Qed.

Lemma sortBy_sorted (l : list SearchResult) :
  StronglySorted scoreGe (sortBy byScoreDescending l).
Proof.
  induction l as [|x l IH]; simpl; [constructor|].
  now apply insertSorted_sorted.
Qed.

Lemma firstn_In {A} (n : nat) (l : list A) (y : A) :
  In y (firstn n l) -> In y l.
Proof.
  revert n. induction l as [|z l IH]; intros [|n]; simpl; intuition eauto.
Qed.

Lemma firstn_sorted {A} (R : A -> A -> Prop) (n : nat) (l : list A) :
  StronglySorted R l -> StronglySorted R (firstn n l).
Proof.
  intros Hs. revert n. induction Hs as [|x l Hs IH Hx]; intros n.
  - destruct n; constructor.
  - destruct n; simpl; constructor; [apply IH|].
    rewrite List.Forall_forall in *. intros y Hy. apply Hx.
    eapply firstn_In; eauto.
Qed.

Lemma slice0_In {A} (l : list A) (e : Z) (y : A) :
  In y (slice0 l e) -> In y l.
Proof. apply firstn_In. Qed.

Lemma slice0_length {A} (l : list A) (e : Z) :
  (0 <= e)%Z -> (Z.of_nat (length (slice0 l e)) <= e)%Z.
Proof.
  intros He. unfold slice0.
  destruct (e <? 0)%Z eqn:E; [lia|].
  pose proof (firstn_le_length (Z.to_nat e) l). lia.
Qed.

(** A negative [e] drops the last [-e] elements. *)
Lemma slice0_length_neg {A} (l : list A) (e : Z) :
  (e < 0)%Z ->
  length (slice0 l e) = Z.to_nat (Z.of_nat (length l) + e).
Proof.
  intros He. unfold slice0.
  destruct (e <? 0)%Z eqn:E; [|lia].
  rewrite length_firstn. lia.
Qed.

(** *** Semantic search *)

Lemma find_none_resolves (kb : list KnowledgeDocument) (entry : VectorStoreEntry) :
  find (fun d => String.eqb (id d) (entryDocumentId entry)) kb = None
  <-> resolves kb entry = false.
Proof.
  unfold resolves. induction kb as [|d kb IH]; simpl; [tauto|].
  destruct (String.eqb (id d) (entryDocumentId entry)); simpl; [|exact IH].
  split; discriminate.
Qed.

Lemma scoreEntry_unresolved rt kb query v entry :
  resolves kb entry = false -> scoreEntry rt kb query v entry = None.
Proof.
  intros H. unfold scoreEntry.
  apply find_none_resolves in H. now rewrite H.
Qed.

Lemma scoreEntry_resolved rt kb query v entry r :
  scoreEntry rt kb query v entry = Some r ->
  documentId r = entryDocumentId entry
  /\ exists doc, In doc kb /\ id doc = documentId r.
Proof.
  unfold scoreEntry.
  destruct (find _ kb) as [doc|] eqn:E; [|discriminate].
  intros H. inversion H; subst; simpl. split; [reflexivity|].
  apply find_some in E as [Hin Heq]. apply String.eqb_eq in Heq. eauto.
Qed.

(** Entries without a document do not take part in the ranking. *)
Lemma scored_resolved_only rt kb query v (vs : list VectorStoreEntry) :
  nonNull (map (scoreEntry rt kb query v) vs)
  = nonNull (map (scoreEntry rt kb query v) (List.filter (resolves kb) vs)).
Proof.
  induction vs as [|entry vs IH]; [reflexivity|].
  simpl. destruct (resolves kb entry) eqn:E; simpl.
  - destruct (scoreEntry rt kb query v entry); now rewrite IH.
  - now rewrite (scoreEntry_unresolved _ _ _ _ _ E).
Qed.

Lemma nonNull_In {A} (l : list (option A)) (x : A) :
  In x (nonNull l) <-> In (Some x) l.
Proof.
  induction l as [|[y|] l IH]; simpl; [tauto| |].
  - rewrite IH. split; intros [H|H]; auto; left; congruence.
  - rewrite IH. split; [auto|]. intros [H|H]; [discriminate | auto].
Qed.

Lemma rankEntries_In rt kb vs query v maxResults r :
  In r (rankEntries rt kb vs query v maxResults) ->
  (20 < relevanceScore r)%Q
  /\ exists entry, In entry vs /\ scoreEntry rt kb query v entry = Some r.
Proof.
  unfold rankEntries. intros H.
  apply slice0_In, sortBy_In, filter_In in H as [Hin Hgt].
  apply Qgtb_true in Hgt. split; [assumption|].
  apply nonNull_In, in_map_iff in Hin as (entry & Heq & Hin). eauto.
Qed.

Lemma semanticSearch_run rt query maxResults st :
  semanticSearch rt query maxResults st
  = (match embeddings_create rt (log st) query with
     | Ok v => Ok (rankEntries rt (knowledgeBase st) (vectorStore st) query v
                     maxResults)
     | Throw e => Throw e
     end,
     snd (record (EvEmbedding query) st)).
Proof.
  unfold semanticSearch, bind, call, getState, ret.
  destruct (embeddings_create rt (log st) query); reflexivity.
Qed.

(** C2 (amended).  When the embedding of the query is obtained,
    [semanticSearch] returns a list (never an error) in which every
    [relevanceScore] is strictly greater than 20, which is sorted in
    descending order of [relevanceScore], and whose length is at most
    [maxResults] provided [maxResults] is not negative.  Vector-store entries
    whose [documentId] has no document in the knowledge base are dropped:
    the result is the one computed from the other entries alone, and every
    result names a document of the knowledge base. *)
Theorem semanticSearch_ranked (rt : Runtime) (st : State) (query : string)
  (maxResults : Z) (queryEmbedding : list Q) :
  embeddings_create rt (log st) query = Ok queryEmbedding ->
  exists results,
    fst (semanticSearch rt query maxResults st) = Ok results
    /\ Forall (fun r => (20 < relevanceScore r)%Q) results
    /\ StronglySorted scoreGe results
    /\ ((0 <= maxResults)%Z -> (Z.of_nat (length results) <= maxResults)%Z)
    /\ results
       = rankEntries rt (knowledgeBase st)
           (List.filter (resolves (knowledgeBase st)) (vectorStore st))
           query queryEmbedding maxResults
    /\ Forall (fun r => exists doc,
                   In doc (knowledgeBase st) /\ id doc = documentId r) results.
Proof.
  intros Hembed. rewrite semanticSearch_run, Hembed. simpl fst.
  eexists. split; [reflexivity|].
  repeat split.
  - apply List.Forall_forall. intros r Hr. now apply rankEntries_In in Hr.
  - unfold rankEntries, slice0. apply firstn_sorted, sortBy_sorted.
  - intros Hpos. unfold rankEntries. now apply slice0_length.
  - unfold rankEntries. now rewrite scored_resolved_only.
  - apply List.Forall_forall. intros r Hr.
    apply rankEntries_In in Hr as (_ & entry & _ & Hscore).
    now apply scoreEntry_resolved in Hscore.
Qed.

(** *** The computation monad *)

Lemma bind_Ok {A B} (m : M A) (k : A -> M B) st a st1 :
  m st = (Ok a, st1) -> bind m k st = k a st1.
Proof. intros H. unfold bind. now rewrite H. Qed.

Lemma bind_Throw {A B} (m : M A) (k : A -> M B) st e st1 :
  m st = (Throw e, st1) -> bind m k st = (Throw e, st1).
Proof. intros H. unfold bind. now rewrite H. Qed.


Lemma tryCatch_Throw {A} (m : M A) (h : JSError -> M A) st e st1 :
  m st = (Throw e, st1) -> tryCatch m h st = h e st1.
Proof. intros H. unfold tryCatch. now rewrite H. Qed.

(** Inversion of a successful [bind]. *)
Lemma bind_inv_Ok {A B} (m : M A) (k : A -> M B) st b st' :
  bind m k st = (Ok b, st') ->
  exists a st1, m st = (Ok a, st1) /\ k a st1 = (Ok b, st').
Proof.
  unfold bind. destruct (m st) as [[a|e] st1]; [eauto | discriminate].
Qed.

(** *** The conversation turn *)

(** The proactive retrieval absorbs its errors. *)
Lemma retrieveRelevantInfo_total rt userMessage st :
  exists info st1, retrieveRelevantInfo rt userMessage st = (Ok info, st1).
Proof.
  unfold retrieveRelevantInfo.
  destruct (looksInformational userMessage); [|unfold ret; eauto].
  unfold tryCatch, bind. rewrite semanticSearch_run.
  destruct (embeddings_create rt (log st) userMessage); unfold getState, ret; eauto.
Qed.

(** The turn, step by step. *)
Lemma turn_run rt userMessage conversationHistory st info st1 :
  retrieveRelevantInfo rt userMessage st = (Ok info, st1) ->
  turn rt userMessage conversationHistory st
  = match complete rt (firstPrompt rt userMessage conversationHistory info)
            (Some functions) (Some "auto") st1 with
    | (Throw e, st2) => (Throw e, st2)
    | (Ok first, st2) =>
        match completionToolCalls first with
        | None =>
            (Ok (answered conversationHistory userMessage
                   (orEmpty (completionContent first))), st2)
        | Some toolCalls =>
            match runToolCalls rt
                    (withToolCallRequest
                       (firstPrompt rt userMessage conversationHistory info)
                       first toolCalls) toolCalls st2 with
            | (Throw e, st3) => (Throw e, st3)
            | (Ok messages, st3) =>
                match complete rt messages None None st3 with
                | (Throw e, st4) => (Throw e, st4)
                | (Ok second, st4) =>
                    (Ok (answered conversationHistory userMessage
                           (orEmpty (completionContent second))), st4)
                end
            end
        end
    end.
Proof.
  intros Hret. unfold turn. rewrite (bind_Ok _ _ _ _ _ Hret).
  fold (firstPrompt rt userMessage conversationHistory info).
  unfold bind at 1.
  destruct (complete rt _ (Some functions) (Some "auto") st1) as [[first|e] st2];
    [|reflexivity].
  destruct (completionToolCalls first) as [toolCalls|]; [|reflexivity].
  fold (withToolCallRequest (firstPrompt rt userMessage conversationHistory info)
          first toolCalls).
  unfold bind.
  destruct (runToolCalls rt _ toolCalls st2) as [[messages|e] st3]; [|reflexivity].
  destruct (complete rt messages None None st3) as [[second|e] st4]; reflexivity.
Qed.


(** A turn that completes returns an answer built by [answered]. *)
Lemma turn_Ok_answered rt userMessage conversationHistory st r st' :
  turn rt userMessage conversationHistory st = (Ok r, st') ->
  exists answer, r = answered conversationHistory userMessage answer.
Proof.
  destruct (retrieveRelevantInfo_total rt userMessage st) as (info & st1 & Hret).
  rewrite (turn_run _ _ _ _ _ _ Hret).
  destruct (complete rt _ (Some functions) (Some "auto") st1) as [[first|e] st2];
    [|discriminate].
  destruct (completionToolCalls first) as [toolCalls|].
  - destruct (runToolCalls rt _ toolCalls st2) as [[messages|e] st3];
      [|discriminate].
    destruct (complete rt messages None None st3) as [[second|e] st4];
      [|discriminate].
    intros H; inversion H; eauto.
  - intros H; inversion H; eauto.
Qed.


(** *** The log *)

Lemma chatRequests_app (l1 l2 : list Event) :
  chatRequests (l1 ++ l2) = chatRequests l1 ++ chatRequests l2.
Proof. apply flat_map_app. Qed.

Lemma call_run {A} (ev : Event) (oracle : list Event -> Result A) st :
  call ev oracle st
  = (oracle (log st),
     {| knowledgeBase := knowledgeBase st; vectorStore := vectorStore st;
        files := files st; log := log st ++ [ev] |}).
Proof. reflexivity. Qed.

Lemma quiet_ret {A} (a : A) : quiet (ret a).
Proof. intros st. reflexivity. Qed.

Lemma quiet_throw {A} (e : JSError) : quiet (@throw A e).
Proof. intros st. reflexivity. Qed.

Lemma quiet_liftR {A} (r : Result A) : quiet (liftR r).
Proof. intros st. reflexivity. Qed.

Lemma quiet_getState : quiet getState.
Proof. intros st. reflexivity. Qed.

Lemma quiet_bind {A B} (m : M A) (k : A -> M B) :
  quiet m -> (forall a, quiet (k a)) -> quiet (bind m k).
Proof.
  intros Hm Hk st. unfold bind. specialize (Hm st).
  destruct (m st) as [[a|e] st1]; simpl in *; [|assumption].
  now rewrite Hk.
Qed.

Lemma quiet_tryCatch {A} (m : M A) (h : JSError -> M A) :
  quiet m -> (forall e, quiet (h e)) -> quiet (tryCatch m h).
Proof.
  intros Hm Hh st. unfold tryCatch. specialize (Hm st).
  destruct (m st) as [[a|e] st1]; simpl in *; [assumption|].
  now rewrite Hh.
Qed.

Lemma quiet_call {A} (ev : Event) (oracle : list Event -> Result A) :
  (forall request, ev <> EvChat request) -> quiet (call ev oracle).
Proof.
  intros Hev st. rewrite call_run. simpl.
  rewrite chatRequests_app. simpl.
  destruct ev; try (now rewrite app_nil_r). now destruct (Hev request).
Qed.

Create HintDb quiet.

#[local] Hint Resolve quiet_ret quiet_throw quiet_liftR quiet_getState : quiet.

Lemma quiet_semanticSearch rt query maxResults :
  quiet (semanticSearch rt query maxResults).
Proof.
  unfold semanticSearch. apply quiet_bind; [now apply quiet_call|].
  intros v. apply quiet_bind; auto with quiet.
Qed.

Lemma quiet_callFunction rt functionName args :
  quiet (callFunction rt functionName args).
Proof.
  assert (Hill : forall f a, quiet (illTyped rt f a))
    by (intros; now apply quiet_call).
  assert (Hkb : forall q n, quiet (searchKB rt q n)).
  { intros. apply quiet_tryCatch; [apply quiet_semanticSearch|].
    intros _. apply quiet_bind; auto with quiet. }
  unfold callFunction.
  destruct (String.eqb functionName "searchKnowledgeBase").
  { unfold searchKnowledgeBase.
    destruct args as [| | | | |members]; auto.
    destruct (member "query" members) as [[| | |query| |]|]; auto.
    destruct (member "maxResults" members) as [[| |n| | |]|]; auto;
      apply quiet_bind; auto with quiet. }
  destruct (String.eqb functionName "getDocumentContent").
  { unfold getDocumentContent.
    destruct args as [| | | | |members]; auto.
    destruct (member "documentId" members) as [[| | |documentId| |]|]; auto.
    unfold getDocument. apply quiet_bind; auto with quiet.
    intros st'. destruct (find _ _); auto with quiet. }
  destruct (isCalendarFunction functionName); [|auto with quiet].
  unfold calendarFunction.
  destruct args; auto with quiet;
    (apply quiet_tryCatch; [now apply quiet_call | auto with quiet]).
Qed.

(** *** The tool-call loop *)

Lemma runToolCall_parsed rt messages toolCall st args :
  JSON_parse rt (functionArguments toolCall) = Ok args ->
  runToolCall rt messages toolCall st
  = (Ok (messages
         ++ [toolMessage (callId toolCall)
               (JSON_stringify rt
                  (payloadOf
                     (fst (callFunction rt (functionName toolCall) args st))))]),
     snd (callFunction rt (functionName toolCall) args st)).
Proof.
  intros Hparse. unfold runToolCall, bind, liftR, tryCatch. rewrite Hparse.
  destruct (callFunction rt (functionName toolCall) args st) as [[v|e] st1];
    reflexivity.
Qed.

Lemma runToolCall_unparsable rt messages toolCall st e :
  JSON_parse rt (functionArguments toolCall) = Throw e ->
  runToolCall rt messages toolCall st = (Throw e, st).
Proof.
  intros Hparse. unfold runToolCall, bind, liftR. now rewrite Hparse.
Qed.

Lemma runToolCalls_app rt messages before after st messages' st' :
  runToolCalls rt messages before st = (Ok messages', st') ->
  runToolCalls rt messages (before ++ after) st
  = runToolCalls rt messages' after st'.
Proof.
  revert messages st. induction before as [|toolCall before IH];
    intros messages st H; simpl in *.
  - unfold ret in H. now inversion H.
  - apply bind_inv_Ok in H as (m1 & st1 & H1 & H2).
    rewrite (bind_Ok _ _ _ _ _ H1). now apply IH.
Qed.


(** A completed loop only appends messages, all of them tool messages. *)
Lemma runToolCalls_extends rt toolCalls :
  forall messages st messages' st',
    runToolCalls rt messages toolCalls st = (Ok messages', st') ->
    exists results,
      messages' = messages ++ results
      /\ map tool_call_id results = map (fun tc => Some (callId tc)) toolCalls
      /\ Forall (fun m => role m = tool /\ tool_calls m = None) results.
Proof.
  induction toolCalls as [|toolCall rest IH]; intros messages st messages' st' H;
    simpl in H.
  - inversion H; subst. exists []. rewrite app_nil_r. repeat split; constructor.
  - apply bind_inv_Ok in H as (m1 & st1 & H1 & H2).
    destruct (JSON_parse rt (functionArguments toolCall)) as [args|e] eqn:Hparse.
    + rewrite (runToolCall_parsed _ _ _ _ _ Hparse) in H1. inversion H1; subst.
      apply IH in H2 as (results & -> & Hids & Hroles).
      eexists (_ :: results). rewrite <- app_assoc. simpl.
      repeat split; [now rewrite Hids | constructor; auto].
    + rewrite (runToolCall_unparsable _ _ _ _ _ Hparse) in H1. discriminate.
Qed.

Lemma quiet_runToolCalls rt toolCalls :
  forall messages, quiet (runToolCalls rt messages toolCalls).
Proof.
  induction toolCalls as [|toolCall rest IH]; intros messages; simpl.
  - auto with quiet.
  - apply quiet_bind; [|auto]. unfold runToolCall.
    apply quiet_bind; [auto with quiet|]. intros args.
    apply quiet_tryCatch.
    + apply quiet_bind; [apply quiet_callFunction | auto with quiet].
    + auto with quiet.
Qed.


(** *** Completion requests *)

Lemma mapR_app_inv {A B} (f : A -> Result B) (l1 l2 : list A) (l : list B) :
  mapR f (l1 ++ l2) = Ok l ->
  exists r1 r2, mapR f l1 = Ok r1 /\ mapR f l2 = Ok r2 /\ l = r1 ++ r2.
Proof.
  revert l. induction l1 as [|x l1 IH]; intros l H; simpl in *.
  - exists [], l. auto.
  - destruct (f x) as [y|e]; simpl in *; [|discriminate].
    destruct (mapR f (l1 ++ l2)) as [ys|e] eqn:E; simpl in *; [|discriminate].
    inversion H; subst.
    destruct (IH ys eq_refl) as (r1 & r2 & -> & -> & ->).
    exists (y :: r1), r2. auto.
Qed.

Lemma mapR_Forall {A B} (f : A -> Result B) (P : B -> Prop) (l : list A) :
  (forall x y, f x = Ok y -> P y) ->
  forall r, mapR f l = Ok r -> Forall P r.
Proof.
  intros Hf. induction l as [|x l IH]; intros r H; simpl in H.
  - inversion H. constructor.
  - destruct (f x) as [y|e] eqn:Ex; simpl in H; [|discriminate].
    destruct (mapR f l) as [ys|e]; simpl in H; [|discriminate].
    inversion H; subst. constructor; eauto.
Qed.

(** [convertToOpenAIMessage] never passes tool-call requests on. *)
Lemma convertToOpenAIMessage_drops_tool_calls (message : Message)
  (param : OpenAIMessage) :
  convertToOpenAIMessage message = Ok param -> paramToolCalls param = None.
Proof.
  unfold convertToOpenAIMessage.
  destruct (role message); try (intros H; inversion H; reflexivity).
  destruct (tool_call_id message) as [i|]; [|discriminate].
  destruct (truthy i); [|discriminate].
  intros H; inversion H; reflexivity.
Qed.

Lemma convertToOpenAIMessage_assistant (message : Message) :
  role message = assistant ->
  convertToOpenAIMessage message
  = Ok (simpleParam assistant (messageContent message)).
Proof. unfold convertToOpenAIMessage. now intros ->. Qed.

(** What a call of [complete] does: it converts the messages, records the
    request and asks the completion service. *)
Lemma complete_run rt messages tools toolChoice st :
  complete rt messages tools toolChoice st
  = match mapR convertToOpenAIMessage messages with
    | Throw e => (Throw e, st)
    | Ok params =>
        let request := {| requestMessages := params; requestTools := tools;
                          requestToolChoice := toolChoice |} in
        (bindR (chat_completions_create rt (log st) request) firstMessage,
         {| knowledgeBase := knowledgeBase st; vectorStore := vectorStore st;
            files := files st; log := log st ++ [EvChat request] |})
    end.
Proof.
  unfold complete, bind, liftR.
  destruct (mapR convertToOpenAIMessage messages) as [params|e]; [|reflexivity].
  rewrite call_run.
  destruct (chat_completions_create rt (log st) _) as [completion|e];
    [|reflexivity].
  simpl. destruct (firstMessage completion); reflexivity.
Qed.

Lemma complete_Ok_log rt messages tools toolChoice st m st' :
  complete rt messages tools toolChoice st = (Ok m, st') ->
  exists params,
    mapR convertToOpenAIMessage messages = Ok params
    /\ log st' = log st ++ [EvChat {| requestMessages := params;
                                      requestTools := tools;
                                      requestToolChoice := toolChoice |}].
Proof.
  rewrite complete_run.
  destruct (mapR convertToOpenAIMessage messages) as [params|e]; [|discriminate].
  intros H. inversion H; subst. eauto.
Qed.

Lemma quiet_retrieveRelevantInfo rt userMessage :
  quiet (retrieveRelevantInfo rt userMessage).
Proof.
  unfold retrieveRelevantInfo.
  destruct (looksInformational userMessage); [|auto with quiet].
  apply quiet_tryCatch; [|auto with quiet].
  apply quiet_bind; [apply quiet_semanticSearch|].
  intros results. apply quiet_bind; auto with quiet.
Qed.

(** The loop throws only when an argument string does not parse. *)
Lemma runToolCalls_Throw_inv rt toolCalls :
  forall messages st e st',
    runToolCalls rt messages toolCalls st = (Throw e, st') ->
    exists before toolCall after,
      toolCalls = before ++ toolCall :: after
      /\ JSON_parse rt (functionArguments toolCall) = Throw e.
Proof.
  induction toolCalls as [|toolCall rest IH]; intros messages st e st' H;
    simpl in H; [discriminate|].
  destruct (JSON_parse rt (functionArguments toolCall)) as [args|e0] eqn:Hparse.
  - rewrite (bind_Ok _ _ _ _ _ (runToolCall_parsed _ _ _ _ _ Hparse)) in H.
    apply IH in H as (before & tc & after & -> & Htc).
    exists (toolCall :: before), tc, after. auto.
  - rewrite (bind_Throw _ _ _ _ _ (runToolCall_unparsable _ _ _ _ _ Hparse)) in H.
    inversion H; subst. exists [], toolCall, rest. auto.
Qed.

(** C1 (amended).  When an error escapes the [try] block of the turn, as an
    error of the first or of the second completion request does,
    [chatWithBot] returns the fixed apology together with the
    [conversationHistory] passed in, whatever the error is.  An escaping
    error arises in the first completion request, in the tool-call loop or
    in the second completion request.  Errors of the proactive retrieval and
    errors thrown by a tool handler do not escape: the retrieval always
    completes, and a tool call whose arguments parse always yields a tool
    message. *)
Theorem chatWithBot_failure (rt : Runtime) (userMessage : string)
  (conversationHistory : list Message) (st st' : State) (e : JSError) :
  turn rt userMessage conversationHistory st = (Throw e, st') ->
  chatWithBot rt userMessage conversationHistory st
  = (Ok {| response := apology; updatedHistory := conversationHistory |}, st')
  /\ (exists info st1,
         let prompt := firstPrompt rt userMessage conversationHistory info in
         retrieveRelevantInfo rt userMessage st = (Ok info, st1)
         /\ (complete rt prompt (Some functions) (Some "auto") st1
             = (Throw e, st')
             \/ exists first st2 toolCalls,
                 complete rt prompt (Some functions) (Some "auto") st1
                 = (Ok first, st2)
                 /\ completionToolCalls first = Some toolCalls
                 /\ (runToolCalls rt
                       (withToolCallRequest prompt first toolCalls)
                       toolCalls st2 = (Throw e, st')
                     \/ exists messages st3,
                         runToolCalls rt
                           (withToolCallRequest prompt first toolCalls)
                           toolCalls st2 = (Ok messages, st3)
                         /\ complete rt messages None None st3
                            = (Throw e, st'))))
  /\ (forall info st1 e1 st2,
         retrieveRelevantInfo rt userMessage st = (Ok info, st1) ->
         complete rt (firstPrompt rt userMessage conversationHistory info)
           (Some functions) (Some "auto") st1 = (Throw e1, st2) ->
         turn rt userMessage conversationHistory st = (Throw e1, st2))
  /\ (forall info st1 first st2 toolCalls messages st3 e2 st4,
         let prompt := firstPrompt rt userMessage conversationHistory info in
         retrieveRelevantInfo rt userMessage st = (Ok info, st1) ->
         complete rt prompt (Some functions) (Some "auto") st1
         = (Ok first, st2) ->
         completionToolCalls first = Some toolCalls ->
         runToolCalls rt (withToolCallRequest prompt first toolCalls)
           toolCalls st2 = (Ok messages, st3) ->
         complete rt messages None None st3 = (Throw e2, st4) ->
         turn rt userMessage conversationHistory st = (Throw e2, st4))
  /\ (forall messages toolCall args st2,
         JSON_parse rt (functionArguments toolCall) = Ok args ->
         exists m st3,
           runToolCall rt messages toolCall st2 = (Ok (messages ++ [m]), st3)).
Proof.
  intros Hturn. split; [|split; [|split; [|split]]].
  - unfold chatWithBot. now rewrite (tryCatch_Throw _ _ _ _ _ Hturn).
  - destruct (retrieveRelevantInfo_total rt userMessage st)
      as (info & st1 & Hret).
    exists info, st1. cbv zeta. split; [exact Hret|].
    rewrite (turn_run _ _ _ _ _ _ Hret) in Hturn.
    destruct (complete rt _ (Some functions) (Some "auto") st1)
      as [[first|e1] st2]; [|left; inversion Hturn; reflexivity].
    right. exists first, st2.
    destruct (completionToolCalls first) as [toolCalls|]; [|discriminate].
    exists toolCalls. repeat split.
    destruct (runToolCalls rt _ toolCalls st2) as [[messages|e2] st3] eqn:Hloop.
    + right. exists messages, st3. split; [reflexivity|].
      destruct (complete rt messages None None st3) as [[second|e3] st4];
        [discriminate | inversion Hturn; reflexivity].
    + left. inversion Hturn; reflexivity.
  - intros info st1 e1 st2 Hret Hfirst.
    now rewrite (turn_run _ _ _ _ _ _ Hret), Hfirst.
  - intros info st1 first st2 toolCalls messages st3 e2 st4 prompt
      Hret Hfirst Hcalls Hloop Hsecond.
    rewrite (turn_run _ _ _ _ _ _ Hret). fold prompt.
    now rewrite Hfirst, Hcalls, Hloop, Hsecond.
  - intros messages toolCall args st2 Hparse.
    rewrite (runToolCall_parsed _ _ _ _ _ Hparse). eauto.
Qed.





(** What the code does with a call whose argument string is not valid
    JSON, within a turn whose first completion asks for tool calls: the
    parse error escapes the loop, no tool message is made for that call, the
    later calls are not run and no second completion is requested;
    [chatWithBot] returns the fixed apology with the [conversationHistory]
    passed in. *)
Lemma unparsable_arguments_end_turn (rt : Runtime) (userMessage : string)
  (conversationHistory : list Message) (st st1 st2 st3 : State)
  (info : string) (first : ChatCompletionMessage)
  (before after : list ToolCall) (toolCall : ToolCall)
  (messages : list Message) (e : JSError) :
  let prompt := firstPrompt rt userMessage conversationHistory info in
  let requested :=
    withToolCallRequest prompt first (before ++ toolCall :: after) in
  retrieveRelevantInfo rt userMessage st = (Ok info, st1) ->
  complete rt prompt (Some functions) (Some "auto") st1 = (Ok first, st2) ->
  completionToolCalls first = Some (before ++ toolCall :: after) ->
  runToolCalls rt requested before st2 = (Ok messages, st3) ->
  JSON_parse rt (functionArguments toolCall) = Throw e ->
  runToolCalls rt requested (before ++ toolCall :: after) st2 = (Throw e, st3)
  /\ turn rt userMessage conversationHistory st = (Throw e, st3)
  /\ chatWithBot rt userMessage conversationHistory st
     = (Ok {| response := apology; updatedHistory := conversationHistory |},
        st3)
  /\ exists firstRequest,
      requestTools firstRequest = Some functions
      /\ chatRequests (log st3) = chatRequests (log st) ++ [firstRequest].
Proof.
  intros prompt requested Hret Hfirst Hcalls Hbefore Hparse.
  assert (Hloop : runToolCalls rt requested (before ++ toolCall :: after) st2
                  = (Throw e, st3)).
  { rewrite (runToolCalls_app _ _ _ _ _ _ _ Hbefore). simpl.
    now rewrite (bind_Throw _ _ _ _ _ (runToolCall_unparsable _ _ _ _ _ Hparse)). }
  assert (Hturn : turn rt userMessage conversationHistory st = (Throw e, st3)).
  { rewrite (turn_run _ _ _ _ _ _ Hret). fold prompt. rewrite Hfirst, Hcalls.
    fold requested. now rewrite Hloop. }
  repeat split; auto.
  - unfold chatWithBot. now rewrite (tryCatch_Throw _ _ _ _ _ Hturn).
  - destruct (complete_Ok_log _ _ _ _ _ _ _ Hfirst) as (params & _ & Hlog).
    eexists. split; [|].
    2:{ pose proof (quiet_runToolCalls rt before requested st2) as Hq.
        rewrite Hbefore in Hq. simpl in Hq. rewrite Hq, Hlog.
        rewrite chatRequests_app. simpl.
        pose proof (quiet_retrieveRelevantInfo rt userMessage st) as Hq1.
        rewrite Hret in Hq1. simpl in Hq1. rewrite Hq1. reflexivity. }
    reflexivity.
Qed.

(** C10.  In a turn whose first completion asks for tool calls, the
    assistant's reply is appended to the live message list twice, first
    without and then with the tool-call requests.  The second completion
    request is made on the converted list, which holds the two copies side
    by side as assistant messages with the same content; no message of the
    request carries tool-call requests. *)
Theorem second_request_repeats_reply (rt : Runtime) (userMessage : string)
  (conversationHistory : list Message) (st st1 st2 st3 : State)
  (info : string) (first : ChatCompletionMessage) (toolCalls : list ToolCall)
  (messages : list Message) (params : list OpenAIMessage) :
  let prompt := firstPrompt rt userMessage conversationHistory info in
  let reply := orEmpty (completionContent first) in
  retrieveRelevantInfo rt userMessage st = (Ok info, st1) ->
  complete rt prompt (Some functions) (Some "auto") st1 = (Ok first, st2) ->
  completionToolCalls first = Some toolCalls ->
  runToolCalls rt (withToolCallRequest prompt first toolCalls) toolCalls st2
  = (Ok messages, st3) ->
  mapR convertToOpenAIMessage messages = Ok params ->
  (exists results,
      messages
      = prompt
        ++ [ plainMessage assistant reply;
             {| role := assistant; messageContent := reply;
                tool_call_id := None; name := None;
                tool_calls := Some toolCalls |} ]
        ++ results)
  /\ (exists pre post,
         params
         = pre ++ [simpleParam assistant reply; simpleParam assistant reply]
           ++ post)
  /\ Forall (fun p => paramToolCalls p = None) params
  /\ log (snd (turn rt userMessage conversationHistory st))
     = log st3 ++ [EvChat {| requestMessages := params;
                             requestTools := None;
                             requestToolChoice := None |}].
Proof.
  intros prompt reply Hret Hfirst Hcalls Hloop Hconv.
  assert (Hlog : log (snd (turn rt userMessage conversationHistory st))
                 = log st3 ++ [EvChat {| requestMessages := params;
                                         requestTools := None;
                                         requestToolChoice := None |}]).
  { rewrite (turn_run _ _ _ _ _ _ Hret). fold prompt.
    rewrite Hfirst, Hcalls, Hloop.
    rewrite complete_run, Hconv. cbv zeta.
    destruct (bindR _ firstMessage); reflexivity. }
  clearbody prompt.
  destruct (runToolCalls_extends _ _ _ _ _ _ Hloop) as (results & Hm & _ & _).
  unfold withToolCallRequest in Hm. fold reply in Hm.
  rewrite <- !app_assoc in Hm.
  change ([plainMessage assistant reply] ++ [?x] ++ results)
    with ([plainMessage assistant reply; x] ++ results) in Hm.
  split; [exists results; exact Hm|]. split.
  - rewrite Hm in Hconv.
    apply mapR_app_inv in Hconv as (pre & r2 & _ & H2 & ->).
    apply mapR_app_inv in H2 as (mid & post & Hmid & _ & ->).
    simpl in Hmid. inversion Hmid; subst. exists pre, post. reflexivity.
  - split; [|exact Hlog].
    eapply mapR_Forall; [|exact Hconv].
    apply convertToOpenAIMessage_drops_tool_calls.
Qed.

(** *** Example runs *)

(** C1, as the claim states it, fails for an error of the retrieval: the
    embedding request of the proactive search throws, and [chatWithBot]
    answers with the completion's content, not with the apology, and
    extends the history. *)
Lemma chatWithBot_retrieval_error_counterexample :
  fst (semanticSearch embeddingDown "What is the policy?" 3 demoState)
  = Throw (serviceDown "Embedding service unreachable")
  /\ fst (chatWithBot embeddingDown "What is the policy?" [] demoState)
     = Ok (answered [] "What is the policy?" "Hello.")
  /\ "Hello." <> apology.
Proof. vm_compute. repeat split; congruence. Qed.

Lemma chatWithBot_failure_witness :
  fst (chatWithBot brokenArguments "Is 10am free?" [] demoState)
  = Ok {| response := apology; updatedHistory := [] |}.
Proof.
  pose proof (chatWithBot_failure brokenArguments "Is 10am free?" [] demoState
                (snd (turn brokenArguments "Is 10am free?" [] demoState))
                notJSON) as H.
  destruct H as [H _]; [vm_compute; reflexivity|].
  now rewrite H.
Defined.



(** C5.  The first completion asks for one tool call whose argument string
    is "{", which [JSON.parse] rejects; the second completion would answer
    "Done.".  No tool message is made for the call and the turn does not go
    on to the second completion: [chatWithBot] returns the apology and the
    history passed in, after a single completion request. *)
Theorem unparsable_arguments_abort_turn :
  JSON_parse brokenArguments (functionArguments brokenCall) = Throw notJSON
  /\ fst (chatWithBot brokenArguments "Is 10am free?" [] demoState)
     = Ok {| response := apology; updatedHistory := [] |}
  /\ apology <> "Done."
  /\ length (chatRequests
               (log (snd (chatWithBot brokenArguments "Is 10am free?" []
                            demoState))))
     = 1%nat.
Proof. vm_compute. repeat split; congruence. Qed.

Example unparsable_arguments_end_turn_example :
  fst (turn brokenArguments "Is 10am free?" [] demoState) = Throw notJSON.
Proof.
  edestruct (unparsable_arguments_end_turn brokenArguments "Is 10am free?" []
               demoState)
    with (before := @nil ToolCall) (after := @nil ToolCall)
         (toolCall := brokenCall)
    as (_ & Hturn & _).
  - vm_compute. reflexivity.
  - vm_compute. reflexivity.
  - reflexivity.
  - reflexivity.
  - vm_compute. reflexivity.
  - now rewrite Hturn.
Defined.


Lemma second_request_repeats_reply_witness :
  exists params pre post,
    chatRequests (log (snd (turn calendarDown "Is 10am free?" [] demoState)))
    = chatRequests (log (snd (chatWithBot calendarDown "Is 10am free?" []
                                demoState)))
    /\ params = pre ++ [simpleParam assistant ""; simpleParam assistant ""] ++ post
    /\ Forall (fun p => paramToolCalls p = None) params.
Proof.
  edestruct (second_request_repeats_reply calendarDown "Is 10am free?" []
               demoState)
    as (_ & (pre & post & Hparams) & Hnone & _).
  - vm_compute. reflexivity.
  - vm_compute. reflexivity.
  - reflexivity.
  - vm_compute. reflexivity.
  - vm_compute. reflexivity.
  - eexists _, pre, post. split; [reflexivity|]. split; [exact Hparams|].
    exact Hnone.
Defined.

(** C2, as the claim states it, fails for a negative [maxResults]: two
    entries qualify, and [slice(0, -1)] keeps one of them. *)
Lemma semanticSearch_negative_maxResults_counterexample :
  exists results,
    fst (semanticSearch calendarDown "policy" (-1) demoState) = Ok results
    /\ length results = 1%nat
    /\ ~ (Z.of_nat (length results) <= -1)%Z.
Proof.
  eexists. split; [vm_compute; reflexivity|]. simpl. split; [reflexivity | lia].
Qed.

Lemma semanticSearch_ranked_witness :
  exists results,
    fst (semanticSearch calendarDown "policy" 3 demoState) = Ok results
    /\ StronglySorted scoreGe results
    /\ (Z.of_nat (length results) <= 3)%Z.
Proof.
  destruct (semanticSearch_ranked calendarDown demoState "policy" 3 [1; 0]%Q
              eq_refl)
    as (results & Hrun & _ & Hsorted & Hlen & _).
  exists results. repeat split; [exact Hrun | exact Hsorted | apply Hlen; lia].
Defined.

(** *** The persisted snapshot *)

Lemma mapO_map {A B} (f : A -> json) (g : json -> option B) (h : A -> B)
  (l : list A) :
  (forall x, g (f x) = Some (h x)) -> mapO g (map f l) = Some (map h l).
Proof.
  intros Hgf. induction l as [|x l IH]; simpl; [reflexivity|].
  now rewrite Hgf, IH.
Qed.

Lemma documentOf_documentJson (doc : KnowledgeDocument) :
  documentOf (documentJson doc) = Some doc.
Proof. destruct doc as [i t c [m|]]; reflexivity. Qed.

Lemma entryOf_entryJson (entry : VectorStoreEntry) :
  entryOf (entryJson entry) = Some entry.
Proof.
  destruct entry as [d v]. unfold entryJson, entryOf. simpl.
  rewrite (mapO_map JNumber numberOf (fun q => q)) by reflexivity.
  now rewrite map_id.
Qed.

Lemma documentsOf_json (documents : list KnowledgeDocument) :
  documentsOf (JArray (map documentJson documents)) = Some documents.
Proof.
  simpl. rewrite (mapO_map documentJson documentOf (fun d => d))
    by apply documentOf_documentJson.
  now rewrite map_id.
Qed.

Lemma entriesOf_json (entries : list VectorStoreEntry) :
  entriesOf (JArray (map entryJson entries)) = Some entries.
Proof.
  simpl. rewrite (mapO_map entryJson entryOf (fun e => e))
    by apply entryOf_entryJson.
  now rewrite map_id.
Qed.

(** Writing the snapshot, when the write succeeds. *)
Lemma persistKnowledgeBase_written rt documents entries st :
  fs_writeFile_error rt (log st) (vectorStorePath rt) = None ->
  let text :=
    JSON_stringify rt
      (persistedJson {| persistedKnowledgeBase := documents;
                        persistedVectorStore := entries;
                        timestamp := Date_toISOString rt (log st) |}) in
  persistKnowledgeBase rt (knowledgeBasePath rt) documents entries st
  = (Ok tt,
     {| knowledgeBase := knowledgeBase st;
        vectorStore := vectorStore st;
        files := <[vectorStorePath rt := text]> (files st);
        log := log st ++ [EvWriteFile (vectorStorePath rt) text] |}).
Proof.
  intros Hw text. unfold persistKnowledgeBase, tryCatch, bind, now, writeFile.
  fold (vectorStorePath rt). simpl. rewrite Hw. reflexivity.
Qed.

(** Restoring a snapshot that the JSON parser gives back. *)
Lemma restoreSnapshot_restores rt documents entries stamp st text :
  files st !! vectorStorePath rt = Some text ->
  JSON_parse rt text
  = Ok (persistedJson {| persistedKnowledgeBase := documents;
                         persistedVectorStore := entries;
                         timestamp := stamp |}) ->
  restoreSnapshot rt st = (Ok true, withKnowledge documents entries st).
Proof.
  intros Hfile Hparse.
  unfold restoreSnapshot, tryCatch, bind, readFile, liftR.
  rewrite Hfile, Hparse. unfold persistedJson. simpl.
  rewrite (mapO_map entryJson entryOf (fun e => e)) by apply entryOf_entryJson.
  rewrite (mapO_map documentJson documentOf (fun d => d))
    by apply documentOf_documentJson.
  rewrite !map_id. reflexivity.
Qed.

(** The restore path of [loadKnowledgeBase] calls no service. *)
Lemma restoreSnapshot_log rt st :
  log (snd (restoreSnapshot rt st)) = log st.
Proof.
  unfold restoreSnapshot, tryCatch, bind, readFile, liftR.
  destruct (files st !! vectorStorePath rt) as [text|]; [|reflexivity].
  destruct (JSON_parse rt text) as [[| | | | |members]|e]; try reflexivity.
  destruct (truthyMember (member "vectorStore" members)
            && truthyMember (member "knowledgeBase" members)); [|reflexivity].
  destruct (match member "vectorStore" members with
            | Some j => entriesOf j | None => None end) as [vs|];
    [destruct (match member "knowledgeBase" members with
               | Some j => documentsOf j | None => None end) as [kb|]|];
    reflexivity.
Qed.

Lemma loadKnowledgeBase_restored rt directoryPath st st' :
  restoreSnapshot rt st = (Ok true, st') ->
  loadKnowledgeBase rt directoryPath st = (Ok tt, st') /\ log st' = log st.
Proof.
  intros H. split.
  - unfold loadKnowledgeBase, tryCatch. rewrite (bind_Ok _ _ _ _ _ H). reflexivity.
  - pose proof (restoreSnapshot_log rt st) as Hlog. now rewrite H in Hlog.
Qed.

Lemma positionsNeeding_none (documents : list KnowledgeDocument) (i : nat) :
  Forall (fun doc => needsEmbedding doc = false) documents ->
  positionsNeeding documents i = [].
Proof.
  intros H. revert i. induction H as [|doc rest Hdoc _ IH]; intros i; simpl.
  - reflexivity.
  - now rewrite Hdoc, IH.
Qed.

(** C8.  When the write of the snapshot succeeds and the runtime's JSON
    parser gives back the value that was serialized, loading the knowledge
    base after [persistKnowledgeBase] restores exactly the documents and the
    vector-store entries that were persisted, and records no call to any
    service: the log is the one left by the write.  More generally a load
    whose restore succeeds records no call, and
    [generateEmbeddingsForDocuments] makes no request for documents that
    all carry an embedding. *)
Theorem restore_after_persist (rt : Runtime)
  (documents : list KnowledgeDocument) (entries : list VectorStoreEntry)
  (directoryPath : string) (st : State) :
  let snapshot :=
    persistedJson {| persistedKnowledgeBase := documents;
                     persistedVectorStore := entries;
                     timestamp := Date_toISOString rt (log st) |} in
  let st1 :=
    snd (persistKnowledgeBase rt (knowledgeBasePath rt) documents entries st) in
  let st2 := snd (loadKnowledgeBase rt directoryPath st1) in
  fs_writeFile_error rt (log st) (vectorStorePath rt) = None ->
  JSON_parse rt (JSON_stringify rt snapshot) = Ok snapshot ->
  fst (loadKnowledgeBase rt directoryPath st1) = Ok tt
  /\ knowledgeBase st2 = documents
  /\ vectorStore st2 = entries
  /\ log st2 = log st1
  /\ log st1 = log st ++ [EvWriteFile (vectorStorePath rt)
                            (JSON_stringify rt snapshot)]
  /\ (forall st0 st0',
         restoreSnapshot rt st0 = (Ok true, st0') ->
         log (snd (loadKnowledgeBase rt directoryPath st0)) = log st0)
  /\ (forall kb st0,
         Forall (fun doc => needsEmbedding doc = false) kb ->
         generateEmbeddingsForDocuments rt kb st0 = (Ok kb, st0)).
Proof.
  intros snapshot st1 st2 Hwrite Hcodec.
  pose proof (persistKnowledgeBase_written rt documents entries st Hwrite) as Hp.
  cbv zeta in Hp. fold snapshot in Hp.
  assert (Hst1 : st1 = {| knowledgeBase := knowledgeBase st;
                          vectorStore := vectorStore st;
                          files := <[vectorStorePath rt :=
                                       JSON_stringify rt snapshot]> (files st);
                          log := log st
                                 ++ [EvWriteFile (vectorStorePath rt)
                                       (JSON_stringify rt snapshot)] |}).
  { unfold st1. now rewrite Hp. }
  assert (Hrestore : restoreSnapshot rt st1
                     = (Ok true, withKnowledge documents entries st1)).
  { eapply restoreSnapshot_restores; [|exact Hcodec].
    rewrite Hst1. simpl. apply lookup_insert_eq. }
  destruct (loadKnowledgeBase_restored rt directoryPath _ _ Hrestore)
    as [Hload Hlog].
  unfold st2. rewrite Hload. simpl.
  repeat split; auto.
  - rewrite Hst1. reflexivity.
  - intros st0 st0' H0.
    destruct (loadKnowledgeBase_restored rt directoryPath _ _ H0) as [Hl Hg].
    now rewrite Hl.
  - intros kb st0 Hall. unfold generateEmbeddingsForDocuments.
    now rewrite positionsNeeding_none.
Qed.

Lemma restore_after_persist_witness :
  let st1 :=
    snd (persistKnowledgeBase calendarDown "./knowledge"
           [policyDocument; faqDocument] demoVectorStore demoState) in
  let st2 := snd (loadKnowledgeBase calendarDown "./knowledge" st1) in
  knowledgeBase st2 = [policyDocument; faqDocument]
  /\ vectorStore st2 = demoVectorStore
  /\ log st2 = log st1.
Proof.
  destruct (restore_after_persist calendarDown [policyDocument; faqDocument]
              demoVectorStore "./knowledge" demoState)
    as (_ & Hkb & Hvs & Hlog & _).
  - reflexivity.
  - vm_compute. reflexivity.
  - repeat split; assumption.
Defined.

(** *** Lexical search *)

(** C3.  The keyword "c++" (a token of length 3 of the query) is handed to
    the [RegExp] constructor as a pattern, which rejects it: the search
    throws instead of scoring the document.  The keyword "f.e" is not a
    substring of the content nor of the title of the second document, yet
    as a pattern it matches "fee" once, and the document is returned with
    score 1 instead of being discarded. *)
Theorem basicKeywordSearch_keyword_as_pattern
  (otherPatterns : string -> string -> Result Z) :
  basicKeywordSearch otherPatterns "c++" [coursesDocument] 3
  = Throw (nothingToRepeat "c++")
  /\ includes (toLowerCase (content feesDocument)) "f.e" = false
  /\ includes (toLowerCase (title feesDocument)) "f.e" = false
  /\ basicKeywordSearch otherPatterns "f.e" [feesDocument] 3
     = Ok [ {| documentId := "fees.md"; resultTitle := "Fees";
               excerpt := "The fee is due at booking.";
               relevanceScore := 1 |} ].
Proof. vm_compute. repeat split; reflexivity. Qed.

(** *** Keywords without pattern syntax *)

Lemma plainChar_inv (c : ascii) :
  plainChar c = true ->
  isOtherSyntaxChar c = false /\ isQuantifierChar c = false
  /\ atomOf c = AChar c.
Proof.
  unfold plainChar, atomOf. intros H.
  apply andb_true_iff in H as [H H3]. apply andb_true_iff in H as [H1 H2].
  apply negb_true_iff in H1, H2, H3. now rewrite H3.
Qed.

Lemma plain_inFragment (keyword : string) :
  plain keyword = true -> inFragment keyword = true.
Proof.
  induction keyword as [|c rest IH]; simpl; [reflexivity|].
  intros H. apply andb_true_iff in H as [Hc Hrest].
  apply plainChar_inv in Hc as (-> & _ & _). simpl. auto.
Qed.

Lemma plain_parsePattern (keyword : string) :
  plain keyword = true -> parsePattern keyword = Some (literalTerms keyword).
Proof.
  induction keyword as [|c rest IH]; [reflexivity|].
  intros H. simpl in H. apply andb_true_iff in H as [Hc Hrest].
  specialize (IH Hrest).
  apply plainChar_inv in Hc as (_ & Hq & Ha).
  cbn [parsePattern]. rewrite Hq.
  destruct rest as [|q rest']; [now rewrite Ha|].
  simpl in Hrest. apply andb_true_iff in Hrest as [Hq' _].
  apply plainChar_inv in Hq' as (_ & -> & _).
  rewrite IH, Ha. reflexivity.
Qed.

Lemma matchAt_literal (keyword subject : string) :
  matchAt (literalTerms keyword) subject
  = if String.prefix keyword subject
    then Some (dropChars (String.length keyword) subject) else None.
Proof.
  revert subject. induction keyword as [|c rest IH]; intros subject.
  - destruct subject; reflexivity.
  - destruct subject as [|c' subject']; [reflexivity|].
    cbn [literalTerms matchAt matchTerm matchOne atomMatches String.prefix
         String.length dropChars].
    destruct (ascii_dec c c') as [->|Hne].
    + rewrite Ascii.eqb_refl. apply IH.
    + apply Ascii.eqb_neq in Hne. now rewrite Hne.
Qed.

Lemma prefix_dropChars_length (keyword subject : string) :
  String.prefix keyword subject = true ->
  (String.length subject
   - String.length (dropChars (String.length keyword) subject)
   = String.length keyword)%nat.
Proof.
  revert subject. induction keyword as [|c rest IH]; intros subject H.
  - simpl. lia.
  - destruct subject as [|c' subject']; [discriminate|].
    simpl in H. destruct (ascii_dec c c'); [|discriminate].
    specialize (IH _ H). simpl.
    assert (String.length (dropChars (String.length rest) subject')
            <= String.length subject')%nat.
    { clear. revert subject'. induction (String.length rest) as [|n IHn];
        intros [|a s]; simpl; try lia. specialize (IHn s). lia. }
    lia.
Qed.

Lemma countMatches_literal (keyword subject : string) (skip : nat) :
  countMatches (literalTerms keyword) subject skip
  = countOccurrences keyword subject skip.
Proof.
  revert skip. induction subject as [|c rest IH]; intros skip.
  - cbn [countMatches countOccurrences]. rewrite matchAt_literal.
    now destruct (String.prefix keyword EmptyString).
  - cbn [countMatches countOccurrences]. destruct skip as [|k]; [|apply IH].
    rewrite matchAt_literal.
    destruct (String.prefix keyword (String c rest)) eqn:E; [|apply IH].
    rewrite IH. f_equal. f_equal.
    pose proof (prefix_dropChars_length _ _ E) as Hlen. lia.
Qed.

(** For a plain keyword the pattern is accepted, and the matches counted are
    the occurrences of the keyword. *)
Lemma matchCount_plain (otherPatterns : string -> string -> Result Z)
  (keyword subject : string) :
  plain keyword = true ->
  matchCount otherPatterns keyword subject
  = Ok (Z.of_nat (countOccurrences keyword subject 0)).
Proof.
  intros H. unfold matchCount.
  rewrite (plain_inFragment _ H), (plain_parsePattern _ H).
  now rewrite countMatches_literal.
Qed.

Lemma scoreKeywords_plain (otherPatterns : string -> string -> Result Z)
  (lowerTitle lowerContent : string) (keywords : list string) :
  Forall (fun k => plain k = true) keywords ->
  forall score,
    scoreKeywords otherPatterns lowerTitle lowerContent score keywords
    = Ok (fold_left
            (fun score keyword =>
               (score + keywordScore lowerTitle lowerContent keyword)%Z)
            keywords score).
Proof.
  induction 1 as [|keyword rest Hk _ IH]; intros score; [reflexivity|].
  cbn [scoreKeywords fold_left]. unfold scoreKeyword.
  rewrite (matchCount_plain _ _ _ Hk). cbn [bindR]. rewrite IH.
  do 2 f_equal. unfold keywordScore.
  destruct (includes lowerTitle keyword); lia.
Qed.

Lemma mapR_total {A B} (f : A -> Result B) (g : A -> B) (l : list A) :
  (forall x, f x = Ok (g x)) -> mapR f l = Ok (map g l).
Proof.
  intros H. induction l as [|x l IH]; simpl; [reflexivity|].
  now rewrite H, IH.
Qed.

(** When no expanded keyword contains pattern syntax, the search does what
    C3 describes: it scores every document by [documentScore], discards the
    score 0, sorts by descending score and cuts at [maxResults]. *)
Lemma basicKeywordSearch_plain (otherPatterns : string -> string -> Result Z)
  (query : string) (documents : list KnowledgeDocument) (maxResults : Z) :
  Forall (fun k => plain k = true) (expandedKeywordsOf query) ->
  basicKeywordSearch otherPatterns query documents maxResults
  = Ok (slice0
          (sortBy byScoreDescending
             (List.filter (fun result => Qgtb (relevanceScore result) 0)
                (map (scoredResult query (expandedKeywordsOf query))
                   documents)))
          maxResults).
Proof.
  intros Hplain. unfold basicKeywordSearch.
  fold (expandedKeywordsOf query).
  rewrite (mapR_total _ (scoredResult query (expandedKeywordsOf query)));
    [reflexivity|].
  intros doc. unfold scoreDocument.
  now rewrite (scoreKeywords_plain _ _ _ _ Hplain).
Qed.

Example basicKeywordSearch_plain_example :
  Forall (fun k => plain k = true) (expandedKeywordsOf "cancel policy").
Proof. vm_compute. repeat constructor. Qed.

(** ** Part III. Further properties of the code *)

(** *** The chunker: sizes and edge cases *)

Lemma chunkLoop_nonempty (m : Z) (ps : list string) :
  forall chunks cur,
    Forall (fun s => s <> "") chunks ->
    Forall (fun s => s <> "") (fst (chunkLoop m ps (chunks, cur))).
Proof.
  unfold chunkLoop.
  induction ps as [|p ps IH]; intros chunks cur Hall; simpl; [assumption|].
  destruct ((len (cur +:+ p) >? m)%Z && (len cur >? 0)%Z) eqn:Hguard.
  - apply IH. apply Forall_app. split; [assumption|].
    constructor; [|constructor].
    apply andb_true_iff in Hguard as [_ Hpos].
    rewrite len_pos_truthy in Hpos. now apply truthy_true.
  - now apply IH.
Qed.

Lemma chunkLoop_blank (m : Z) (ps : list string) (chunks : list string) :
  Forall (fun p => p = "") ps -> chunkLoop m ps (chunks, "") = (chunks, "").
Proof.
  unfold chunkLoop. induction 1 as [|p ps -> _ IH]; simpl; [reflexivity|].
  rewrite andb_false_r. exact IH.
Qed.

Lemma dropsEmpty_nil_inv (ps : list string) :
  dropsEmpty ps [] -> Forall (fun p => p = "") ps.
Proof.
  remember [] as kept eqn:Hk. induction 1; [constructor|discriminate|].
  constructor; [reflexivity|auto].
Qed.

Lemma dropsEmpty_length (ps kept : list string) :
  dropsEmpty ps kept -> (length kept <= length ps)%nat.
Proof. induction 1; simpl; lia. Qed.

Lemma concat_length_blocks {A} (blocks : list (list A)) :
  Forall (fun b => b <> []) blocks ->
  (length blocks <= length (concat blocks))%nat.
Proof.
  induction 1 as [|b blocks Hb _ IH]; simpl; [lia|].
  rewrite length_app. destruct b; [congruence|simpl; lia].
Qed.

(** X1.  For a text that is not empty, [chunkContent] never returns an empty
    segment and never returns more segments than the text has paragraphs;
    above the threshold every segment is a paragraph of the text or is at
    most [maxChunkLength + 2] characters long (the two characters are the
    separator that the size test leaves out). *)
Theorem chunkContent_segments (c : string) (m : Z) :
  c <> "" ->
  Forall (fun segment => segment <> "") (chunkContent c m)
  /\ (length (chunkContent c m) <= length (paragraphs c))%nat
  /\ ((m < len c)%Z ->
      Forall (fun segment =>
                In segment (paragraphs c) \/ (len segment <= m + 2)%Z)
        (chunkContent c m)).
Proof.
  intros Hc. split; [|split].
  - unfold chunkContent. destruct (len c <=? m)%Z.
    + now repeat constructor.
    + pose proof (chunkLoop_nonempty m (paragraphs c) [] "" (List.Forall_nil _)) as H.
      destruct (chunkLoop m (paragraphs c) ([], "")) as [chunks cur].
      simpl in H. destruct (truthy cur) eqn:Hcur; [|assumption].
      apply Forall_app. split; [assumption|].
      constructor; [now apply truthy_true | constructor].
  - destruct (Z.leb_spec (len c) m) as [Hle|Hlt].
    + rewrite chunkContent_small by assumption. unfold paragraphs. simpl. lia.
    + destruct (chunkContent_blocks c m Hlt) as (blocks & -> & Hb & Hd).
      rewrite length_map.
      transitivity (length (concat blocks)).
      * apply concat_length_blocks.
        eapply List.Forall_impl; [|exact Hb]. now intros b [Hne _].
      * now apply dropsEmpty_length.
  - intros Hlt. destruct (chunkContent_blocks c m Hlt) as (blocks & -> & Hb & Hd).
    apply List.Forall_forall. intros segment Hin.
    apply in_map_iff in Hin as (b & <- & Hin).
    rewrite List.Forall_forall in Hb. destruct (Hb b Hin) as [Hne [Hone|Hlen]].
    + left. destruct b as [|p [|q b]]; [congruence | | simpl in Hone; lia].
      simpl. apply (dropsEmpty_In _ _ _ Hd).
      apply in_concat. exists [p]. split; [assumption | now left].
    + now right.
Qed.

Lemma chunkContent_segments_witness :
  let c := "ab" +:+ nn +:+ "cde" +:+ nn +:+ "fg" in
  Forall (fun segment => segment <> "") (chunkContent c 5)
  /\ (length (chunkContent c 5) <= length (paragraphs c))%nat.
Proof.
  intros c.
  destruct (chunkContent_segments c 5) as (H1 & H2 & _); [discriminate|].
  split; assumption.
Defined.

(** X2.  [chunkContent] returns no segment at all exactly when the text is
    longer than [maxChunkLength] and all its paragraphs are empty, that is
    when it consists of blank-line separators only. *)
Theorem chunkContent_empty_result (c : string) (m : Z) :
  chunkContent c m = []
  <-> (m < len c)%Z /\ Forall (fun p => p = "") (paragraphs c).
Proof.
  split.
  - intros Hnil. destruct (Z.leb_spec (len c) m) as [Hle|Hlt].
    + rewrite chunkContent_small in Hnil by assumption. discriminate.
    + split; [assumption|].
      destruct (chunkContent_blocks c m Hlt) as (blocks & Heq & _ & Hd).
      rewrite Hnil in Heq. symmetry in Heq. apply map_eq_nil in Heq. subst blocks.
      now apply dropsEmpty_nil_inv.
  - intros [Hlt Hblank]. unfold chunkContent.
    destruct (Z.leb_spec (len c) m) as [Hle|_]; [lia|].
    now rewrite chunkLoop_blank.
Qed.

(** *** Cosine similarity *)

Lemma accumulate_swap (a b : list Q) :
  forall d d' x y,
    (d == d')%Q ->
    (fst (fst (fold_left accumulate (combine a b) (d, x, y)))
     == fst (fst (fold_left accumulate (combine b a) (d', y, x))))%Q
    /\ snd (fst (fold_left accumulate (combine a b) (d, x, y)))
       = snd (fold_left accumulate (combine b a) (d', y, x))
    /\ snd (fold_left accumulate (combine a b) (d, x, y))
       = snd (fst (fold_left accumulate (combine b a) (d', y, x))).
Proof.
  revert b. induction a as [|p a IH]; intros [|q b] d d' x y Hd; simpl;
    try (now repeat split).
  apply IH. rewrite Hd. ring.
Qed.

(** X3.  [calculateCosineSimilarity] is symmetric: exchanging the two vectors
    gives the same similarity (also when the lengths differ or a norm is
    zero, where both are 0). *)
Theorem calculateCosineSimilarity_symmetric (rt : Runtime) (vecA vecB : list Q) :
  (calculateCosineSimilarity rt vecA vecB
   == calculateCosineSimilarity rt vecB vecA)%Q.
Proof.
  unfold calculateCosineSimilarity.
  rewrite (Nat.eqb_sym (length vecB)).
  destruct (Nat.eqb (length vecA) (length vecB)); simpl; [|reflexivity].
  destruct (accumulate_swap vecA vecB 0 0 0 0 (Qeq_refl 0)) as (Hd & Ha & Hb).
  destruct (fold_left accumulate (combine vecA vecB) (0, 0, 0)%Q)
    as [[d nA] nB].
  destruct (fold_left accumulate (combine vecB vecA) (0, 0, 0)%Q)
    as [[d' nB'] nA'].
  simpl in Hd, Ha, Hb. subst nA' nB'.
  rewrite (orb_comm (Qeq_bool (Math_sqrt rt nB) 0)).
  destruct (Qeq_bool (Math_sqrt rt nA) 0 || Qeq_bool (Math_sqrt rt nB) 0);
    [reflexivity|].
  rewrite Hd, (Qmult_comm (Math_sqrt rt nB)). reflexivity.
Qed.





(** *** Excerpts *)

Lemma length_substring0 (n : nat) (s : string) :
  String.length (String.substring 0 n s) = Nat.min n (String.length s).
Proof.
  revert s. induction n as [|n IH]; intros [|c s]; simpl; try reflexivity.
  now rewrite IH.
Qed.

Lemma len_substring0 (n : Z) (s : string) :
  len (substring0 n s) = Z.min (Z.max 0 n) (len s).
Proof.
  unfold len, substring0. rewrite length_substring0. lia.
Qed.

Lemma maximum_In (x : Z) (l : list Z) : In (fold_left Z.max l x) (x :: l).
Proof.
  revert x. induction l as [|y l IH]; intros x; simpl; [now left|].
  destruct (IH (Z.max x y)) as [H|H]; [|now right; right].
  rewrite <- H.
  destruct (Z.max_spec x y) as [[_ E]|[_ E]]; rewrite E; auto.
Qed.

Lemma firstIndexOf_lt (x : Z) (l : list Z) :
  In x l -> (firstIndexOf x l < length l)%nat.
Proof.
  induction l as [|y l IH]; simpl; [tauto|].
  intros [->|Hin].
  - rewrite Z.eqb_refl. lia.
  - destruct (y =? x)%Z; [lia|]. specialize (IH Hin). lia.
Qed.

(** X5.  For [maxLength >= 0] the excerpt has at most [maxLength + 3]
    characters.  When the content holds a sentence and [maxLength >= 3] it
    has at most [maxLength] characters; when the content holds no sentence
    and is longer than [maxLength], the excerpt is exactly [maxLength + 3]
    characters long: the cut text plus the ellipsis. *)
Theorem extractRelevantExcerpt_length (content query : string) (maxLength : Z) :
  (0 <= maxLength)%Z ->
  (len (extractRelevantExcerpt content query maxLength) <= maxLength + 3)%Z
  /\ (sentencesOf content <> [] -> (3 <= maxLength)%Z ->
      (len (extractRelevantExcerpt content query maxLength) <= maxLength)%Z)
  /\ (sentencesOf content = [] -> (maxLength < len content)%Z ->
      len (extractRelevantExcerpt content query maxLength) = (maxLength + 3)%Z).
Proof.
  intros Hm. unfold extractRelevantExcerpt.
  destruct (sentencesOf content) as [|s ss] eqn:Hs.
  - pose proof (len_nonneg content) as Hc.
    split; [|split]; [|congruence|].
    + rewrite len_append, len_substring0.
      destruct (Z.gtb_spec (len content) maxLength); unfold len; simpl; lia.
    + intros _ Hlt. rewrite len_append, len_substring0.
      destruct (Z.gtb_spec (len content) maxLength); unfold len in *; simpl; lia.
  - cbv zeta.
    match goal with
    | |- context [String.concat " " ?l] => set (excerpt := String.concat " " l)
    end.
    destruct (Z.gtb_spec (len excerpt) maxLength) as [Hgt|Hle].
    + rewrite len_append, len_substring0.
      change (len "...") with 3%Z.
      split; [lia|]. split; [intros; lia | congruence].
    + split; [lia|]. split; [intros; lia | congruence].
Qed.

Lemma extractRelevantExcerpt_length_witness :
  (len (extractRelevantExcerpt "no full stop here" "stop" 5) <= 5 + 3)%Z.
Proof.
  apply (extractRelevantExcerpt_length "no full stop here" "stop" 5). lia.
Defined.

(** X6.  For a content of one to three sentences the excerpt does not depend
    on the query: it is all the sentences joined by a space, cut to
    [maxLength - 3] characters and an ellipsis when longer than
    [maxLength]. *)
Theorem extractRelevantExcerpt_short_content (content query : string)
  (maxLength : Z) :
  sentencesOf content <> [] ->
  (length (sentencesOf content) <= 3)%nat ->
  extractRelevantExcerpt content query maxLength
  = (let excerpt := String.concat " " (sentencesOf content) in
     if (len excerpt >? maxLength)%Z
     then substring0 (maxLength - 3) excerpt +:+ "..."
     else excerpt).
Proof.
  intros Hne Hshort. unfold extractRelevantExcerpt.
  destruct (sentencesOf content) as [|s ss] eqn:Hs; [congruence|].
  cbv zeta.
  set (scores := map (sentenceScore (expandKeywords (words (toLowerCase query))))
                   (s :: ss)).
  assert (Hbest : (firstIndexOf (maximum scores) scores < length (s :: ss))%nat).
  { replace (length (s :: ss)) with (length scores)
      by (unfold scores; now rewrite length_map).
    apply firstIndexOf_lt. unfold scores, maximum. simpl map.
    apply maximum_In. }
  set (best := firstIndexOf (maximum scores) scores) in *.
  replace (best - 2)%nat with 0%nat by lia.
  replace (Nat.min (length (s :: ss)) (best + 2 + 1)) with (length (s :: ss))
    by lia.
  unfold sliceRange. rewrite Nat.sub_0_r. change (skipn 0 (s :: ss)) with (s :: ss).
  now rewrite firstn_all.
Qed.

Lemma extractRelevantExcerpt_short_content_witness :
  extractRelevantExcerpt "Fees are due at booking. Refunds take a week." "refund" 300
  = "Fees are due at booking.  Refunds take a week.".
Proof.
  rewrite extractRelevantExcerpt_short_content;
    [reflexivity | discriminate | vm_compute; lia].
Defined.

(** *** Synonym expansion *)

Lemma existsb_eqb_In (x : string) (l : list string) :
  existsb (String.eqb x) l = true <-> In x l.
Proof.
  rewrite existsb_exists. split.
  - intros (y & Hin & Heq). apply String.eqb_eq in Heq. now subst.
  - intros Hin. exists x. split; [assumption | apply String.eqb_refl].
Qed.

Lemma setAdd_In (x y : string) (set : list string) :
  In y (setAdd x set) <-> In y set \/ y = x.
Proof.
  unfold setAdd. destruct (existsb (String.eqb x) set) eqn:Hx.
  - apply existsb_eqb_In in Hx. intuition (subst; auto).
  - rewrite in_app_iff. simpl. intuition.
Qed.

Lemma NoDup_snoc {A} (x : A) (l : list A) :
  List.NoDup l -> ~ In x l -> List.NoDup (l ++ [x]).
Proof.
  induction 1 as [|y l Hy Hnd IH]; simpl; intros Hx.
  - constructor; [tauto | constructor].
  - constructor; [|apply IH; tauto].
    rewrite in_app_iff. simpl. intros [H|[H|[]]]; [tauto|]. subst. tauto.
Qed.

Lemma setAdd_NoDup (x : string) (set : list string) :
  List.NoDup set -> List.NoDup (setAdd x set).
Proof.
  intros Hnd. unfold setAdd. destruct (existsb (String.eqb x) set) eqn:Hx;
    [assumption|].
  apply NoDup_snoc; [assumption|].
  rewrite <- existsb_eqb_In. congruence.
Qed.

Lemma addAll_spec (synonyms : list string) :
  forall set y,
    (In y (fold_left (fun acc syn => setAdd syn acc) synonyms set)
     <-> In y set \/ In y synonyms)
    /\ (List.NoDup set ->
        List.NoDup (fold_left (fun acc syn => setAdd syn acc) synonyms set)).
Proof.
  induction synonyms as [|syn synonyms IH]; intros set y; simpl; [tauto|].
  destruct (IH (setAdd syn set) y) as [Hin Hnd]. split.
  - rewrite Hin, setAdd_In. intuition.
  - intros H. apply Hnd. now apply setAdd_NoDup.
Qed.

Lemma addSynonyms_spec (keyword : string) (set : list string)
  (entry : string * list string) (y : string) :
  (In y (addSynonyms keyword set entry)
   <-> In y set
       \/ ((keyword = fst entry \/ In keyword (snd entry))
           /\ (y = fst entry \/ In y (snd entry))))
  /\ (List.NoDup set -> List.NoDup (addSynonyms keyword set entry)).
Proof.
  destruct entry as [word synonyms]. unfold addSynonyms. simpl.
  destruct (String.eqb keyword word || existsb (String.eqb keyword) synonyms)
    eqn:Hmatch.
  - apply orb_true_iff in Hmatch.
    rewrite String.eqb_eq, existsb_eqb_In in Hmatch.
    destruct (addAll_spec synonyms (setAdd word set) y) as [Hin Hnd]. split.
    + rewrite Hin, setAdd_In. intuition.
    + intros H. apply Hnd. now apply setAdd_NoDup.
  - apply orb_false_iff in Hmatch as [Hw Hs].
    apply String.eqb_neq in Hw.
    assert (~ In keyword synonyms)
      by (rewrite <- existsb_eqb_In; congruence).
    intuition.
Qed.

Lemma addEntries_spec (keyword : string) (entries : list (string * list string)) :
  forall set y,
    (In y (fold_left (addSynonyms keyword) entries set)
     <-> In y set
         \/ exists entry,
             In entry entries
             /\ (keyword = fst entry \/ In keyword (snd entry))
             /\ (y = fst entry \/ In y (snd entry)))
    /\ (List.NoDup set ->
        List.NoDup (fold_left (addSynonyms keyword) entries set)).
Proof.
  induction entries as [|entry entries IH]; intros set y; simpl.
  - split; [|tauto]. split; [tauto|]. intros [H|(e & [] & _)]. exact H.
  - destruct (IH (addSynonyms keyword set entry) y) as [Hin Hnd].
    destruct (addSynonyms_spec keyword set entry y) as [Hin1 Hnd1]. split.
    + rewrite Hin, Hin1. split.
      * intros [[H|H]|(e & He & H)]; [now left | right | right].
        -- exists entry. split; [now left | exact H].
        -- exists e. split; [now right | exact H].
      * intros [H|(e & [<-|He] & H)]; [now left; left | now left; right |].
        right. now exists e.
    + intros H. apply Hnd. now apply Hnd1.
Qed.

Lemma expandKeyword_spec (set : list string) (keyword y : string) :
  (In y (expandKeyword set keyword)
   <-> In y set \/ y = keyword \/ related keyword y)
  /\ (List.NoDup set -> List.NoDup (expandKeyword set keyword)).
Proof.
  unfold expandKeyword, related.
  destruct (addEntries_spec keyword getSynonymMap (setAdd keyword set) y)
    as [Hin Hnd]. split.
  - rewrite Hin, setAdd_In. tauto.
  - intros H. apply Hnd. now apply setAdd_NoDup.
Qed.

Lemma expandKeywords_from (keywords : list string) :
  forall set y,
    (In y (fold_left expandKeyword keywords set)
     <-> In y set \/ In y keywords
         \/ exists keyword, In keyword keywords /\ related keyword y)
    /\ (List.NoDup set -> List.NoDup (fold_left expandKeyword keywords set)).
Proof.
  induction keywords as [|keyword keywords IH]; intros set y; simpl.
  - split; [|tauto]. split; [tauto|]. intros [H|[[]|(k & [] & _)]]. exact H.
  - destruct (IH (expandKeyword set keyword) y) as [Hin Hnd].
    destruct (expandKeyword_spec set keyword y) as [Hin1 Hnd1]. split.
    + rewrite Hin, Hin1. split.
      * intros [[H|[H|H]]|[H|(k & Hk & H)]]; auto.
        -- right; right. exists keyword. auto.
        -- right; right. exists k. auto.
      * intros [H|[[H|H]|(k & [<-|Hk] & H)]]; auto.
        right; right. exists k. auto.
    + intros H. apply Hnd. now apply Hnd1.
Qed.

(** X7.  The expanded keywords hold no duplicate, and a word is among them
    exactly when it is one of the keywords or shares an entry of the
    synonym map (as term or as synonym) with one of the keywords. *)
Theorem expandKeywords_membership (keywords : list string) :
  List.NoDup (expandKeywords keywords)
  /\ forall k,
      In k (expandKeywords keywords)
      <-> In k keywords
          \/ exists keyword, In keyword keywords /\ related keyword k.
Proof.
  unfold expandKeywords. split.
  - apply (expandKeywords_from keywords [] ""). constructor.
  - intros k. destruct (expandKeywords_from keywords [] k) as [Hin _].
    rewrite Hin. simpl. tauto.
Qed.

Example expandKeywords_synonym :
  In "fee" (expandKeywords ["cost"]) /\ In "price" (expandKeywords ["cost"]).
Proof. vm_compute. tauto. Qed.

(** *** Lexical search: results *)

Lemma mapR_In {A B} (f : A -> Result B) (l : list A) :
  forall rs, mapR f l = Ok rs ->
  length rs = length l
  /\ forall r, In r rs -> exists x, In x l /\ f x = Ok r.
Proof.
  induction l as [|x l IH]; simpl; intros rs H.
  - injection H as <-. split; [reflexivity | intros r []].
  - destruct (f x) as [y|e] eqn:Hx; simpl in H; [|discriminate].
    destruct (mapR f l) as [ys|e] eqn:Hl; simpl in H; [|discriminate].
    injection H as <-. destruct (IH ys eq_refl) as [Hlen Hin].
    split; [simpl; now rewrite Hlen|].
    intros r [<-|Hr]; [exists x; auto|].
    destruct (Hin r Hr) as (x' & Hx' & Hf). exists x'. auto.
Qed.

Lemma scoreDocument_Ok otherPatterns query expandedKeywords doc r :
  scoreDocument otherPatterns query expandedKeywords doc = Ok r ->
  documentId r = id doc /\ resultTitle r = title doc
  /\ excerpt r = extractRelevantExcerpt (content doc) query 300.
Proof.
  unfold scoreDocument. destruct (scoreKeywords _ _ _ _ _); simpl; [|discriminate].
  intros H. injection H as <-. now repeat split.
Qed.

Lemma filter_length_le {A} (f : A -> bool) (l : list A) :
  (length (List.filter f l) <= length l)%nat.
Proof. induction l as [|x l IH]; simpl; [lia|]. destruct (f x); simpl; lia. Qed.

(** X8.  Whenever [basicKeywordSearch] returns, every result has a positive
    score and carries the identifier, the title and the excerpt (for the
    query, at most 300 characters asked) of a document of the list; the
    results are in descending order of score, are not more than the
    documents, and are at most [maxResults] when [maxResults] is not
    negative. *)
Theorem basicKeywordSearch_results
  (otherPatterns : string -> string -> Result Z) (query : string)
  (documents : list KnowledgeDocument) (maxResults : Z)
  (results : list SearchResult) :
  basicKeywordSearch otherPatterns query documents maxResults = Ok results ->
  Forall (fun r =>
            (0 < relevanceScore r)%Q
            /\ exists doc,
                In doc documents /\ documentId r = id doc
                /\ resultTitle r = title doc
                /\ excerpt r = extractRelevantExcerpt (content doc) query 300)
    results
  /\ StronglySorted scoreGe results
  /\ (length results <= length documents)%nat
  /\ ((0 <= maxResults)%Z -> (Z.of_nat (length results) <= maxResults)%Z).
Proof.
  unfold basicKeywordSearch.
  destruct (mapR _ documents) as [scored|e] eqn:Hmap; simpl; [|discriminate].
  intros H. injection H as <-.
  destruct (mapR_In _ _ _ Hmap) as [Hlen Hin].
  repeat split.
  - apply List.Forall_forall. intros r Hr.
    apply slice0_In, sortBy_In, filter_In in Hr as [Hr Hpos].
    split; [now apply Qgtb_true|].
    destruct (Hin r Hr) as (doc & Hdoc & Hscore).
    exists doc. split; [assumption|]. now apply scoreDocument_Ok in Hscore.
  - unfold slice0. apply firstn_sorted, sortBy_sorted.
  - unfold slice0. rewrite length_firstn, sortBy_length, <- Hlen.
    pose proof (filter_length_le (fun r => Qgtb (relevanceScore r) 0) scored).
    lia.
  - apply slice0_length.
Qed.

Lemma basicKeywordSearch_results_witness :
  exists results,
    basicKeywordSearch (fun _ _ => Ok 0%Z) "late fee" [coursesDocument; feesDocument] 3
    = Ok results
    /\ StronglySorted scoreGe results.
Proof.
  eexists. split; [vm_compute; reflexivity|].
  eapply (basicKeywordSearch_results (fun _ _ => Ok 0%Z) "late fee"
            [coursesDocument; feesDocument] 3).
  vm_compute. reflexivity.
Defined.

Lemma scoreKeywords_nil otherPatterns lowerTitle lowerContent :
  scoreKeywords otherPatterns lowerTitle lowerContent 0 [] = Ok 0%Z.
Proof. reflexivity. Qed.

Lemma filter_none {A} (f : A -> bool) (l : list A) :
  Forall (fun x => f x = false) l -> List.filter f l = [].
Proof. induction 1 as [|x l Hx _ IH]; simpl; [reflexivity|]. now rewrite Hx. Qed.

(** X9.  A query all of whose words have at most two characters (the empty
    query among them) has no keyword: [basicKeywordSearch] returns the empty
    list, whatever the documents, and builds no pattern at all. *)
Theorem basicKeywordSearch_short_words
  (otherPatterns : string -> string -> Result Z) (query : string)
  (documents : list KnowledgeDocument) (maxResults : Z) :
  Forall (fun word => (len word <= 2)%Z) (words (toLowerCase query)) ->
  basicKeywordSearch otherPatterns query documents maxResults = Ok [].
Proof.
  intros Hshort. unfold basicKeywordSearch.
  rewrite (filter_none (fun k => (len k >? 2)%Z)).
  2:{ eapply List.Forall_impl; [|exact Hshort]. intros w Hw. simpl in Hw.
      destruct (Z.gtb_spec (len w) 2); [lia|reflexivity]. }
  change (expandKeywords []) with (@nil string).
  rewrite (mapR_total _ (fun doc =>
             {| documentId := id doc; resultTitle := title doc;
                excerpt := extractRelevantExcerpt (content doc) query 300;
                relevanceScore := inject_Z 0 |})) by reflexivity.
  simpl. rewrite (filter_none (fun result => Qgtb (relevanceScore result) 0)).
  - unfold slice0. simpl. now rewrite firstn_nil.
  - apply List.Forall_forall. intros r Hr. apply in_map_iff in Hr as (doc & <- & _).
    reflexivity.
Qed.

Lemma basicKeywordSearch_short_words_witness :
  basicKeywordSearch (fun _ _ => Ok 0%Z) "Is it OK ?" [coursesDocument; feesDocument] 3
  = Ok [].
Proof.
  apply basicKeywordSearch_short_words. vm_compute. repeat constructor; discriminate.
Defined.

Lemma slice0_all {A} (l : list A) (e : Z) :
  (Z.of_nat (length l) <= e)%Z -> slice0 l e = l.
Proof.
  intros He. unfold slice0.
  destruct (Z.ltb_spec e 0); [lia|]. apply firstn_all2. lia.
Qed.

Lemma Forall_forallb {A} (f : A -> bool) (l : list A) :
  forallb f l = true -> Forall (fun x => f x = true) l.
Proof.
  induction l as [|x l IH]; simpl; [constructor|].
  intros H. apply andb_true_iff in H as [Hx Hl]. constructor; auto.
Qed.

Lemma positive_score (z : Z) : Qgtb (inject_Z z) 0 = true <-> (0 < z)%Z.
Proof. rewrite Qgtb_true. unfold Qlt. simpl. lia. Qed.

(** X10.  When no expanded keyword holds pattern syntax, [basicKeywordSearch]
    returns, and its results are documents of the list with a positive
    literal score ([documentScore]: 10 per keyword found in the title plus
    the occurrences in the content); when [maxResults] is at least the
    number of documents, every document with a positive score is
    returned. *)
Theorem basicKeywordSearch_plain_scores
  (otherPatterns : string -> string -> Result Z) (query : string)
  (documents : list KnowledgeDocument) (maxResults : Z) :
  Forall (fun k => plain k = true) (expandedKeywordsOf query) ->
  exists results,
    basicKeywordSearch otherPatterns query documents maxResults = Ok results
    /\ (forall r,
           In r results ->
           exists doc,
             In doc documents
             /\ r = scoredResult query (expandedKeywordsOf query) doc
             /\ (0 < documentScore (expandedKeywordsOf query) doc)%Z)
    /\ ((Z.of_nat (length documents) <= maxResults)%Z ->
        forall doc,
          In doc documents ->
          (0 < documentScore (expandedKeywordsOf query) doc)%Z ->
          In (scoredResult query (expandedKeywordsOf query) doc) results).
Proof.
  intros Hplain. rewrite (basicKeywordSearch_plain _ _ _ _ Hplain).
  eexists. split; [reflexivity|]. split.
  - intros r Hr. apply slice0_In, sortBy_In, filter_In in Hr as [Hr Hpos].
    apply in_map_iff in Hr as (doc & <- & Hdoc).
    exists doc. split; [assumption|]. split; [reflexivity|].
    now apply positive_score.
  - intros Hmax doc Hdoc Hpos. rewrite slice0_all.
    + apply sortBy_In, filter_In. split; [now apply in_map|].
      now apply positive_score.
    + rewrite sortBy_length.
      pose proof (filter_length_le
                    (fun result => Qgtb (relevanceScore result) 0)
                    (map (scoredResult query (expandedKeywordsOf query))
                       documents)) as Hle.
      rewrite length_map in Hle. lia.
Qed.

Lemma basicKeywordSearch_plain_scores_witness :
  exists results,
    basicKeywordSearch (fun _ _ => Throw notJSON) "fee"
      [coursesDocument; feesDocument] 3 = Ok results
    /\ In (scoredResult "fee" (expandedKeywordsOf "fee") feesDocument) results.
Proof.
  destruct (basicKeywordSearch_plain_scores (fun _ _ => Throw notJSON) "fee"
              [coursesDocument; feesDocument] 3)
    as (results & Hrun & _ & Hall).
  - apply Forall_forallb. vm_compute. reflexivity.
  - exists results. split; [exact Hrun|].
    apply Hall; [simpl; lia | simpl; tauto | vm_compute; reflexivity].
Defined.

(** *** Knowledge-base handlers *)

(** X11.  [searchKB] makes one embedding request and leaves the knowledge base
    and the vector store as they are.  When the request succeeds the result
    is the semantic ranking; when it fails the result is that of
    [basicKeywordSearch] on the current knowledge base, the error of the
    keyword search included. *)
Theorem searchKB_fallback (rt : Runtime) (query : string) (maxResults : Z)
  (st : State) :
  let st' := snd (searchKB rt query maxResults st) in
  knowledgeBase st' = knowledgeBase st
  /\ vectorStore st' = vectorStore st
  /\ log st' = log st ++ [EvEmbedding query]
  /\ (forall queryEmbedding,
         embeddings_create rt (log st) query = Ok queryEmbedding ->
         fst (searchKB rt query maxResults st)
         = Ok (rankEntries rt (knowledgeBase st) (vectorStore st) query
                 queryEmbedding maxResults))
  /\ (forall e,
         embeddings_create rt (log st) query = Throw e ->
         fst (searchKB rt query maxResults st)
         = basicKeywordSearch (otherPatterns rt) query (knowledgeBase st)
             maxResults).
Proof.
  unfold searchKB, tryCatch. rewrite semanticSearch_run.
  destruct (embeddings_create rt (log st) query) as [v|e]; simpl.
  - split; [reflexivity|]. split; [reflexivity|]. split; [reflexivity|].
    split; [congruence | discriminate].
  - split; [reflexivity|]. split; [reflexivity|]. split; [reflexivity|].
    split; [discriminate | reflexivity].
Qed.

Example searchKB_fallback_example :
  fst (searchKB embeddingDown "late fee" 3
         {| knowledgeBase := [coursesDocument; feesDocument]; vectorStore := [];
            files := empty; log := [] |})
  = basicKeywordSearch (otherPatterns embeddingDown) "late fee"
      [coursesDocument; feesDocument] 3.
Proof. reflexivity. Qed.

Lemma find_first {A} (f : A -> bool) (before after : list A) (x : A) :
  Forall (fun y => f y = false) before -> f x = true ->
  find f (before ++ x :: after) = Some x.
Proof.
  induction 1 as [|y before Hy _ IH]; simpl; intros Hx.
  - now rewrite Hx.
  - rewrite Hy. auto.
Qed.

Lemma find_absent {A} (f : A -> bool) (l : list A) :
  Forall (fun y => f y = false) l -> find f l = None.
Proof. induction 1 as [|y l Hy _ IH]; simpl; [reflexivity|]. now rewrite Hy. Qed.

Lemma callFunction_getDocumentContent rt documentId :
  callFunction rt "getDocumentContent"
    (JObject [("documentId", JString documentId)])
  = getDocument documentId.
Proof. reflexivity. Qed.

(** X12.  The tool [getDocumentContent] never throws and changes nothing: for
    an identifier that no document has it returns the payload
    [{error: "Document with ID ... not found"}]; otherwise it returns the
    first document of the knowledge base with that identifier, metadata
    included. *)
Theorem getDocumentContent_lookup (rt : Runtime) (documentId : string)
  (st : State) :
  let args := JObject [("documentId", JString documentId)] in
  (Forall (fun doc => id doc <> documentId) (knowledgeBase st) ->
   callFunction rt "getDocumentContent" args st
   = (Ok (JObject [("error", JString (documentNotFound documentId))]), st))
  /\ (forall before document after,
         knowledgeBase st = before ++ document :: after ->
         Forall (fun doc => id doc <> documentId) before ->
         id document = documentId ->
         callFunction rt "getDocumentContent" args st
         = (Ok (JObject [("document", documentJson document)]), st)).
Proof.
  cbv zeta. rewrite callFunction_getDocumentContent.
  unfold getDocument, bind, getState. split.
  - intros Habsent. rewrite find_absent; [reflexivity|].
    eapply List.Forall_impl; [|exact Habsent]. intros doc Hdoc. simpl in Hdoc.
    now apply String.eqb_neq.
  - intros before document after -> Hbefore Hid.
    rewrite (find_first _ before after document); [reflexivity | |].
    + eapply List.Forall_impl; [|exact Hbefore]. intros doc Hdoc. simpl in Hdoc.
      now apply String.eqb_neq.
    + now apply String.eqb_eq.
Qed.

Example getDocumentContent_lookup_example :
  fst (callFunction calendarDown "getDocumentContent"
         (JObject [("documentId", JString "faq.md")]) demoState)
  = Ok (JObject [("document", documentJson faqDocument)])
  /\ fst (callFunction calendarDown "getDocumentContent"
            (JObject [("documentId", JString "removed.md")]) demoState)
     = Ok (JObject [("error", JString "Document with ID removed.md not found")]).
Proof. split; reflexivity. Qed.

(** *** Message conversion *)

(** X13.  [convertToOpenAIMessage] throws exactly for a tool message whose
    [tool_call_id] is missing or empty, and then the error is 'Tool messages
    must have tool_call_id'.  Otherwise the parameter keeps the role and the
    content, carries no tool calls, and carries the [tool_call_id] for a
    tool message only. *)
Theorem convertToOpenAIMessage_outcome (message : Message) :
  (convertToOpenAIMessage message = Throw toolMessagesMustHaveId
   <-> role message = tool
       /\ (tool_call_id message = None \/ tool_call_id message = Some ""))
  /\ (forall e, convertToOpenAIMessage message = Throw e ->
                e = toolMessagesMustHaveId)
  /\ (forall param,
         convertToOpenAIMessage message = Ok param ->
         paramRole param = role message
         /\ paramContent param = messageContent message
         /\ paramToolCalls param = None
         /\ paramToolCallId param
            = match role message with
              | tool => tool_call_id message
              | _ => None
              end).
Proof.
  destruct message as [r c i n calls]. unfold convertToOpenAIMessage. simpl.
  destruct r; simpl.
  1-3: split; [split; [discriminate | intros [H _]; discriminate]|];
       split; [discriminate|]; intros param H; injection H as <-; now repeat split.
  destruct i as [[|ch i]|]; simpl.
  - split; [tauto|]. split; [congruence | discriminate].
  - split; [split; [discriminate | intros [_ [H|H]]; discriminate]|].
    split; [discriminate|]. intros param H; injection H as <-; now repeat split.
  - split; [tauto|]. split; [congruence | discriminate].
Qed.

(** *** What a turn leaves untouched *)

Lemma readOnly_ret {A} (a : A) : readOnly (ret a).
Proof. intros st. simpl. repeat split. exists []. now rewrite app_nil_r. Qed.

Lemma readOnly_throw {A} (e : JSError) : readOnly (@throw A e).
Proof. intros st. simpl. repeat split. exists []. now rewrite app_nil_r. Qed.

Lemma readOnly_liftR {A} (r : Result A) : readOnly (liftR r).
Proof. intros st. simpl. repeat split. exists []. now rewrite app_nil_r. Qed.

Lemma readOnly_getState : readOnly getState.
Proof. intros st. simpl. repeat split. exists []. now rewrite app_nil_r. Qed.

Lemma readOnly_call {A} (ev : Event) (oracle : list Event -> Result A) :
  readOnly (call ev oracle).
Proof. intros st. rewrite call_run. simpl. repeat split. now exists [ev]. Qed.

Lemma readOnly_step {A B} (m : M A) (k : State -> Result B * State) st :
  readOnly m -> (forall st1,
                    knowledgeBase (snd (k st1)) = knowledgeBase st1
                    /\ vectorStore (snd (k st1)) = vectorStore st1
                    /\ files (snd (k st1)) = files st1
                    /\ exists events, log (snd (k st1)) = log st1 ++ events) ->
  knowledgeBase (snd (k (snd (m st)))) = knowledgeBase st
  /\ vectorStore (snd (k (snd (m st)))) = vectorStore st
  /\ files (snd (k (snd (m st)))) = files st
  /\ exists events, log (snd (k (snd (m st)))) = log st ++ events.
Proof.
  intros Hm Hk. destruct (Hm st) as (H1 & H2 & H3 & ev1 & H4).
  destruct (Hk (snd (m st))) as (K1 & K2 & K3 & ev2 & K4).
  repeat split; try congruence.
  exists (ev1 ++ ev2). rewrite K4, H4. now rewrite app_assoc.
Qed.

Lemma readOnly_bind {A B} (m : M A) (k : A -> M B) :
  readOnly m -> (forall a, readOnly (k a)) -> readOnly (bind m k).
Proof.
  intros Hm Hk st. unfold bind.
  destruct (m st) as [[a|e] st1] eqn:Hrun.
  - replace st1 with (snd (m st)) by now rewrite Hrun.
    apply (readOnly_step m (k a)); [assumption | apply Hk].
  - replace st1 with (snd (m st)) by now rewrite Hrun. apply Hm.
Qed.

Lemma readOnly_tryCatch {A} (m : M A) (h : JSError -> M A) :
  readOnly m -> (forall e, readOnly (h e)) -> readOnly (tryCatch m h).
Proof.
  intros Hm Hh st. unfold tryCatch.
  destruct (m st) as [[a|e] st1] eqn:Hrun.
  - replace st1 with (snd (m st)) by now rewrite Hrun. apply Hm.
  - replace st1 with (snd (m st)) by now rewrite Hrun.
    apply (readOnly_step m (h e)); [assumption | apply Hh].
Qed.

Create HintDb readOnly.

#[local] Hint Resolve readOnly_ret readOnly_throw readOnly_liftR
  readOnly_getState readOnly_call : readOnly.

Lemma readOnly_semanticSearch rt query maxResults :
  readOnly (semanticSearch rt query maxResults).
Proof.
  unfold semanticSearch. apply readOnly_bind; [auto with readOnly|].
  intros v. apply readOnly_bind; auto with readOnly.
Qed.

Lemma readOnly_callFunction rt functionName args :
  readOnly (callFunction rt functionName args).
Proof.
  assert (Hill : forall f a, readOnly (illTyped rt f a))
    by (intros; apply readOnly_call).
  assert (Hkb : forall q n, readOnly (searchKB rt q n)).
  { intros. apply readOnly_tryCatch; [apply readOnly_semanticSearch|].
    intros _. apply readOnly_bind; auto with readOnly. }
  unfold callFunction.
  destruct (String.eqb functionName "searchKnowledgeBase").
  { unfold searchKnowledgeBase.
    destruct args as [| | | | |members]; auto.
    destruct (member "query" members) as [[| | |query| |]|]; auto.
    destruct (member "maxResults" members) as [[| |n| | |]|]; auto;
      apply readOnly_bind; auto with readOnly. }
  destruct (String.eqb functionName "getDocumentContent").
  { unfold getDocumentContent.
    destruct args as [| | | | |members]; auto.
    destruct (member "documentId" members) as [[| | |documentId| |]|]; auto.
    unfold getDocument. apply readOnly_bind; auto with readOnly.
    intros st'. destruct (find _ _); auto with readOnly. }
  destruct (isCalendarFunction functionName); [|auto with readOnly].
  unfold calendarFunction.
  destruct args; auto with readOnly;
    (apply readOnly_tryCatch; auto with readOnly).
Qed.

Lemma readOnly_runToolCalls rt toolCalls :
  forall messages, readOnly (runToolCalls rt messages toolCalls).
Proof.
  induction toolCalls as [|toolCall rest IH]; intros messages; simpl;
    [auto with readOnly|].
  apply readOnly_bind; [|auto].
  unfold runToolCall. apply readOnly_bind; [auto with readOnly|].
  intros args. apply readOnly_tryCatch; [|auto with readOnly].
  apply readOnly_bind; [apply readOnly_callFunction | auto with readOnly].
Qed.

Lemma readOnly_complete rt messages tools toolChoice :
  readOnly (complete rt messages tools toolChoice).
Proof.
  unfold complete. apply readOnly_bind; [auto with readOnly|].
  intros params. apply readOnly_bind; auto with readOnly.
Qed.

Lemma readOnly_retrieveRelevantInfo rt userMessage :
  readOnly (retrieveRelevantInfo rt userMessage).
Proof.
  unfold retrieveRelevantInfo.
  destruct (looksInformational userMessage); [|auto with readOnly].
  apply readOnly_tryCatch; [|auto with readOnly].
  apply readOnly_bind; [apply readOnly_semanticSearch|].
  intros results. apply readOnly_bind; auto with readOnly.
Qed.

(** X14.  A turn only reads: whatever the services answer, [chatWithBot]
    leaves the knowledge base, the vector store and the files as they are,
    and only adds events to the log. *)
Theorem chatWithBot_read_only (rt : Runtime) (userMessage : string)
  (conversationHistory : list Message) (st : State) :
  let st' := snd (chatWithBot rt userMessage conversationHistory st) in
  knowledgeBase st' = knowledgeBase st
  /\ vectorStore st' = vectorStore st
  /\ files st' = files st
  /\ exists events, log st' = log st ++ events.
Proof.
  revert st. change (readOnly (chatWithBot rt userMessage conversationHistory)).
  unfold chatWithBot. apply readOnly_tryCatch; [|auto with readOnly].
  unfold turn. apply readOnly_bind; [apply readOnly_retrieveRelevantInfo|].
  intros info. apply readOnly_bind; [apply readOnly_complete|].
  intros first. destruct (completionToolCalls first) as [toolCalls|];
    [|auto with readOnly].
  apply readOnly_bind; [apply readOnly_runToolCalls|].
  intros messages. apply readOnly_bind; [apply readOnly_complete|].
  auto with readOnly.
Qed.

(** *** The completion requests of a turn *)

Lemma complete_requests rt messages tools toolChoice st :
  exists requests,
    chatRequests (log (snd (complete rt messages tools toolChoice st)))
    = chatRequests (log st) ++ requests
    /\ (requests = [] /\ (exists e, complete rt messages tools toolChoice st = (Throw e, st))
        \/ exists request,
            requests = [request] /\ requestTools request = tools
            /\ requestToolChoice request = toolChoice
            /\ mapR convertToOpenAIMessage messages
               = Ok (requestMessages request)).
Proof.
  rewrite complete_run.
  destruct (mapR convertToOpenAIMessage messages) as [params|e].
  - eexists. simpl. rewrite chatRequests_app. split; [reflexivity|].
    right. eexists. split; [reflexivity|]. now repeat split.
  - exists []. rewrite app_nil_r. split; [reflexivity|]. left. eauto.
Qed.

(** X15.  A turn sends at most two completion requests: none when the prompt
    cannot be converted, otherwise a first one that offers the six tools
    with [tool_choice] "auto", and possibly a second one without tools. *)
Theorem chatWithBot_completion_requests (rt : Runtime) (userMessage : string)
  (conversationHistory : list Message) (st : State) :
  exists requests,
    chatRequests (log (snd (chatWithBot rt userMessage conversationHistory st)))
    = chatRequests (log st) ++ requests
    /\ (requests = []
        \/ (exists first,
               requests = [first]
               /\ requestTools first = Some functions
               /\ requestToolChoice first = Some "auto")
        \/ (exists first second,
               requests = [first; second]
               /\ requestTools first = Some functions
               /\ requestToolChoice first = Some "auto"
               /\ requestTools second = None
               /\ requestToolChoice second = None)).
Proof.
  assert (Hlog : log (snd (chatWithBot rt userMessage conversationHistory st))
                 = log (snd (turn rt userMessage conversationHistory st))).
  { unfold chatWithBot, tryCatch.
    destruct (turn rt userMessage conversationHistory st) as [[r|e] st'];
      reflexivity. }
  rewrite Hlog.
  destruct (retrieveRelevantInfo_total rt userMessage st) as (info & st1 & Hret).
  rewrite (turn_run _ _ _ _ _ _ Hret).
  pose proof (quiet_retrieveRelevantInfo rt userMessage st) as Hq.
  rewrite Hret in Hq. simpl in Hq. rewrite <- Hq.
  set (prompt := firstPrompt rt userMessage conversationHistory info).
  destruct (complete_requests rt prompt (Some functions) (Some "auto") st1)
    as (reqs1 & Hreqs1 & Hshape1).
  destruct (complete rt prompt (Some functions) (Some "auto") st1)
    as [[first|e] st2] eqn:Hfirst; simpl in Hreqs1.
  2:{ exists reqs1. split; [assumption|].
      destruct Hshape1 as [[-> _]|(request & -> & Ht & Hc & _)]; [now left|].
      right; left. eauto. }
  destruct Hshape1 as [[_ [e He]]|(request & -> & Ht & Hc & _)]; [discriminate|].
  destruct (completionToolCalls first) as [toolCalls|].
  2:{ exists [request]. split; [assumption|]. right; left. eauto. }
  pose proof (quiet_runToolCalls rt toolCalls
                (withToolCallRequest prompt first toolCalls) st2) as Hloop.
  destruct (runToolCalls rt _ toolCalls st2) as [[messages|e] st3];
    simpl in Hloop.
  2:{ exists [request]. simpl. split; [congruence|]. right; left. eauto. }
  destruct (complete_requests rt messages None None st3)
    as (reqs2 & Hreqs2 & Hshape2).
  assert (Hend : exists st4,
             snd (match complete rt messages None None st3 with
                  | (Ok second, st4) =>
                      (Ok (answered conversationHistory userMessage
                             (orEmpty (completionContent second))), st4)
                  | (Throw e, st4) => (Throw e, st4)
                  end) = st4
             /\ st4 = snd (complete rt messages None None st3)).
  { destruct (complete rt messages None None st3) as [[second|e] st4]; eauto. }
  destruct Hend as (st4 & Hst4 & Heq). rewrite Hst4, Heq, Hreqs2, Hloop, Hreqs1.
  rewrite <- app_assoc. eexists. split; [reflexivity|].
  destruct Hshape2 as [[-> _]|(second & -> & Ht2 & Hc2 & _)].
  - right; left. eauto.
  - right; right. exists request, second. auto.
Qed.

(** *** The context window *)

Lemma lastN_app {A} (n : nat) (older recent : list A) :
  (n <= length recent)%nat -> lastN n (older ++ recent) = lastN n recent.
Proof.
  intros Hn. unfold lastN. rewrite length_app, skipn_app.
  rewrite skipn_all2 by lia. simpl. f_equal. lia.
Qed.

(** X16.  Only the last ten messages of the history reach the model: with at
    least ten recent messages, the messages before them change neither the
    answer nor the calls made; they are only put back in front of the
    returned history. *)
Theorem chatWithBot_context_window (rt : Runtime) (userMessage : string)
  (older recent : list Message) (st : State) :
  (10 <= length recent)%nat ->
  chatWithBot rt userMessage (older ++ recent) st
  = (withOlder older (fst (chatWithBot rt userMessage recent st)),
     snd (chatWithBot rt userMessage recent st)).
Proof.
  intros Hrecent. unfold chatWithBot, tryCatch.
  destruct (retrieveRelevantInfo_total rt userMessage st) as (info & st1 & Hret).
  rewrite !(turn_run _ _ _ _ _ _ Hret).
  assert (Hprompt : firstPrompt rt userMessage (older ++ recent) info
                    = firstPrompt rt userMessage recent info).
  { unfold firstPrompt. now rewrite lastN_app. }
  rewrite Hprompt.
  assert (Hanswer : forall answer,
             Ok (answered (older ++ recent) userMessage answer)
             = withOlder older (Ok (answered recent userMessage answer))).
  { intros answer. unfold withOlder, answered. simpl. now rewrite app_assoc. }
  destruct (complete rt _ (Some functions) (Some "auto") st1)
    as [[first|e] st2]; [|reflexivity].
  destruct (completionToolCalls first) as [toolCalls|];
    [|now rewrite Hanswer].
  destruct (runToolCalls rt _ toolCalls st2) as [[messages|e] st3];
    [|reflexivity].
  destruct (complete rt messages None None st3) as [[second|e] st4];
    [|reflexivity].
  now rewrite Hanswer.
Qed.

Lemma chatWithBot_context_window_witness :
  let recent := repeat (plainMessage user "hello") 10 in
  chatWithBot embeddingDown "Thanks" (plainMessage user "first" :: recent) demoState
  = (withOlder [plainMessage user "first"]
       (fst (chatWithBot embeddingDown "Thanks" recent demoState)),
     snd (chatWithBot embeddingDown "Thanks" recent demoState)).
Proof.
  intros recent.
  apply (chatWithBot_context_window embeddingDown "Thanks"
           [plainMessage user "first"] recent demoState).
  simpl. lia.
Defined.

(** *** Embedding the documents *)

Lemma map_insert_same {A B} (f : A -> B) (l : list A) (i : nat) (x y : A) :
  l !! i = Some y -> f x = f y -> map f (<[i := x]> l) = map f l.
Proof.
  revert i. induction l as [|z l IH]; intros [|i] Hi Hf; simpl in *;
    try discriminate.
  - injection Hi as ->. now rewrite Hf.
  - f_equal. now apply IH.
Qed.

Lemma map_alter_same {A B} (f : A -> B) (g : A -> A) (l : list A) (i : nat) :
  (forall y, f (g y) = f y) -> map f (alter g i l) = map f l.
Proof.
  intros Hg. revert i. induction l as [|z l IH]; intros [|i]; simpl;
    try reflexivity.
  - now rewrite Hg.
  - f_equal. apply IH.
Qed.

Lemma map_lookup_same {A B} (f : A -> B) (l l' : list A) (i : nat) (x : A) :
  map f l' = map f l -> l !! i = Some x ->
  exists x', l' !! i = Some x' /\ f x' = f x.
Proof.
  revert l' i. induction l as [|z l IH]; intros [|z' l'] [|i] Hmap Hi;
    simpl in *; try discriminate.
  - injection Hi as ->. injection Hmap as Hz _. eauto.
  - injection Hmap as _ Hmap. eauto.
Qed.

Lemma embedDocument_run rt documents i doc st :
  documents !! i = Some doc ->
  exists documents',
    fst (embedDocument rt documents i st) = Ok documents'
    /\ map identity documents' = map identity documents
    /\ snd (embedDocument rt documents i st)
       = snd (record (EvEmbedding (embeddingInput doc)) st).
Proof.
  intros Hdoc. unfold embedDocument. rewrite Hdoc.
  unfold tryCatch, bind. rewrite call_run.
  fold (embeddingInput doc).
  destruct (embeddings_create rt (log st) (embeddingInput doc)) as [v|e].
  - set (members := setMember "embedding" _ _).
    destruct (findIndex (id doc) (<[i:=withMetadata doc members]> documents))
      as [docIndex|]; simpl; eexists; (split; [reflexivity|]); split;
      try reflexivity.
    + rewrite map_alter_same by reflexivity.
      now apply (map_insert_same identity documents i _ doc).
    + now apply (map_insert_same identity documents i _ doc).
  - simpl. eexists. repeat split.
Qed.

Lemma embedDocuments_run rt positions needing :
  forall documents st,
    Forall2 (fun i doc => exists doc',
                 documents !! i = Some doc' /\ identity doc' = identity doc)
      positions needing ->
    exists documents',
      fst (embedDocuments rt documents positions st) = Ok documents'
      /\ map identity documents' = map identity documents
      /\ knowledgeBase (snd (embedDocuments rt documents positions st))
         = knowledgeBase st
      /\ vectorStore (snd (embedDocuments rt documents positions st))
         = vectorStore st
      /\ files (snd (embedDocuments rt documents positions st)) = files st
      /\ log (snd (embedDocuments rt documents positions st))
         = log st ++ map (fun doc => EvEmbedding (embeddingInput doc)) needing.
Proof.
  revert needing.
  induction positions as [|i positions IH]; intros needing documents st Hall;
    inversion Hall as [|? doc ? needing' (doc' & Hdoc & Hid) Hrest]; subst.
  - simpl. exists documents. rewrite app_nil_r. now repeat split.
  - simpl. unfold bind.
    destruct (embedDocument_run rt documents i doc' st Hdoc)
      as (documents1 & Hfst & Hmap & Hsnd).
    destruct (embedDocument rt documents i st) as [r st1]. simpl in Hfst, Hsnd.
    subst r st1. cbn iota.
    destruct (IH needing' documents1
                (snd (record (EvEmbedding (embeddingInput doc')) st)))
      as (documents' & Hfst' & Hmap' & Hkb & Hvs & Hfiles & Hlog).
    { eapply Forall2_impl; [exact Hrest|].
      intros j d (d' & Hd' & Hidd).
      destruct (map_lookup_same identity documents documents1 j d' Hmap Hd')
        as (d'' & Hd'' & Hid'').
      exists d''. split; [assumption | congruence]. }
    exists documents'. split; [assumption|]. split; [congruence|].
    split; [assumption|]. split; [assumption|]. split; [assumption|].
    simpl in Hlog. rewrite Hlog, <- app_assoc. simpl.
    unfold embeddingInput, identity in *. injection Hid as _ -> ->. reflexivity.
Qed.

Lemma positionsNeeding_lookup (documents : list KnowledgeDocument) :
  forall (before : list KnowledgeDocument),
    Forall2 (fun i doc => (before ++ documents) !! i = Some doc)
      (positionsNeeding documents (length before))
      (List.filter needsEmbedding documents).
Proof.
  induction documents as [|doc documents IH]; intros before; simpl;
    [constructor|].
  specialize (IH (before ++ [doc])).
  rewrite length_app, Nat.add_1_r, <- app_assoc in IH. simpl in IH.
  destruct (needsEmbedding doc); simpl; [|assumption].
  constructor; [|assumption].
  rewrite lookup_app_r by lia. now rewrite Nat.sub_diag.
Qed.

(** X17.  [generateEmbeddingsForDocuments] never throws and returns the
    documents in the same order with the same identifiers, titles and
    contents; it makes exactly one embedding request per document that had
    no embedding, in the order of the documents, and touches neither the
    module's knowledge base nor the files. *)
Theorem generateEmbeddingsForDocuments_preserves (rt : Runtime)
  (documents : list KnowledgeDocument) (st : State) :
  let st' := snd (generateEmbeddingsForDocuments rt documents st) in
  exists documents',
    fst (generateEmbeddingsForDocuments rt documents st) = Ok documents'
    /\ map identity documents' = map identity documents
    /\ knowledgeBase st' = knowledgeBase st
    /\ vectorStore st' = vectorStore st
    /\ files st' = files st
    /\ log st'
       = log st
         ++ map (fun doc => EvEmbedding (embeddingInput doc))
              (List.filter needsEmbedding documents).
Proof.
  unfold generateEmbeddingsForDocuments.
  apply embedDocuments_run.
  eapply Forall2_impl; [apply (positionsNeeding_lookup documents [])|].
  simpl. eauto.
Qed.

(** *** Rebuilding the knowledge base *)

Lemma restoreSnapshot_false rt st :
  fst (restoreSnapshot rt st) = Ok false -> snd (restoreSnapshot rt st) = st.
Proof.
  unfold restoreSnapshot, tryCatch, bind, readFile, liftR.
  destruct (files st !! vectorStorePath rt) as [text|]; [|reflexivity].
  destruct (JSON_parse rt text) as [[| | | | |members]|e]; try reflexivity.
  destruct (truthyMember (member "vectorStore" members)
            && truthyMember (member "knowledgeBase" members)); [|reflexivity].
  destruct (match member "vectorStore" members with
            | Some j => entriesOf j | None => None end) as [vs|];
    [destruct (match member "knowledgeBase" members with
               | Some j => documentsOf j | None => None end) as [kb|]|];
    discriminate.
Qed.

Lemma loadFile_keeps rt directoryPath file st :
  vectorStore (snd (loadFile rt directoryPath file st)) = vectorStore st
  /\ files (snd (loadFile rt directoryPath file st)) = files st
  /\ log (snd (loadFile rt directoryPath file st)) = log st.
Proof.
  unfold loadFile, bind, readFile, getState.
  destruct (files st !! path_join rt directoryPath file) as [text|];
    [|now repeat split].
  destruct (len (content (sourceDocument rt file text)) >? 10000)%Z;
    now repeat split.
Qed.

Lemma loadFiles_keeps rt directoryPath contentFiles :
  forall st,
    vectorStore (snd (loadFiles rt directoryPath contentFiles st))
    = vectorStore st
    /\ files (snd (loadFiles rt directoryPath contentFiles st)) = files st
    /\ log (snd (loadFiles rt directoryPath contentFiles st)) = log st.
Proof.
  induction contentFiles as [|file rest IH]; intros st; simpl; [now repeat split|].
  unfold bind.
  destruct (loadFile_keeps rt directoryPath file st) as (Hv & Hf & Hl).
  destruct (loadFile rt directoryPath file st) as [[[]|e] st1];
    simpl in Hv, Hf, Hl; [|now repeat split].
  destruct (IH st1) as (Hv' & Hf' & Hl'). repeat split; congruence.
Qed.

Lemma persistKnowledgeBase_keeps rt path documents entries st :
  fst (persistKnowledgeBase rt path documents entries st) = Ok tt
  /\ knowledgeBase (snd (persistKnowledgeBase rt path documents entries st))
     = knowledgeBase st
  /\ vectorStore (snd (persistKnowledgeBase rt path documents entries st))
     = vectorStore st.
Proof.
  unfold persistKnowledgeBase, tryCatch, bind, now, writeFile. simpl.
  destruct (fs_writeFile_error rt (log st) _); now repeat split.
Qed.

Lemma vectorStoreOf_resolves rt (kb : list KnowledgeDocument) :
  Forall (fun entry => resolves kb entry = true) (vectorStoreOf rt kb).
Proof.
  apply List.Forall_forall. intros entry Hin. unfold vectorStoreOf in Hin.
  apply in_map_iff in Hin as (doc & <- & Hdoc).
  apply filter_In in Hdoc as [Hdoc _].
  unfold resolves. apply existsb_exists. exists doc. split; [assumption|].
  apply String.eqb_refl.
Qed.

Lemma rebuildFromFiles_outcome rt directoryPath st r st' :
  rebuildFromFiles rt directoryPath st = (r, st') ->
  vectorStore st' = []
  \/ vectorStore st' = vectorStoreOf rt (knowledgeBase st').
Proof.
  unfold rebuildFromFiles, bind, setKnowledgeBase, setVectorStore, getState,
    generateEmbeddingsForDocuments.
  rewrite call_run. simpl.
  destruct (fs_readdir rt (log st) directoryPath) as [listing|e].
  2:{ intros H. injection H as _ <-. now left. }
  match goal with
  | |- context [loadFiles rt directoryPath ?fs ?s] =>
      destruct (loadFiles_keeps rt directoryPath fs s) as (Hvs & _ & _);
      destruct (loadFiles rt directoryPath fs s) as [[[]|e] st1]
  end; simpl in Hvs.
  2:{ intros H. injection H as _ <-. now left. }
  destruct (embedDocuments_run rt (positionsNeeding (knowledgeBase st1) 0)
              (List.filter needsEmbedding (knowledgeBase st1))
              (knowledgeBase st1) st1) as (kb & Hkb & _).
  { eapply Forall2_impl; [apply (positionsNeeding_lookup _ [])|]. simpl. eauto. }
  destruct (embedDocuments rt (knowledgeBase st1) _ st1) as [r1 st2].
  simpl in Hkb. subst r1. simpl.
  match goal with
  | |- context [persistKnowledgeBase rt ?p ?d ?v ?s] =>
      destruct (persistKnowledgeBase_keeps rt p d v s) as (_ & Hk & Hv);
      destruct (persistKnowledgeBase rt p d v s) as [r2 st3]
  end.
  simpl in Hk, Hv. intros H. injection H as _ <-. right. now rewrite Hk, Hv.
Qed.

(** X18.  When no snapshot is restored, [loadKnowledgeBase] returns normally
    and leaves a vector store that is empty or holds exactly the entries of
    the documents of the knowledge base that carry an embedding; in both
    cases every entry names a document of the knowledge base. *)
Theorem loadKnowledgeBase_rebuilt_store (rt : Runtime) (directoryPath : string)
  (st : State) :
  fst (restoreSnapshot rt st) = Ok false ->
  let st' := snd (loadKnowledgeBase rt directoryPath st) in
  fst (loadKnowledgeBase rt directoryPath st) = Ok tt
  /\ (vectorStore st' = []
      \/ vectorStore st' = vectorStoreOf rt (knowledgeBase st'))
  /\ Forall (fun entry => resolves (knowledgeBase st') entry = true)
       (vectorStore st').
Proof.
  intros Hno. pose proof (restoreSnapshot_false rt st Hno) as Hst.
  unfold loadKnowledgeBase, tryCatch, bind.
  destruct (restoreSnapshot rt st) as [r st0]. simpl in Hno, Hst. subst r st0.
  pose proof (rebuildFromFiles_outcome rt directoryPath st) as Hout.
  destruct (rebuildFromFiles rt directoryPath st) as [[[]|e] st1];
    specialize (Hout _ _ eq_refl); simpl.
  all: split; [reflexivity|]; split; [assumption|].
  all: destruct Hout as [->| ->];
    [constructor | apply vectorStoreOf_resolves].
Qed.

Lemma loadKnowledgeBase_rebuilt_store_witness :
  let st' := snd (loadKnowledgeBase oneNote "./knowledge" noteOnDisk) in
  Forall (fun entry => resolves (knowledgeBase st') entry = true)
    (vectorStore st').
Proof.
  intros st'.
  apply (loadKnowledgeBase_rebuilt_store oneNote "./knowledge" noteOnDisk).
  vm_compute. reflexivity.
Defined.

Example loadKnowledgeBase_one_note :
  let st' := snd (loadKnowledgeBase oneNote "./knowledge" noteOnDisk) in
  map id (knowledgeBase st') = ["notes.md"]
  /\ map title (knowledgeBase st') = ["notes"]
  /\ vectorStore st' = [ {| entryDocumentId := "notes.md"; embedding := [1; 0]%Q |} ].
Proof. vm_compute. repeat split. Qed.

(** X19.  When no snapshot is restored and the directory cannot be listed,
    [loadKnowledgeBase] still returns normally, and the knowledge base and
    the vector store are left empty: what was loaded before is gone. *)
Theorem loadKnowledgeBase_unreadable_directory (rt : Runtime)
  (directoryPath : string) (st : State) (e : JSError) :
  fst (restoreSnapshot rt st) = Ok false ->
  fs_readdir rt (log st) directoryPath = Throw e ->
  loadKnowledgeBase rt directoryPath st
  = (Ok tt,
     {| knowledgeBase := []; vectorStore := []; files := files st;
        log := log st ++ [EvReaddir directoryPath] |}).
Proof.
  intros Hno Hdir. pose proof (restoreSnapshot_false rt st Hno) as Hst.
  unfold loadKnowledgeBase, tryCatch, bind at 1.
  destruct (restoreSnapshot rt st) as [r st0]. simpl in Hno, Hst. subst r st0.
  unfold rebuildFromFiles, bind, setKnowledgeBase, setVectorStore.
  rewrite call_run. simpl. now rewrite Hdir.
Qed.

Lemma loadKnowledgeBase_unreadable_directory_witness :
  let st' := snd (loadKnowledgeBase directoryMissing "./knowledge" demoState) in
  knowledgeBase demoState = [policyDocument; faqDocument]
  /\ knowledgeBase st' = [] /\ vectorStore st' = [].
Proof.
  rewrite (loadKnowledgeBase_unreadable_directory directoryMissing "./knowledge"
             demoState (serviceDown "ENOENT: scandir")); [|reflexivity..].
  now repeat split.
Defined.

(** *** Source files *)

Lemma substring_append_l (a b : string) :
  String.substring 0 (String.length a) (a +:+ b) = a.
Proof.
  induction a as [|c a IH]; simpl.
  - rewrite append_nil_l. now destruct b.
  - now rewrite IH.
Qed.

Lemma substring_all (b : string) : String.substring 0 (String.length b) b = b.
Proof. induction b as [|c b IH]; simpl; [reflexivity | now rewrite IH]. Qed.

Lemma substring_append_r (a b : string) :
  String.substring (String.length a) (String.length b) (a +:+ b) = b.
Proof.
  induction a as [|c a IH]; simpl.
  - rewrite append_nil_l. apply substring_all.
  - exact IH.
Qed.

Lemma substring_split (s : string) :
  forall n, (n <= String.length s)%nat ->
  s = String.substring 0 n s +:+ String.substring n (String.length s - n) s.
Proof.
  induction s as [|c s IH]; intros [|n] Hn; simpl in *; try lia.
  - reflexivity.
  - rewrite append_nil_l. now rewrite substring_all.
  - rewrite ?append_cons. f_equal. apply IH. lia.
Qed.

Lemma endsWith_append (a b : string) : endsWith (a +:+ b) b = true.
Proof.
  unfold endsWith. rewrite length_append.
  replace (String.length a + String.length b - String.length b)%nat
    with (String.length a) by lia.
  rewrite substring_append_r, String.eqb_refl. simpl.
  apply Nat.leb_le. lia.
Qed.

Lemma endsWith_inv (s suffix : string) :
  endsWith s suffix = true -> exists p, s = p +:+ suffix.
Proof.
  unfold endsWith. intros H. apply andb_true_iff in H as [Heq Hle].
  apply String.eqb_eq in Heq. apply Nat.leb_le in Hle.
  exists (String.substring 0 (String.length s - String.length suffix) s).
  pose proof (substring_split s (String.length s - String.length suffix)) as Hs.
  replace (String.length s - (String.length s - String.length suffix))%nat
    with (String.length suffix) in Hs by lia.
  rewrite Heq in Hs. apply Hs. lia.
Qed.

Lemma snoc_inj (a b : string) (c d : ascii) :
  a +:+ String c "" = b +:+ String d "" -> a = b /\ c = d.
Proof.
  revert b. induction a as [|x a IH]; intros [|y b]; simpl; rewrite ?append_cons,
    ?append_nil_l; intros H.
  - now injection H.
  - injection H as _ H. destruct b; discriminate.
  - injection H as _ H. destruct a; discriminate.
  - injection H as -> H. destruct (IH b H) as [-> ->]. auto.
Qed.

(** Two names with different last characters differ. *)
Lemma append_last_differs (a b u v : string) (c d : ascii) :
  c <> d -> a +:+ (u +:+ String c "") <> b +:+ (v +:+ String d "").
Proof.
  intros Hcd H. rewrite <- !append_assoc in H.
  now apply snoc_inj in H as [_ H].
Qed.

Lemma endsWith_other (base : string) (u v : string) (c d : ascii) :
  c <> d -> endsWith (base +:+ (u +:+ String c "")) (v +:+ String d "") = false.
Proof.
  intros Hcd. destruct (endsWith _ _) eqn:H; [|reflexivity].
  apply endsWith_inv in H as [p H].
  now apply append_last_differs in H.
Qed.

Lemma cut_append (base ext : string) :
  String.substring 0 (String.length (base +:+ ext) - String.length ext)
    (base +:+ ext) = base.
Proof.
  rewrite length_append.
  replace (String.length base + String.length ext - String.length ext)%nat
    with (String.length base) by lia.
  apply substring_append_l.
Qed.

(** X20.  A file [base.md] or [base.txt], and a file [base.json] whose text is
    not JSON, becomes the document with the file name as identifier, [base]
    as title, the raw text as content and empty metadata; such a file is
    taken as a content file unless it is [vector-store.json]. *)
Theorem sourceDocument_verbatim (rt : Runtime) (base ext text : string) :
  ext = ".md" \/ ext = ".txt"
  \/ (ext = ".json" /\ exists e, JSON_parse rt text = Throw e) ->
  sourceDocument rt (base +:+ ext) text
  = {| id := base +:+ ext; title := base; content := text;
       metadata := Some [] |}
  /\ isContentFile (base +:+ ext)
     = negb (String.eqb (base +:+ ext) "vector-store.json").
Proof.
  assert (Hmd : forall b, endsWith (b +:+ ".md") ".md" = true)
    by (intros; apply endsWith_append).
  assert (Htxt : forall b, endsWith (b +:+ ".txt") ".txt" = true)
    by (intros; apply endsWith_append).
  assert (Hjson : forall b, endsWith (b +:+ ".json") ".json" = true)
    by (intros; apply endsWith_append).
  assert (H1 : endsWith (base +:+ ".md") ".json" = false)
    by (apply (endsWith_other base ".m" ".jso"); discriminate).
  assert (H2 : endsWith (base +:+ ".txt") ".json" = false)
    by (apply (endsWith_other base ".tx" ".jso"); discriminate).
  assert (H3 : endsWith (base +:+ ".txt") ".md" = false)
    by (apply (endsWith_other base ".tx" ".m"); discriminate).
  assert (H4 : endsWith (base +:+ ".json") ".md" = false)
    by (apply (endsWith_other base ".jso" ".m"); discriminate).
  assert (H5 : endsWith (base +:+ ".json") ".txt" = false)
    by (apply (endsWith_other base ".jso" ".tx"); discriminate).
  unfold sourceDocument, isContentFile, withoutExtension.
  intros [->|[->|[-> [e Hparse]]]].
  - rewrite Hmd, H1. simpl. now rewrite cut_append.
  - rewrite Htxt, H2, H3. simpl. now rewrite cut_append.
  - rewrite Hjson, H4, H5, Hparse. simpl. now rewrite cut_append.
Qed.

Lemma sourceDocument_verbatim_witness :
  sourceDocument calendarDown "broken.json" "{ title: "
  = {| id := "broken.json"; title := "broken"; content := "{ title: ";
       metadata := Some [] |}.
Proof.
  apply (sourceDocument_verbatim calendarDown "broken" ".json" "{ title: ").
  right. right. split; [reflexivity|]. eexists. vm_compute. reflexivity.
Defined.

(** *** Chunk documents *)

Lemma member_setMember_same (key : string) (value : json)
  (members : list (string * json)) :
  member key (setMember key value members) = Some value.
Proof.
  unfold member. induction members as [|[k v] members IH]; simpl.
  - now rewrite String.eqb_refl.
  - destruct (String.eqb k key) eqn:Hk; simpl; rewrite Hk; [reflexivity|exact IH].
Qed.

Lemma member_setMember_other (key other : string) (value : json)
  (members : list (string * json)) :
  other <> key -> member other (setMember key value members) = member other members.
Proof.
  intros Hother. unfold member.
  induction members as [|[k v] members IH]; simpl.
  - assert (String.eqb key other = false) as ->
      by (apply String.eqb_neq; congruence).
    reflexivity.
  - destruct (String.eqb k key) eqn:Hk; simpl.
    + apply String.eqb_eq in Hk. subst k.
      assert (String.eqb key other = false) as ->
        by (apply String.eqb_neq; congruence).
      reflexivity.
    + destruct (String.eqb k other); [reflexivity | exact IH].
Qed.

Lemma chunkDocuments_lookup (document : KnowledgeDocument) (chunks : list string) :
  forall (index i : nat) (d : KnowledgeDocument),
    chunkDocuments document chunks index !! i = Some d ->
    exists chunk,
      chunks !! i = Some chunk
      /\ d = {| id := id document +:+ "-chunk-" +:+ natToString (index + i);
                title := title document +:+ " - Part "
                         +:+ natToString (index + i + 1);
                content := chunk;
                metadata :=
                  Some (setMember "chunkIndex"
                          (JNumber (inject_Z (Z.of_nat (index + i))))
                          (setMember "parentId" (JString (id document))
                             (match metadata document with
                              | Some m => m
                              | None => []
                              end))) |}.
Proof.
  induction chunks as [|chunk chunks IH]; intros index [|i] d; simpl;
    try discriminate.
  - intros H. injection H as <-. exists chunk. rewrite Nat.add_0_r. auto.
  - intros H. destruct (IH (S index) i d H) as (c & Hc & ->).
    exists c. split; [assumption|].
    now replace (S index + i)%nat with (index + S i)%nat by lia.
Qed.

(** X21.  The chunk documents of an oversized document hold the chunks in
    order; the one at index [i] has the identifier [id-chunk-i] and the
    title [title - Part i+1], its metadata give [parentId] as the
    document's identifier and [chunkIndex] as [i], replacing members of
    these names, and keep every other member of the document's metadata. *)
Theorem chunkDocuments_records (document : KnowledgeDocument)
  (chunks : list string) :
  map content (chunkDocuments document chunks 0) = chunks
  /\ forall i d,
      chunkDocuments document chunks 0 !! i = Some d ->
      id d = id document +:+ "-chunk-" +:+ natToString i
      /\ title d = title document +:+ " - Part " +:+ natToString (i + 1)
      /\ metadataMember d "parentId" = Some (JString (id document))
      /\ metadataMember d "chunkIndex"
         = Some (JNumber (inject_Z (Z.of_nat i)))
      /\ forall key,
          key <> "parentId" -> key <> "chunkIndex" ->
          metadataMember d key = metadataMember document key.
Proof.
  split.
  - generalize 0%nat. induction chunks as [|chunk chunks IH]; intros index;
      simpl; [reflexivity|]. now rewrite IH.
  - intros i d Hd.
    destruct (chunkDocuments_lookup document chunks 0 i d Hd) as (chunk & _ & ->).
    simpl. unfold metadataMember. simpl.
    split; [reflexivity|]. split; [reflexivity|]. split; [|split].
    + rewrite member_setMember_other by discriminate.
      apply member_setMember_same.
    + apply member_setMember_same.
    + intros key Hp Hc. rewrite !member_setMember_other by assumption.
      now destruct (metadata document).
Qed.

(** *** The calendar handlers *)

Section CalendarProperties.

Variable freebusy_query : list CalendarCall -> FreeBusyRequest -> Result FreeBusyResponse.
Variable events_insert : list CalendarCall -> json -> EventBody -> Result InsertedEvent.
Variable events_delete : list CalendarCall -> json -> option json -> Result unit.
Variable events_list : list CalendarCall -> ListRequest -> Result EventList.
Variable toISOString : list CalendarCall -> string.
Variable toPropertyKey : json -> string.


(** The handler after the destructuring of arguments that are not [null]. *)
Lemma checkAvailability_run (args : json) (l : list CalendarCall) :
  args <> JNull ->
  checkAvailability freebusy_query toPropertyKey args l
  = match property "startDateTime" args, property "endDateTime" args with
    | Some (JString startText), Some (JString endText) =>
        let calendarId := orDefault (property "calendarId" args) primary in
        let request := {| timeMin := withZ startText;
                          timeMax := withZ endText;
                          freeBusyItem := calendarId |} in
        (match freebusy_query l request with
         | Ok data =>
             Ok {| isAvailable :=
                     Nat.eqb (length (busyOf toPropertyKey data calendarId)) 0;
                   busySlots := busyOf toPropertyKey data calendarId;
                   availabilityStart := startText;
                   availabilityEnd := endText |}
         | Throw _ => Throw (failedTo "checkAvailability")
         end,
         l ++ [FreeBusyQuery request])
    | _, _ => (Throw (failedTo "checkAvailability"), l)
    end.
Proof.
  intros Hargs. unfold checkAvailability.
  assert (Hrun :
    tryCatchC
      (checkAvailabilityBlock freebusy_query toPropertyKey
         (property "startDateTime" args) (property "endDateTime" args)
         (orDefault (property "calendarId" args) primary))
      (fun _ => throwC (failedTo "checkAvailability")) l
    = match property "startDateTime" args, property "endDateTime" args with
      | Some (JString startText), Some (JString endText) =>
          let calendarId := orDefault (property "calendarId" args) primary in
          let request := {| timeMin := withZ startText;
                            timeMax := withZ endText;
                            freeBusyItem := calendarId |} in
          (match freebusy_query l request with
           | Ok data =>
               Ok {| isAvailable :=
                       Nat.eqb (length (busyOf toPropertyKey data calendarId)) 0;
                     busySlots := busyOf toPropertyKey data calendarId;
                     availabilityStart := startText;
                     availabilityEnd := endText |}
           | Throw _ => Throw (failedTo "checkAvailability")
           end,
           l ++ [FreeBusyQuery request])
      | _, _ => (Throw (failedTo "checkAvailability"), l)
      end).
  { unfold tryCatchC, checkAvailabilityBlock, bindC, stringArgument, callC,
      retC, throwC.
    destruct (property "startDateTime" args) as [[| | |s| |]|]; try reflexivity.
    destruct (property "endDateTime" args) as [[| | |e| |]|]; try reflexivity.
    cbv zeta.
    destruct (freebusy_query l _); reflexivity. }
  destruct args; try exact Hrun. congruence.
Qed.


(** The nested availability check of [createAppointment]. *)
Lemma property_nested (startDateTime endDateTime : option json)
  (calendarId : json) :
  let nested :=
    JObject (optional "startDateTime" startDateTime
             ++ optional "endDateTime" endDateTime
             ++ [("calendarId", calendarId)]) in
  property "startDateTime" nested = startDateTime
  /\ property "endDateTime" nested = endDateTime
  /\ property "calendarId" nested = Some calendarId.
Proof.
  destruct startDateTime, endDateTime; repeat split.
Qed.

Lemma createAppointment_run (args : json) (l : list CalendarCall) :
  args <> JNull ->
  let calendarId := orDefault (property "calendarId" args) primary in
  let attendees := orDefault (property "attendees" args) (JArray []) in
  createAppointment freebusy_query events_insert toPropertyKey args l
  = match property "startDateTime" args, property "endDateTime" args with
    | Some (JString startText), Some (JString endText) =>
        let request := {| timeMin := withZ startText;
                          timeMax := withZ endText;
                          freeBusyItem := calendarId |} in
        match freebusy_query l request with
        | Throw _ =>
            (Throw (failedTo "createAppointment"), l ++ [FreeBusyQuery request])
        | Ok data =>
            match busyOf toPropertyKey data calendarId with
            | slot :: slots =>
                (Ok {| success := false;
                       appointmentMessage :=
                         Some "The requested time slot is not available";
                       appointmentEventId := None;
                       htmlLink := None;
                       appointmentSummary := None;
                       appointmentStart := None;
                       appointmentEnd := None;
                       conflictingEvents := Some (slot :: slots) |},
                 l ++ [FreeBusyQuery request])
            | [] =>
                match attendees with
                | JArray emails =>
                    let event :=
                      {| eventSummary := property "summary" args;
                         eventDescription := property "description" args;
                         eventStart :=
                           {| dateTime := Some (JString startText);
                              timeZone := "America/Los_Angeles" |};
                         eventEnd :=
                           {| dateTime := Some (JString endText);
                              timeZone := "America/Los_Angeles" |};
                         eventLocation := property "location" args;
                         eventAttendees := emails;
                         sendUpdates := "all" |} in
                    (match events_insert (l ++ [FreeBusyQuery request])
                             calendarId event with
                     | Ok data =>
                         Ok {| success := true;
                               appointmentMessage := None;
                               appointmentEventId :=
                                 Some (orEmpty (insertedId data));
                               htmlLink :=
                                 Some (orEmpty (insertedHtmlLink data));
                               appointmentSummary := property "summary" args;
                               appointmentStart := Some (JString startText);
                               appointmentEnd := Some (JString endText);
                               conflictingEvents := None |}
                     | Throw _ => Throw (failedTo "createAppointment")
                     end,
                     (l ++ [FreeBusyQuery request])
                     ++ [EventsInsert calendarId event])
                | _ =>
                    (Throw (failedTo "createAppointment"),
                     l ++ [FreeBusyQuery request])
                end
            end
        end
    | _, _ => (Throw (failedTo "createAppointment"), l)
    end.
Proof.
  intros Hargs calendarId attendees.
  match goal with
  | |- _ = ?outcome =>
      assert (Hrun :
        tryCatchC
          (createAppointmentBlock freebusy_query events_insert toPropertyKey
             (property "summary" args) (property "description" args)
             (property "startDateTime" args) (property "endDateTime" args)
             (property "location" args) attendees calendarId)
          (fun _ => throwC (failedTo "createAppointment")) l
        = outcome)
  end.
  { unfold tryCatchC, createAppointmentBlock, bindC.
    destruct (property_nested (property "startDateTime" args)
                (property "endDateTime" args) calendarId) as (Hs & He & Hc).
    rewrite checkAvailability_run by discriminate.
    cbv zeta in Hs, He, Hc. rewrite Hs, He, Hc. simpl orDefault.
    destruct (property "startDateTime" args) as [[| | |s| |]|]; try reflexivity.
    destruct (property "endDateTime" args) as [[| | |e| |]|]; try reflexivity.
    cbv zeta.
    destruct (freebusy_query l _) as [data|err]; [|reflexivity].
    destruct (busyOf toPropertyKey data calendarId) as [|slot slots];
      [|reflexivity].
    simpl. unfold arrayArgument, throwC, retC, callC.
    destruct attendees; try reflexivity.
    destruct (events_insert _ _ _); reflexivity. }
  unfold createAppointment. destruct args; try exact Hrun. congruence.
Qed.

(** X23.  When [createAppointment] returns, it has queried the availability
    first.  If the calendar is busy, no event is inserted and the result
    reports the failure with the conflicting periods; an event is inserted
    only when the query reported no busy period, it is then the only
    insertion, on the calendar that was queried, and it carries the summary,
    the date-times and the attendees given. *)
Theorem createAppointment_outcome (args : json) (l l' : list CalendarCall)
  (r : AppointmentResult) :
  createAppointment freebusy_query events_insert toPropertyKey args l
  = (Ok r, l') ->
  let calendarId := orDefault (property "calendarId" args) primary in
  exists request data,
    freebusy_query l request = Ok data
    /\ freeBusyItem request = calendarId
    /\ ((busyOf toPropertyKey data calendarId <> []
         /\ l' = l ++ [FreeBusyQuery request]
         /\ success r = false
         /\ appointmentEventId r = None
         /\ conflictingEvents r = Some (busyOf toPropertyKey data calendarId))
        \/ (busyOf toPropertyKey data calendarId = []
            /\ exists event inserted,
                l' = l ++ [FreeBusyQuery request; EventsInsert calendarId event]
                /\ events_insert (l ++ [FreeBusyQuery request]) calendarId event
                   = Ok inserted
                /\ success r = true
                /\ appointmentEventId r = Some (orEmpty (insertedId inserted))
                /\ conflictingEvents r = None
                /\ eventSummary event = property "summary" args
                /\ dateTime (eventStart event) = property "startDateTime" args
                /\ dateTime (eventEnd event) = property "endDateTime" args
                /\ JArray (eventAttendees event)
                   = orDefault (property "attendees" args) (JArray []))).
Proof.
  intros Hrun calendarId.
  assert (Hargs : args <> JNull) by (intros ->; discriminate).
  rewrite (createAppointment_run args l Hargs) in Hrun. cbv zeta in Hrun.
  fold calendarId in Hrun.
  destruct (property "startDateTime" args) as [[| | |s| |]|]; try discriminate.
  destruct (property "endDateTime" args) as [[| | |e| |]|]; try discriminate.
  destruct (freebusy_query l _) as [data|err] eqn:Hquery; [|discriminate].
  eexists. exists data. split; [exact Hquery|]. split; [reflexivity|].
  destruct (busyOf toPropertyKey data calendarId) as [|slot slots].
  - right. split; [reflexivity|].
    destruct (orDefault (property "attendees" args) (JArray []))
      as [| | | |emails|]; try discriminate.
    destruct (events_insert _ _ _) as [inserted|err] eqn:Hinsert;
      [|discriminate].
    injection Hrun as <- <-. eexists. exists inserted.
    rewrite <- app_assoc. simpl.
    split; [reflexivity|]. split; [exact Hinsert|]. now repeat split.
  - left. injection Hrun as <- <-. now repeat split.
Qed.

(** X24.  An error thrown by a calendar handler is either the [TypeError] of
    arguments that are [null], raised before any call, or the handler's own
    fixed message; in particular a failure of the availability check inside
    [createAppointment] is reported as 'Failed to create appointment'. *)
Theorem calendar_handler_errors (args : json) (l l' : list CalendarCall)
  (e : JSError) :
  (checkAvailability freebusy_query toPropertyKey args l = (Throw e, l') ->
   (args = JNull /\ e = cannotDestructure /\ l' = l)
   \/ (args <> JNull /\ errName e = "Error"
       /\ errMessage e = "Failed to check availability"))
  /\ (createAppointment freebusy_query events_insert toPropertyKey args l
      = (Throw e, l') ->
      (args = JNull /\ e = cannotDestructure /\ l' = l)
      \/ (args <> JNull /\ errName e = "Error"
          /\ errMessage e = "Failed to create appointment"))
  /\ (cancelAppointment events_delete args l = (Throw e, l') ->
      (args = JNull /\ e = cannotDestructure /\ l' = l)
      \/ (args <> JNull /\ errName e = "Error"
          /\ errMessage e = "Failed to cancel appointment"))
  /\ (listUpcomingAppointments events_list toISOString args l = (Throw e, l') ->
      (args = JNull /\ e = cannotDestructure /\ l' = l)
      \/ (args <> JNull /\ errName e = "Error"
          /\ errMessage e = "Failed to list appointments")).
Proof.
  assert (Hnull : args = JNull \/ args <> JNull)
    by (destruct args; (now left) || (right; discriminate)).
  destruct Hnull as [->|Hargs].
  { repeat split; intros H; injection H as <- <-; now left. }
  split; [|split; [|split]]; intros H; right; (split; [assumption|]).
  - rewrite (checkAvailability_run args l Hargs) in H.
    destruct (property "startDateTime" args) as [[| | |s| |]|];
      try (injection H as <- _; now split).
    destruct (property "endDateTime" args) as [[| | |e0| |]|];
      try (injection H as <- _; now split).
    cbv zeta in H. destruct (freebusy_query l _); [discriminate|].
    injection H as <- _; now split.
  - rewrite (createAppointment_run args l Hargs) in H. cbv zeta in H.
    destruct (property "startDateTime" args) as [[| | |s| |]|];
      try (injection H as <- _; now split).
    destruct (property "endDateTime" args) as [[| | |e0| |]|];
      try (injection H as <- _; now split).
    destruct (freebusy_query l _) as [data|err];
      [|injection H as <- _; now split].
    destruct (busyOf toPropertyKey data _); [|discriminate].
    destruct (orDefault (property "attendees" args) (JArray []));
      try (injection H as <- _; now split).
    destruct (events_insert _ _ _); [discriminate|].
    injection H as <- _; now split.
  - unfold cancelAppointment, tryCatchC, bindC, callC, retC, throwC in H.
    destruct args; try congruence;
      destruct (events_delete l _ _); try discriminate;
      injection H as <- _; now split.
  - unfold listUpcomingAppointments, tryCatchC, bindC, callC, retC, throwC in H.
    destruct args; try congruence;
      destruct (events_list l _); try discriminate;
      injection H as <- _; now split.
Qed.

(** X25.  When [listUpcomingAppointments] returns, it has made one list
    request (ten results and the primary calendar by default, from the
    current time), and the result holds one appointment per listed event,
    in order, [count] being their number; a missing [items] gives the empty
    list. *)
Theorem listUpcomingAppointments_outcome (args : json)
  (l l' : list CalendarCall) (r : ListAppointmentsResult) :
  listUpcomingAppointments events_list toISOString args l = (Ok r, l') ->
  exists request data,
    l' = l ++ [EventsList request]
    /\ events_list l request = Ok data
    /\ listMaxResults request = orDefault (property "maxResults" args) (JNumber 10)
    /\ listCalendarId request = orDefault (property "calendarId" args) primary
    /\ listTimeMin request = toISOString l
    /\ events r
       = map appointmentOf (match items data with Some i => i | None => [] end)
    /\ count r
       = Z.of_nat (length (match items data with Some i => i | None => [] end)).
Proof.
  intros Hrun.
  assert (Hargs : args <> JNull) by (intros ->; discriminate).
  assert (Hblock :
    listUpcomingAppointments events_list toISOString args l
    = (let request :=
         {| listCalendarId := orDefault (property "calendarId" args) primary;
            listTimeMin := toISOString l;
            listMaxResults := orDefault (property "maxResults" args) (JNumber 10);
            singleEvents := true;
            orderBy := "startTime" |} in
       (match events_list l request with
        | Ok data =>
            Ok {| events :=
                    map appointmentOf
                      (match items data with Some i => i | None => [] end);
                  count :=
                    Z.of_nat
                      (length
                         (map appointmentOf
                            (match items data with Some i => i | None => [] end)))
               |}
        | Throw _ => Throw (failedTo "listUpcomingAppointments")
        end,
        l ++ [EventsList request]))).
  { unfold listUpcomingAppointments, tryCatchC, bindC, callC, retC, throwC.
    destruct args; try congruence; cbv zeta;
      destruct (events_list l _); reflexivity. }
  rewrite Hblock in Hrun. cbv zeta in Hrun.
  destruct (events_list l _) as [data|err] eqn:Hlist; [|discriminate].
  injection Hrun as <- <-. eexists. exists data.
  split; [reflexivity|]. split; [exact Hlist|]. simpl.
  rewrite length_map. now repeat split.
Qed.

End CalendarProperties.


Example checkAvailability_example :
  fst (checkAvailability (demoFreeBusy true) demoKey slotArguments [])
  = Ok {| isAvailable := false; busySlots := [bookedSlot];
          availabilityStart := "2025-03-01T10:00:00";
          availabilityEnd := "2025-03-01T11:00:00Z" |}
  /\ snd (checkAvailability (demoFreeBusy true) demoKey slotArguments [])
     = [FreeBusyQuery {| timeMin := "2025-03-01T10:00:00Z";
                         timeMax := "2025-03-01T11:00:00Z";
                         freeBusyItem := primary |}].
Proof. split; reflexivity. Qed.

Lemma createAppointment_outcome_witness :
  exists r,
    createAppointment (demoFreeBusy true) demoInsert demoKey slotArguments []
    = (Ok r,
       [FreeBusyQuery {| timeMin := "2025-03-01T10:00:00Z";
                         timeMax := "2025-03-01T11:00:00Z";
                         freeBusyItem := primary |}])
    /\ success r = false
    /\ conflictingEvents r = Some [bookedSlot].
Proof.
  eexists. split; [vm_compute; reflexivity|].
  destruct (createAppointment_outcome (demoFreeBusy true) demoInsert demoKey
              slotArguments [] _ _ eq_refl)
    as (request & data & _ & _ & [(_ & _ & Hs & _ & Hc)|(Hfree & _)]).
  - split; [exact Hs | reflexivity].
  - split; reflexivity.
Defined.

Example createAppointment_free_slot :
  exists r event,
    createAppointment (demoFreeBusy false) demoInsert demoKey slotArguments []
    = (Ok r,
       [FreeBusyQuery {| timeMin := "2025-03-01T10:00:00Z";
                         timeMax := "2025-03-01T11:00:00Z";
                         freeBusyItem := primary |};
        EventsInsert primary event])
    /\ success r = true
    /\ appointmentEventId r = Some "evt1"
    /\ dateTime (eventStart event) = Some (JString "2025-03-01T10:00:00").
Proof. do 2 eexists. split; [vm_compute; reflexivity|]. now repeat split. Qed.

Lemma calendar_handler_errors_witness :
  errMessage (failedTo "cancelAppointment") = "Failed to cancel appointment".
Proof.
  destruct (calendar_handler_errors (demoFreeBusy true) demoInsert demoDelete
              demoList demoClock demoKey
              (JObject [("eventId", JString "evt1")]) []
              [EventsDelete primary (Some (JString "evt1"))]
              (failedTo "cancelAppointment")) as (_ & _ & Hcancel & _).
  destruct Hcancel as [(Hnull & _)|(_ & _ & Hmessage)];
    [vm_compute; reflexivity | discriminate | exact Hmessage].
Defined.

Lemma listUpcomingAppointments_outcome_witness :
  exists r,
    fst (listUpcomingAppointments demoList demoClock (JObject []) []) = Ok r
    /\ count r = 1%Z.
Proof.
  eexists. split; [vm_compute; reflexivity|].
  destruct (listUpcomingAppointments_outcome demoList demoClock (JObject []) []
              _ _ eq_refl) as (request & data & _ & Hdata & _ & _ & _ & _ & Hcount).
  injection Hdata as <-. exact Hcount.
Defined.

Example listUpcomingAppointments_example :
  fst (listUpcomingAppointments demoList demoClock (JObject []) [])
  = Ok {| events :=
            [ {| appointmentId := "evt7"; summary := ""; description := None;
                 startDateTime := "2025-12-25"; endDateTime := "";
                 location := None; attendees := [] |} ];
          count := 1 |}
  /\ snd (listUpcomingAppointments demoList demoClock (JObject []) [])
     = [EventsList {| listCalendarId := primary;
                      listTimeMin := "2025-01-01T00:00:00.000Z";
                      listMaxResults := JNumber 10;
                      singleEvents := true;
                      orderBy := "startTime" |}].
Proof. split; reflexivity. Qed.

(** *** The routes *)

Lemma chatWithBot_total rt message history st :
  exists r st',
    chatWithBot rt message history st = (Ok r, st')
    /\ (r = {| response := apology; updatedHistory := history |}
        \/ exists answer, r = answered history message answer).
Proof.
  unfold chatWithBot, tryCatch.
  destruct (turn rt message history st) as [[r|e] st'] eqn:Hturn.
  - exists r, st'. split; [reflexivity|]. right.
    now apply turn_Ok_answered in Hturn.
  - eexists. eexists. split; [reflexivity|]. now left.
Qed.

(** X26.  A request to [/api/chat] always gets a response and leaves the
    histories of the other sessions as they are.  Either the session's
    history grows by the user message and the assistant's response, or the
    response is the apology and the session's history is the same as
    before. *)
Theorem apiChat_session (rt : Runtime) (message sessionId : string)
  (sessions : SessionStore) (st : State) :
  exists reply sessions' st',
    apiChat rt message sessionId sessions st = (Ok (reply, sessions'), st')
    /\ (forall other, other <> sessionId ->
                      sessions' !! other = sessions !! other)
    /\ (sessions' !! sessionId
        = Some (sessionHistoryOf sessions sessionId
                ++ [plainMessage user message; plainMessage assistant reply])
        \/ (reply = apology
            /\ sessionHistoryOf sessions' sessionId
               = sessionHistoryOf sessions sessionId)).
Proof.
  unfold apiChat.
  destruct (existsb (String.eqb sessionId) inheritedNames).
  { exists apology, sessions, st. split; [reflexivity|]. split; [reflexivity|].
    now right. }
  unfold bind.
  destruct (chatWithBot_total rt message (sessionHistoryOf sessions sessionId) st)
    as (r & st' & -> & Hshape).
  exists (response r), (<[sessionId := updatedHistory r]> sessions), st'.
  split; [reflexivity|]. split.
  - intros other Hother. now rewrite lookup_insert_ne.
  - rewrite lookup_insert_eq. destruct Hshape as [->|[answer ->]]; simpl.
    + right. split; [reflexivity|]. unfold sessionHistoryOf at 1.
      now rewrite lookup_insert_eq.
    + now left.
Qed.

Lemma exchanges_app (history more : list Message) :
  exchanges history = true -> exchanges more = true ->
  exchanges (history ++ more) = true.
Proof.
  revert history. fix IH 1. intros [|question [|answer rest]]; simpl;
    try discriminate; auto.
  intros H Hmore. apply andb_true_iff in H as [H1 H2]. rewrite H1. simpl.
  now apply IH.
Qed.

Lemma exchanges_roles (history : list Message) :
  exchanges history = true ->
  Forall (fun m => role m = user \/ role m = assistant) history.
Proof.
  revert history. fix IH 1. intros [|question [|answer rest]]; simpl;
    try discriminate; [constructor|].
  intros H. apply andb_true_iff in H as [H Hrest].
  apply andb_true_iff in H as [Hq Ha].
  constructor; [|constructor; [|now apply IH]].
  - left. unfold isPlain in Hq. now destruct (role question).
  - right. unfold isPlain in Ha. now destruct (role answer).
Qed.

Lemma mapR_total_on {A B} (f : A -> Result B) (g : A -> B) (l : list A) :
  Forall (fun x => f x = Ok (g x)) l -> mapR f l = Ok (map g l).
Proof.
  induction 1 as [|x l Hx _ IH]; simpl; [reflexivity|]. now rewrite Hx, IH.
Qed.

Lemma convert_roles (history : list Message) :
  Forall (fun m => role m = user \/ role m = assistant) history ->
  mapR convertToOpenAIMessage history
  = Ok (map (fun m => simpleParam (role m) (messageContent m)) history).
Proof.
  intros H. apply mapR_total_on. eapply List.Forall_impl; [|exact H].
  intros m [Hm|Hm]; unfold convertToOpenAIMessage; now rewrite Hm.
Qed.

Lemma apiChat_sound rt message sessionId sessions st :
  sound sessions ->
  exists reply sessions' st',
    apiChat rt message sessionId sessions st = (Ok (reply, sessions'), st')
    /\ sound sessions'.
Proof.
  intros [Hex Hin]. unfold apiChat.
  destruct (existsb (String.eqb sessionId) inheritedNames) eqn:Hname.
  { exists apology, sessions, st. now repeat split. }
  assert (Hfresh : forall name, In name inheritedNames -> name <> sessionId).
  { intros name Hn ->. apply existsb_eqb_In in Hn. congruence. }
  assert (Hold : exchanges (sessionHistoryOf sessions sessionId) = true).
  { unfold sessionHistoryOf.
    destruct (sessions !! sessionId) as [history|] eqn:Hs; [|reflexivity].
    now apply (Hex sessionId). }
  unfold bind.
  destruct (chatWithBot_total rt message (sessionHistoryOf sessions sessionId) st)
    as (r & st' & -> & Hshape).
  exists (response r), (<[sessionId := updatedHistory r]> sessions), st'.
  split; [reflexivity|]. split.
  - intros other history. destruct (decide (other = sessionId)) as [->|Hne].
    + rewrite lookup_insert_eq. intros H. injection H as <-.
      destruct Hshape as [->|[answer ->]]; simpl; [assumption|].
      now apply exchanges_app.
    + rewrite lookup_insert_ne by congruence. apply Hex.
  - intros name Hn. rewrite lookup_insert_ne; [now apply Hin|].
    intros <-. now apply (Hfresh sessionId).
Qed.

Lemma serve_sound rt requests :
  forall sessions st,
    sound sessions ->
    exists sessions' st',
      serve rt requests sessions st = (Ok sessions', st') /\ sound sessions'.
Proof.
  induction requests as [|[message sessionId] rest IH]; intros sessions st Hs.
  - exists sessions, st. now split.
  - simpl. unfold bind.
    destruct (apiChat_sound rt message sessionId sessions st Hs)
      as (reply & sessions1 & st1 & -> & Hs1).
    apply IH. exact Hs1.
Qed.

(** X27.  Starting with no session, after any sequence of requests served one
    after the other every stored history is a sequence of exchanges (plain
    user message, plain assistant message), so has even length, and its
    conversion to completion parameters never throws. *)
Theorem serve_exchanges (rt : Runtime) (requests : list (string * string))
  (st : State) :
  exists sessions st',
    serve rt requests empty st = (Ok sessions, st')
    /\ forall sessionId history,
        sessions !! sessionId = Some history ->
        exchanges history = true
        /\ Nat.Even (length history)
        /\ mapR convertToOpenAIMessage history
           = Ok (map (fun m => simpleParam (role m) (messageContent m)) history).
Proof.
  destruct (serve_sound rt requests empty st) as (sessions & st' & Hrun & Hex & _).
  { split; intros; [rewrite lookup_empty in *; discriminate|].
    apply lookup_empty. }
  exists sessions, st'. split; [exact Hrun|].
  intros sessionId history Hs. specialize (Hex _ _ Hs).
  split; [exact Hex|]. split.
  - clear Hs. revert history Hex. fix IH 1.
    intros [|question [|answer rest]]; simpl; try discriminate.
    + intros _. exists 0%nat. reflexivity.
    + intros H. apply andb_true_iff in H as [_ H].
      destruct (IH rest H) as [k Hk]. exists (S k). simpl. lia.
  - now apply convert_roles, exchanges_roles.
Qed.

Example serve_example :
  exists sessions,
    fst (serve embeddingDown [("Hello", "s1"); ("Hi", "toString"); ("Bye", "s1")]
           empty demoState) = Ok sessions
    /\ sessions !! "s1"
       = Some [ plainMessage user "Hello"; plainMessage assistant "Hello.";
                plainMessage user "Bye"; plainMessage assistant "Hello." ]
    /\ sessions !! "toString" = None.
Proof. eexists. split; [vm_compute; reflexivity|]. split; reflexivity. Qed.

(** X28.  [/api/list-kb] lists the documents of the knowledge base in order;
    a preview is the first 100 characters of the content followed by an
    ellipsis, also for a shorter content, and the documents marked
    [hasEmbedding] are exactly those that the vector store is built from. *)
Theorem apiListKb_entries (rt : Runtime) (st : State) :
  exists infos,
    apiListKb st = (Ok infos, st)
    /\ map infoId infos = map id (knowledgeBase st)
    /\ map infoTitle infos = map title (knowledgeBase st)
    /\ Forall2 (fun doc info =>
                  contentPreview info = substring0 100 (content doc) +:+ "..."
                  /\ len (contentPreview info)
                     = (Z.min 100 (len (content doc)) + 3)%Z
                  /\ hasEmbedding info = negb (needsEmbedding doc))
         (knowledgeBase st) infos
    /\ map infoId (List.filter hasEmbedding infos)
       = map entryDocumentId (vectorStoreOf rt (knowledgeBase st)).
Proof.
  eexists. split; [reflexivity|].
  induction (knowledgeBase st) as [|doc kb (Hid & Htitle & Hall & Hvs)]; simpl.
  - repeat split. constructor.
  - split; [now rewrite Hid|]. split; [now rewrite Htitle|]. split.
    + constructor; [|exact Hall]. simpl. split; [reflexivity|]. split.
      * rewrite len_append, len_substring0. change (len "...") with 3%Z.
        pose proof (len_nonneg (content doc)). lia.
      * unfold needsEmbedding. now rewrite negb_involutive.
    + unfold vectorStoreOf in *. simpl.
      destruct (truthyMember (metadataMember doc "embedding")); simpl;
        now rewrite Hvs.
Qed.

(** *** Oversized files *)

Lemma string_of_uint_last (d : Decimal.uint) :
  d <> Decimal.Nil ->
  exists p c,
    NilEmpty.string_of_uint d = p +:+ String c ""
    /\ (48 <= code c <= 57)%nat.
Proof.
  induction d as [|d IH|d IH|d IH|d IH|d IH|d IH|d IH|d IH|d IH|d IH];
    intros Hd; [congruence|..]; simpl.
  all: assert (Hcase : d = Decimal.Nil \/ d <> Decimal.Nil)
    by (destruct d; (now left) || (right; discriminate)).
  all: destruct Hcase as [->|Hne];
    [ eexists "", _; split; [reflexivity | vm_compute; lia]
    | destruct (IH Hne) as (p & c & -> & Hc);
      eexists (String _ p), c; split; [reflexivity | exact Hc] ].
Qed.

Lemma natToString_last (n : nat) :
  exists p c, natToString n = p +:+ String c "" /\ (48 <= code c <= 57)%nat.
Proof.
  unfold natToString, NilZero.string_of_uint.
  destruct (Nat.to_uint n) eqn:Hn;
    [ exists "", "0"%char; split; [reflexivity | vm_compute; lia] | ..];
    rewrite <- Hn; apply string_of_uint_last; rewrite Hn; discriminate.
Qed.

(** The identifier of a chunk is not the name of a content file: it ends
    with a digit. *)
Lemma chunk_id_not_content_file (parent file : string) (index : nat) :
  isContentFile file = true ->
  parent +:+ "-chunk-" +:+ natToString index <> file.
Proof.
  intros Hfile Heq. unfold isContentFile in Hfile.
  apply andb_true_iff in Hfile as [Hext _].
  destruct (natToString_last index) as (p & c & Hp & Hc).
  rewrite Hp in Heq.
  assert (Hlast : exists q d, file = q +:+ String d ""
                              /\ (code d = 100 \/ code d = 116 \/ code d = 110)%nat).
  { apply orb_true_iff in Hext as [Hext|Hext];
      [apply orb_true_iff in Hext as [Hext|Hext]|];
      apply endsWith_inv in Hext as [q ->].
    - exists (q +:+ ".m"), "d"%char. rewrite append_assoc. auto.
    - exists (q +:+ ".tx"), "t"%char. rewrite append_assoc. auto.
    - exists (q +:+ ".jso"), "n"%char. rewrite append_assoc. auto. }
  destruct Hlast as (q & d & -> & Hd).
  rewrite <- !append_assoc in Heq. apply snoc_inj in Heq as [_ ->]. lia.
Qed.

Lemma sourceDocument_id rt (file text : string) :
  (forall f t j, id (illTypedSource rt f t j) = f) ->
  id (sourceDocument rt file text) = file.
Proof.
  intros Hid. unfold sourceDocument.
  destruct (endsWith file ".json"); [|reflexivity].
  destruct (JSON_parse rt text) as [[| | | | |members]|e]; try reflexivity.
  destruct (stringOr (member "content" members) text); [|apply Hid].
  destruct (objectOrEmpty (member "metadata" members)); [|apply Hid].
  destruct (stringOr (member "title" members) _); [reflexivity | apply Hid].
Qed.

Lemma chunkDocuments_ids (document : KnowledgeDocument) (chunks : list string) :
  forall index,
    Forall (fun d => exists i,
                id d = id document +:+ "-chunk-" +:+ natToString i)
      (chunkDocuments document chunks index).
Proof.
  induction chunks as [|chunk chunks IH]; intros index; simpl; constructor.
  - now exists index.
  - apply IH.
Qed.

Section OversizedFile.

Variable rt : Runtime.
Variables (directoryPath file text : string).

Hypothesis keepsName : forall f t j, id (illTypedSource rt f t j) = f.
Hypothesis contentFile : isContentFile file = true.
Hypothesis oversized : (10000 < len (content (sourceDocument rt file text)))%Z.

Lemma loadFile_not_whole (other : string) (st : State) :
  files st !! path_join rt directoryPath file = Some text ->
  Forall (fun doc => id doc <> file) (knowledgeBase st) ->
  Forall (fun doc => id doc <> file)
    (knowledgeBase (snd (loadFile rt directoryPath other st))).
Proof.
  intros Hfile Hkb. unfold loadFile, bind, readFile, getState.
  destruct (files st !! path_join rt directoryPath other) as [text'|] eqn:Hother;
    [|assumption].
  destruct (Z.gtb_spec (len (content (sourceDocument rt other text'))) 10000)
    as [Hbig|Hsmall]; simpl; apply Forall_app; (split; [assumption|]).
  - eapply List.Forall_impl; [|apply chunkDocuments_ids].
    intros d [i Hd]. simpl in Hd. rewrite Hd.
    now apply chunk_id_not_content_file.
  - constructor; [|constructor].
    rewrite sourceDocument_id by assumption. intros ->.
    rewrite Hfile in Hother. injection Hother as <-. lia.
Qed.

Lemma loadFiles_not_whole (contentFiles : list string) :
  forall st,
    files st !! path_join rt directoryPath file = Some text ->
    Forall (fun doc => id doc <> file) (knowledgeBase st) ->
    Forall (fun doc => id doc <> file)
      (knowledgeBase (snd (loadFiles rt directoryPath contentFiles st))).
Proof.
  induction contentFiles as [|other rest IH]; intros st Hfile Hkb; simpl;
    [assumption|].
  unfold bind.
  pose proof (loadFile_not_whole other st Hfile Hkb) as Hstep.
  destruct (loadFile_keeps rt directoryPath other st) as (_ & Hfiles & _).
  destruct (loadFile rt directoryPath other st) as [[[]|e] st1];
    simpl in Hstep, Hfiles; [|assumption].
  apply IH; [now rewrite Hfiles | assumption].
Qed.

Lemma identity_ids (kb kb' : list KnowledgeDocument) :
  map identity kb' = map identity kb ->
  Forall (fun doc => id doc <> file) kb ->
  Forall (fun doc => id doc <> file) kb'.
Proof.
  revert kb'. induction kb as [|doc kb IH]; intros [|doc' kb'] Hmap Hkb;
    try discriminate; [constructor|].
  injection Hmap as Hdoc Hmap. inversion Hkb as [|? ? Hne Hrest]; subst.
  constructor; [|now apply IH].
  assert (Hsame : id doc' = id doc) by (unfold identity in Hdoc; congruence).
  now rewrite Hsame.
Qed.

Lemma rebuildFromFiles_not_whole st r st' :
  files st !! path_join rt directoryPath file = Some text ->
  rebuildFromFiles rt directoryPath st = (r, st') ->
  Forall (fun doc => id doc <> file) (knowledgeBase st').
Proof.
  intros Hfile.
  unfold rebuildFromFiles, bind, setKnowledgeBase, setVectorStore, getState,
    generateEmbeddingsForDocuments.
  rewrite call_run. simpl.
  destruct (fs_readdir rt (log st) directoryPath) as [listing|e].
  2:{ intros H. injection H as _ <-. constructor. }
  match goal with
  | |- context [loadFiles rt directoryPath ?fs ?s] =>
      pose proof (loadFiles_not_whole fs s Hfile (List.Forall_nil _)) as Hkb;
      destruct (loadFiles rt directoryPath fs s) as [[[]|e] st1]
  end; simpl in Hkb.
  2:{ intros H. injection H as _ <-. exact Hkb. }
  destruct (embedDocuments_run rt (positionsNeeding (knowledgeBase st1) 0)
              (List.filter needsEmbedding (knowledgeBase st1))
              (knowledgeBase st1) st1) as (kb & Hrun & Hsame & _).
  { eapply Forall2_impl; [apply (positionsNeeding_lookup _ [])|]. simpl. eauto. }
  destruct (embedDocuments rt (knowledgeBase st1) _ st1) as [r1 st2].
  simpl in Hrun. subst r1. simpl.
  match goal with
  | |- context [persistKnowledgeBase rt ?p ?d ?v ?s] =>
      destruct (persistKnowledgeBase_keeps rt p d v s) as (_ & Hk & _);
      destruct (persistKnowledgeBase rt p d v s) as [r2 st3]
  end.
  simpl in Hk. intros H. injection H as _ <-. rewrite Hk.
  now apply (identity_ids (knowledgeBase st1)).
Qed.

(** X29.  When the knowledge base is rebuilt, a content file whose document
    is longer than 10000 characters is never stored under its own name: no
    document of the knowledge base has the file name as identifier (its
    chunks have identifiers that end with a digit), so [getDocument] on the
    file name answers that the document is not found and the parent of a
    chunk is never found. *)
Theorem oversized_file_not_stored (st : State) :
  fst (restoreSnapshot rt st) = Ok false ->
  files st !! path_join rt directoryPath file = Some text ->
  let st' := snd (loadKnowledgeBase rt directoryPath st) in
  Forall (fun doc => id doc <> file) (knowledgeBase st')
  /\ fst (getDocument file st')
     = Ok (JObject [("error", JString (documentNotFound file))]).
Proof.
  intros Hno Hfile st'.
  assert (Hkb : Forall (fun doc => id doc <> file) (knowledgeBase st')).
  { subst st'. pose proof (restoreSnapshot_false rt st Hno) as Hst.
    unfold loadKnowledgeBase, tryCatch, bind.
    destruct (restoreSnapshot rt st) as [r0 st0]. simpl in Hno, Hst. subst r0 st0.
    pose proof (rebuildFromFiles_not_whole st) as Hout.
    destruct (rebuildFromFiles rt directoryPath st) as [[[]|e] st1];
      specialize (Hout _ _ Hfile eq_refl); exact Hout. }
  split; [exact Hkb|].
  unfold getDocument, bind, getState. rewrite find_absent; [reflexivity|].
  eapply List.Forall_impl; [|exact Hkb]. intros doc Hdoc. simpl in Hdoc.
  now apply String.eqb_neq.
Qed.

End OversizedFile.

Lemma oversized_file_not_stored_witness :
  let st' := snd (loadKnowledgeBase oneManual "./knowledge" manualOnDisk) in
  fst (getDocument "manual.md" st')
  = Ok (JObject [("error", JString (documentNotFound "manual.md"))]).
Proof.
  intros st'.
  apply (oversized_file_not_stored oneManual "./knowledge" "manual.md" manualText).
  - reflexivity.
  - vm_compute. reflexivity.
  - vm_compute. reflexivity.
  - vm_compute. reflexivity.
  - vm_compute. reflexivity.
Defined.

Example oversized_file_chunks :
  let st' := snd (loadKnowledgeBase oneManual "./knowledge" manualOnDisk) in
  map id (knowledgeBase st')
  = map (fun i => "manual.md-chunk-" +:+ natToString i) (seq 0 8)
  /\ map entryDocumentId (vectorStore st') = map id (knowledgeBase st').
Proof. vm_compute. split; reflexivity. Qed.

(** *** The proactive retrieval *)

Lemma fold_left_append {A} (f : A -> string) (l : list A) (h : string) :
  fold_left (fun info x => info +:+ f x) l h
  = h +:+ fold_right String.append "" (map f l).
Proof.
  revert h. induction l as [|x l IH]; intros h; simpl.
  - now rewrite append_nil_r.
  - now rewrite IH, append_assoc.
Qed.

Lemma find_never {A} (l : list A) : find (fun _ => false) l = None.
Proof. induction l; simpl; auto. Qed.

Lemma rankEntries_found rt kb vs query v maxResults r :
  In r (rankEntries rt kb vs query v maxResults) ->
  exists doc, find (fun d => String.eqb (id d) (documentId r)) kb = Some doc.
Proof.
  intros Hin. apply rankEntries_In in Hin as (_ & entry & _ & Hscore).
  unfold scoreEntry in Hscore.
  destruct (find _ kb) as [doc|] eqn:Hfind; [|discriminate].
  inversion Hscore; subst; simpl. eauto.
Qed.

Lemma mapR_app {A B} (f : A -> Result B) (l1 l2 : list A) r1 r2 :
  mapR f l1 = Ok r1 -> mapR f l2 = Ok r2 -> mapR f (l1 ++ l2) = Ok (r1 ++ r2).
Proof.
  revert r1. induction l1 as [|x l1 IH]; intros r1 H1 H2; simpl in *.
  - inversion H1. exact H2.
  - destruct (f x) as [y|e]; simpl in *; [|discriminate].
    destruct (mapR f l1) as [ys|e]; simpl in *; [|discriminate].
    inversion H1; subst. now rewrite (IH ys eq_refl H2).
Qed.

(** X30.  The proactive retrieval never fails and changes nothing but the
    log.  For a message that does not look informational (it has no
    question mark and, in lower case, none of the thirteen keywords) nothing
    is requested and nothing is retrieved.  Otherwise one embedding request is
    made: when it fails, or when the search returns no result, nothing is
    retrieved; when it returns results (three at most), the retrieved text
    is the fixed introduction followed, for each result in order, by the
    section [From "<title>":\n<content>\n\n] of the document the result
    names, under the title of its parent document when the document is a
    chunk whose parent is in the knowledge base.  The first completion
    request of the turn starts with the system message, which is the system
    prompt alone when nothing was retrieved and the system prompt followed
    by [\n\nRELEVANT KNOWLEDGE:\n] and the retrieved text otherwise, goes on
    with the recent history and ends with the user's message. *)
Theorem retrieveRelevantInfo_outcome (rt : Runtime) (userMessage : string)
  (conversationHistory : list Message) (st : State) :
  let kb := knowledgeBase st in
  let heading (doc : KnowledgeDocument) :=
    match metadataMember doc "parentId" with
    | Some (JString parentId) =>
        if truthy parentId then
          match find (fun d => String.eqb (id d) parentId) kb with
          | Some parentDoc => title parentDoc
          | None => title doc
          end
        else title doc
    | _ => title doc
    end in
  let section (doc : KnowledgeDocument) :=
    "From " +:+ dquote +:+ heading doc +:+ dquote +:+ ":" +:+ lf
    +:+ content doc +:+ nn in
  let systemContent (info : string) :=
    if String.eqb info "" then systemPrompt rt
    else systemPrompt rt +:+ nn +:+ "RELEVANT KNOWLEDGE:" +:+ lf +:+ info in
  exists info st1,
    retrieveRelevantInfo rt userMessage st = (Ok info, st1)
    /\ knowledgeBase st1 = kb
    /\ vectorStore st1 = vectorStore st
    /\ files st1 = files st
    /\ (looksInformational userMessage = true
        <-> includes userMessage "?" = true
            \/ exists keyword,
                In keyword
                  [ "what"; "how"; "when"; "where"; "why"; "can"; "do"; "is";
                    "are"; "policy"; "policies"; "appointment"; "schedule" ]
                /\ includes (toLowerCase userMessage) keyword = true)
    /\ (looksInformational userMessage = false -> info = "" /\ log st1 = log st)
    /\ (looksInformational userMessage = true ->
        log st1 = log st ++ [EvEmbedding userMessage]
        /\ match embeddings_create rt (log st) userMessage with
           | Throw _ => info = ""
           | Ok queryEmbedding =>
               let searchResults :=
                 rankEntries rt kb (vectorStore st) userMessage queryEmbedding 3 in
               (length searchResults <= 3)%nat
               /\ exists docs,
                   Forall2
                     (fun result doc =>
                        find (fun d => String.eqb (id d) (documentId result)) kb
                        = Some doc)
                     searchResults docs
                   /\ info
                      = match docs with
                        | [] => ""
                        | _ =>
                            "Based on our knowledge base, here is some relevant information:"
                            +:+ nn
                            +:+ fold_right String.append "" (map section docs)
                        end
           end)
    /\ (forall params,
           mapR convertToOpenAIMessage (lastN 10 conversationHistory) = Ok params ->
           exists more,
             chatRequests
               (log (snd (chatWithBot rt userMessage conversationHistory st)))
             = chatRequests (log st)
               ++ {| requestMessages :=
                       {| paramRole := system; paramContent := systemContent info;
                          paramToolCallId := None; paramToolCalls := None |}
                       :: params
                       ++ [ {| paramRole := user; paramContent := userMessage;
                               paramToolCallId := None;
                               paramToolCalls := None |} ];
                     requestTools := Some functions;
                     requestToolChoice := Some "auto" |}
               :: more).
Proof.
  intros kb heading section systemContent.
  assert (Hsection : forall result doc,
             find (fun d => String.eqb (id d) (documentId result)) kb = Some doc ->
             describeResult kb result = section doc).
  { intros result doc Hfind. unfold describeResult. rewrite Hfind.
    unfold section, heading, fromDocument.
    assert (Hother : forall parentId,
               (forall d : KnowledgeDocument, idIs parentId d = false) ->
               find (idIs parentId) kb = None).
    { intros parentId Hfalse. apply find_absent.
      apply Forall_forall. intros d _. apply Hfalse. }
    destruct (metadataMember doc "parentId") as [parentId|]; [|reflexivity].
    destruct parentId as [|b|q|parentId|items|members]; simpl;
      try reflexivity;
      try (rewrite Hother by reflexivity;
           try match goal with
               | |- context [if ?c then _ else _] => destruct c
               end; reflexivity).
    destruct (truthy parentId); [|reflexivity].
    change (idIs (JString parentId))
      with (fun d : KnowledgeDocument => String.eqb (id d) parentId).
    destruct (find (fun d => String.eqb (id d) parentId) kb); reflexivity. }
  assert (Hdocs : forall results,
             (forall r, In r results ->
                exists doc,
                  find (fun d => String.eqb (id d) (documentId r)) kb = Some doc) ->
             exists docs,
               Forall2
                 (fun result doc =>
                    find (fun d => String.eqb (id d) (documentId result)) kb
                    = Some doc) results docs
               /\ map (describeResult kb) results = map section docs).
  { induction results as [|r results IH]; intros Hall.
    - exists []. split; [constructor | reflexivity].
    - destruct (Hall r (or_introl eq_refl)) as [doc Hdoc].
      destruct IH as (docs & Hf & Hm); [intros r' Hr'; apply Hall; now right|].
      exists (doc :: docs). split; [now constructor|].
      simpl. now rewrite (Hsection _ _ Hdoc), Hm. }
  destruct (retrieveRelevantInfo_total rt userMessage st) as (info & st1 & Hret).
  exists info, st1. split; [exact Hret|].
  pose proof (readOnly_retrieveRelevantInfo rt userMessage st) as Hro.
  rewrite Hret in Hro. simpl in Hro. destruct Hro as (Hkb & Hvs & Hfiles & _).
  split; [exact Hkb|]. split; [exact Hvs|]. split; [exact Hfiles|].
  split.
  { unfold looksInformational. rewrite orb_true_iff, existsb_exists.
    reflexivity. }
  split; [|split].
  - intros Hlooks. unfold retrieveRelevantInfo in Hret. rewrite Hlooks in Hret.
    inversion Hret. split; reflexivity.
  - intros Hlooks. unfold retrieveRelevantInfo in Hret. rewrite Hlooks in Hret.
    unfold tryCatch, bind in Hret. rewrite semanticSearch_run in Hret.
    destruct (embeddings_create rt (log st) userMessage) as [v|e];
      simpl in Hret; inversion Hret; subst; simpl; (split; [reflexivity|]);
      [|reflexivity].
    fold kb. set (results := rankEntries rt kb (vectorStore st) userMessage v 3).
    split.
    { pose proof (slice0_length
                    (sortBy byScoreDescending
                       (List.filter
                          (fun result => Qgtb (relevanceScore result) 20)
                          (nonNull (map (scoreEntry rt kb userMessage v)
                                      (vectorStore st))))) 3) as Hlen.
      fold (rankEntries rt kb (vectorStore st) userMessage v 3) in Hlen.
      fold results in Hlen. lia. }
    destruct (Hdocs results) as (docs & Hf & Hm).
    { intros r Hr.
      exact (rankEntries_found rt kb (vectorStore st) userMessage v 3 r Hr). }
    exists docs. split; [exact Hf|].
    unfold relevantInfoOf.
    destruct results as [|r results']; inversion Hf; subst; [reflexivity|].
    rewrite fold_left_append, Hm. reflexivity.
  - intros params Hparams.
    assert (Hlog : log (snd (chatWithBot rt userMessage conversationHistory st))
                   = log (snd (turn rt userMessage conversationHistory st))).
    { unfold chatWithBot, tryCatch.
      destruct (turn rt userMessage conversationHistory st) as [[r|e] st'];
        reflexivity. }
    rewrite Hlog, (turn_run _ _ _ _ _ _ Hret).
    pose proof (quiet_retrieveRelevantInfo rt userMessage st) as Hq.
    rewrite Hret in Hq. simpl in Hq. rewrite <- Hq.
    set (prompt := firstPrompt rt userMessage conversationHistory info).
    assert (Hconv : mapR convertToOpenAIMessage prompt
                    = Ok ({| paramRole := system;
                             paramContent := systemContent info;
                             paramToolCallId := None; paramToolCalls := None |}
                          :: params
                          ++ [ {| paramRole := user; paramContent := userMessage;
                                  paramToolCallId := None;
                                  paramToolCalls := None |} ])).
    { unfold prompt, firstPrompt.
      apply (mapR_app convertToOpenAIMessage [_] _ [_]).
      - simpl. unfold simpleParam, systemContent, enhancedSystemPrompt.
        destruct info; reflexivity.
      - apply mapR_app; [exact Hparams | reflexivity]. }
    rewrite complete_run, Hconv. cbv zeta.
    match goal with
    | |- context [EvChat ?r] => set (request := r)
    end.
    match goal with
    | |- context [bindR ?c firstMessage] =>
        destruct (bindR c firstMessage) as [first|e]
    end.
    2:{ exists []. simpl. rewrite chatRequests_app. reflexivity. }
    match goal with
    | |- context [match completionToolCalls first with _ => _ end] =>
        destruct (completionToolCalls first) as [toolCalls|]
    end.
    2:{ exists []. simpl. rewrite chatRequests_app. reflexivity. }
    match goal with
    | |- context [runToolCalls rt ?ms toolCalls ?s] =>
        pose proof (quiet_runToolCalls rt toolCalls ms s) as Hloop;
        destruct (runToolCalls rt ms toolCalls s) as [[messages|e] st3]
    end; simpl in Hloop.
    2:{ exists []. simpl. rewrite Hloop. simpl. rewrite chatRequests_app.
        reflexivity. }
    destruct (complete_requests rt messages None None st3)
      as (reqs2 & Hreqs2 & _).
    exists reqs2.
    destruct (complete rt messages None None st3) as [[second|e] st4];
      simpl in *; rewrite Hreqs2, Hloop; simpl; rewrite chatRequests_app;
      simpl; now rewrite <- app_assoc.
Qed.

Example retrieveRelevantInfo_example :
  fst (retrieveRelevantInfo calendarDown "What is the policy?" demoState)
  = Ok ("Based on our knowledge base, here is some relevant information:" +:+ nn
        +:+ fromDocument "Cancellation Policy" (content policyDocument)
        +:+ fromDocument "Frequently Asked Questions" (content faqDocument))
  /\ fst (retrieveRelevantInfo embeddingDown "What is the policy?" demoState)
     = Ok ""
  /\ fst (retrieveRelevantInfo calendarDown "Thanks" demoState) = Ok "".
Proof. vm_compute. repeat split. Qed.
